(** * Project-Chromkenstain: match-outcome trainer and player embeddings

    A shallow embedding of [numeric_model.py] (feature engineering and the
    train/test split of [ModelTrainer]) and of [word2vec_model.py] (the
    vector utilities of [PlayerEmbedding]), with the properties the
    specification states about them.

    Numbers that Python holds as floats are modelled as exact rationals
    ([Q]), except where rounding decides what the program does (the
    number of training rows of a split): there they are binary64
    numbers.  Python integers are [Z]; a raised exception is [None]. *)

From Stdlib Require Import ZArith QArith Qround Qabs Qminmax Lia Lra Psatz.
From Stdlib Require Import Ascii String HexString.
From Stdlib Require PrimFloat SpecFloat FloatOps.
From stdpp Require Import gmap strings list.

Local Open Scope Z_scope.

(** ** Python and numpy primitives shared by both modules *)

(** [int(x)] on a float: truncation toward zero. *)
Definition py_int (x : Q) : Z := Z.quot (Qnum x) (Zpos (Qden x)).

(** A Python [float] is an IEEE 754 binary64 number and its arithmetic
    rounds to nearest, ties to even, as Rocq's primitive floats do. *)
Module Binary64.
Import PrimFloat SpecFloat FloatOps.

(** The float an integer becomes in mixed arithmetic. *)
Definition float_of_Z (n : Z) : float :=
  SF2Prim (binary_normalize prec emax n 0 false).

(** The float a decimal literal denotes, for a literal [num/den] with
    numerator and denominator below 2^53: the quotient, rounded once
    ([0.3] is [py_float 3 10]). *)
Definition py_float (num den : Z) : float :=
  (float_of_Z num / float_of_Z den)%float.

(** [int(x)]: truncation toward zero; [nan] and the infinities raise. *)
Definition float_int (x : float) : option Z :=
  match Prim2SF x with
  | S754_zero _ => Some 0
  | S754_infinity _ => None
  | S754_nan => None
  | S754_finite s m e =>
      let magnitude := if 0 <=? e then Z.shiftl (Z.pos m) e
                       else Z.shiftr (Z.pos m) (- e) in
      Some (if s then - magnitude else magnitude)
  end.

(** The rational a float is, when it is finite. *)
Definition float_to_Q (x : float) : option Q :=
  match Prim2SF x with
  | S754_zero _ => Some 0%Q
  | S754_infinity _ => None
  | S754_nan => None
  | S754_finite s m e =>
      let magnitude := if 0 <=? e then inject_Z (Z.shiftl (Z.pos m) e)
                       else (Z.pos m # Pos.shiftl 1 (Z.to_N (- e)))%Q in
      Some (if s then - magnitude else magnitude)%Q
  end.

End Binary64.

(** [l[:k]] for a (possibly negative) integer [k]; a slice is a new list. *)
Definition py_slice_to {A} (l : list A) (k : Z) : list A :=
  if k <? 0 then take (Z.to_nat (Z.of_nat (length l) + k)) l
  else take (Z.to_nat k) l.

(** Cast to a signed 64-bit integer, wrap-around written out. *)
Definition to_int64 (z : Z) : Z := (z + 2 ^ 63) mod 2 ^ 64 - 2 ^ 63.

(** [np.stack(arrays, 0)] on a list of rows taken from one 2-D array: the
    rows have one shape, so the only failure is the empty list
    ([ValueError: need at least one array to stack]). *)
Definition np_stack0 {A} (rows : list A) : option (list A) :=
  match rows with
  | [] => None
  | _ => Some rows
  end.

(** [np.stack(columns, 1)]: the columns become the columns of a matrix,
    returned here as its list of rows.  Fails on no column at all and on
    columns of different lengths. *)
Definition np_stack1 {A} (cols : list (list A)) : option (list (list A)) :=
  match cols with
  | [] => None
  | c :: cs =>
      if forallb (fun c' => Nat.eqb (length c') (length c)) cs
      then Some (map (fun i => omap (fun col => col !! i) cols)
                     (seq 0 (length c)))
      else None
  end.

(** A Python [dict] with string keys, in insertion order. *)
Definition dict (V : Type) : Type := list (string * V).

Fixpoint dict_get {V} (d : dict V) (key : string) : option V :=
  match d with
  | [] => None
  | (k, v) :: d' => if String.eqb k key then Some v else dict_get d' key
  end.

Fixpoint dict_set {V} (d : dict V) (key : string) (v : V) : dict V :=
  match d with
  | [] => [(key, v)]
  | (k, v0) :: d' =>
      if String.eqb k key then (k, v) :: d'
      else (k, v0) :: dict_set d' key v
  end.

Definition dict_keys {V} (d : dict V) : list string := map fst d.

Definition dict_values {V} (d : dict V) : list V := map snd d.

(** [enumerate(l)]. *)
Definition enumerate {A} (l : list A) : list (nat * A) :=
  zip (seq 0 (length l)) l.

(** ** numeric_model.py *)

Module NumericModel.

(** A cell of the loaded CSV table: a number, or text. *)
Inductive cell :=
| Num (q : Q)
| Str (s : string).

Definition cell_compare (a b : cell) : comparison :=
  match a, b with
  | Num x, Num y => Qcompare x y
  | Num _, Str _ => Lt
  | Str _, Num _ => Gt
  | Str s, Str t => String.compare s t
  end.

Definition cell_eqb (a b : cell) : bool :=
  match cell_compare a b with Eq => true | _ => false end.

(** A column of the table: plain values, or (after
    [astype('category')]) the sorted distinct values with one code per
    row. *)
Inductive column :=
| Values (vals : list cell)
| Categorical (categories : list cell) (codes : list nat).

(** The distinct values of a column, sorted. *)
Fixpoint cat_insert (x : cell) (l : list cell) : list cell :=
  match l with
  | [] => [x]
  | y :: l' =>
      match cell_compare x y with
      | Lt => x :: l
      | Eq => l
      | Gt => y :: cat_insert x l'
      end
  end.

Definition unique_sorted (vals : list cell) : list cell :=
  foldr cat_insert [] vals.

Fixpoint code_of (x : cell) (cats : list cell) : nat :=
  match cats with
  | [] => 0
  | y :: cats' => if cell_eqb x y then 0%nat else S (code_of x cats')
  end.

(** [series.values]: the values of the rows, also for a categorical
    column (the categories indexed by the codes). *)
Definition column_values (c : column) : list cell :=
  match c with
  | Values vals => vals
  | Categorical cats codes => omap (fun k => cats !! k) codes
  end.

(** [series.astype('category')]. *)
Definition astype_category (c : column) : column :=
  match c with
  | Values vals =>
      let cats := unique_sorted vals in
      Categorical cats (map (fun x => code_of x cats) vals)
  | Categorical _ _ => c
  end.

(** [series.cat.categories]; the [.cat] accessor exists only on a
    categorical column. *)
Definition cat_categories (c : column) : option (list cell) :=
  match c with
  | Values _ => None
  | Categorical cats _ => Some cats
  end.

(** The table: its number of rows and its columns in file order. *)
Record DataFrame := mkDataFrame {
  index_len : nat;
  df_columns : dict column
}.

Definition shape0 (df : DataFrame) : nat := index_len df.

Definition df_keys (df : DataFrame) : list string := dict_keys (df_columns df).

(** [df[key]]; [None] is the [KeyError]. *)
Definition df_get (df : DataFrame) (key : string) : option column :=
  dict_get (df_columns df) key.

(** [df[key] = c]. *)
Definition df_set (df : DataFrame) (key : string) (c : column) : DataFrame :=
  mkDataFrame (index_len df) (dict_set (df_columns df) key c).

(** [torch.tensor(m, dtype=torch.int64)]: text cannot be converted, a
    float is truncated. *)
Definition cell_int64 (c : cell) : option Z :=
  match c with
  | Num q => Some (to_int64 (py_int q))
  | Str _ => None
  end.

(** [torch.tensor(m, dtype=torch.float)]. *)
Definition cell_float (c : cell) : option Q :=
  match c with
  | Num q => Some q
  | Str _ => None
  end.

Definition tensor_int64 (m : list (list cell)) : option (list (list Z)) :=
  mapM (mapM cell_int64) m.

Definition tensor_float (m : list (list cell)) : option (list (list Q)) :=
  mapM (mapM cell_float) m.

Definition CATEGORIES : list string :=
  ["League"; "TeamHome"; "TeamAway"; "ManagerHome"; "ManagerAway";
   "FormationHome"; "FormationAway"; "Stadium"; "Referee"; "FutureTeamHome";
   "FutureTeamAway"; "FutureStatusTeamHome"; "FutureStatusTeamAway"]%string.

Definition INVALID : list string :=
  ["Result"; "Total2.5"; "Total1.5"; "TeamHomeStr"; "TeamAwayStr"; "Date";
   "StartTeamHome"; "StartTeamAway"; "SubsTeamHome"; "SubsTeamAway"]%string.

(** The fields of a [ModelTrainer] that feature engineering and the split
    read and write; a field still [None] has not been assigned. *)
Record ModelTrainer := mkModelTrainer {
  DATA_MATRIX : DataFrame;
  RESULT : list cell;
  emb_matrix : option (list (list Z));
  numeric_matrix : option (list (list cell));
  categorical_embedding_sizes : option (list (Z * Z));
  cat_train : option (list (list Z));
  cat_test : option (list (list Z));
  num_train : option (list (list Q));
  num_test : option (list (list Q));
  result_train : option (list Z);
  result_test : option (list Z)
}.

Definition str_in (k : string) (l : list string) : bool :=
  existsb (String.eqb k) l.

(** The number of categories a column has once converted. *)
Definition cardinality (c : column) : Z :=
  match cat_categories (astype_category c) with
  | Some cats => Z.of_nat (length cats)
  | None => 0
  end.

(** The embedding dimension of a field with [col_size] categories. *)
Definition embedding_dim (col_size : Z) : Z := Z.min 50 ((col_size + 1) / 2).

(** The loop [for category in CATEGORIES: df[category] = ...astype]. *)
Fixpoint convert_categories (df : DataFrame) (cats : list string)
  : option DataFrame :=
  match cats with
  | [] => Some df
  | category :: cats' =>
      c ← df_get df category;
      convert_categories (df_set df category (astype_category c)) cats'
  end.

Definition define_learn_data (self : ModelTrainer) : option ModelTrainer :=
  (* emb data *)
  emb_cols ← mapM (fun col => column_values <$> df_get (DATA_MATRIX self) col)
                  CATEGORIES;
  emb ← np_stack1 emb_cols;
  emb ← tensor_int64 emb;
  (* num matrix *)
  let num_list :=
    filter (fun col_key => negb (str_in col_key INVALID)
                           && negb (str_in col_key CATEGORIES) = true)
           (df_keys (DATA_MATRIX self)) in
  num_cols ← mapM (fun col => column_values <$> df_get (DATA_MATRIX self) col)
                  num_list;
  numeric ← np_stack1 num_cols;
  df ← convert_categories (DATA_MATRIX self) CATEGORIES;
  categorical_column_sizes ←
    mapM (fun column =>
            c ← df_get df column;
            cats ← cat_categories c;
            Some (Z.of_nat (length cats)))
         CATEGORIES;
  Some {| DATA_MATRIX := df;
          RESULT := RESULT self;
          emb_matrix := Some emb;
          numeric_matrix := Some numeric;
          categorical_embedding_sizes :=
            Some (map (fun col_size => (col_size, embedding_dim col_size))
                      categorical_column_sizes);
          cat_train := cat_train self;
          cat_test := cat_test self;
          num_train := num_train self;
          num_test := num_test self;
          result_train := result_train self;
          result_test := result_test self |}.

(** A table as [read_csv] gives it to the trainer: every column has one
    value per row, the 13 categorical columns are there and hold numbers,
    and at least one column is a numeric feature. *)
Definition is_num (c : cell) : Prop :=
  match c with
  | Num _ => True
  | Str _ => False
  end.

Record wf_frame (df : DataFrame) : Prop := mk_wf_frame {
  wf_lengths :
    Forall (fun kc => length (column_values kc.2) = index_len df)
           (df_columns df);
  wf_categories :
    Forall (fun name => exists col, df_get df name = Some col
                                    /\ Forall is_num (column_values col))
           CATEGORIES;
  wf_numeric :
    exists key, key ∈ df_keys df
                /\ str_in key INVALID = false
                /\ str_in key CATEGORIES = false
}.

(** The Python list objects of [split_data], held by reference: a store
    of lists, a reference being a position in it. *)
Definition heap := list (list nat).

Definition alloc (h : heap) (l : list nat) : nat * heap :=
  (length h, h ++ [l]).

Definition deref (h : heap) (r : nat) : list nat := default [] (h !! r).

(** The six local lists filled by the loop of [split_data]. *)
Record buckets := mkBuckets {
  new_cat_matrix_train : list (list Z);
  new_cat_matrix_test : list (list Z);
  new_num_matrix_train : list (list cell);
  new_num_matrix_test : list (list cell);
  new_result_train : list cell;
  new_result_test : list cell
}.

Definition empty_buckets : buckets := mkBuckets [] [] [] [] [] [].

(** One iteration of [for match_i in range(total_matches)]. *)
Definition split_step (self : ModelTrainer) (train_index_list : list nat)
    (b : buckets) (match_i : nat) : option buckets :=
  emb ← emb_matrix self;
  num ← numeric_matrix self;
  cat_row ← emb !! match_i;
  num_row ← num !! match_i;
  res ← RESULT self !! match_i;
  if bool_decide (match_i ∈ train_index_list) then
    Some {| new_cat_matrix_train := new_cat_matrix_train b ++ [cat_row];
            new_cat_matrix_test := new_cat_matrix_test b;
            new_num_matrix_train := new_num_matrix_train b ++ [num_row];
            new_num_matrix_test := new_num_matrix_test b;
            new_result_train := new_result_train b ++ [res];
            new_result_test := new_result_test b |}
  else
    Some {| new_cat_matrix_train := new_cat_matrix_train b;
            new_cat_matrix_test := new_cat_matrix_test b ++ [cat_row];
            new_num_matrix_train := new_num_matrix_train b;
            new_num_matrix_test := new_num_matrix_test b ++ [num_row];
            new_result_train := new_result_train b;
            new_result_test := new_result_test b ++ [res] |}.

Fixpoint split_loop (self : ModelTrainer) (train_index_list : list nat)
    (b : buckets) (range : list nat) : option buckets :=
  match range with
  | [] => Some b
  | match_i :: range' =>
      b' ← split_step self train_index_list b match_i;
      split_loop self train_index_list b' range'
  end.

(** [split_data] from the index list to the end of its loop, given the
    number [train_matches] its second line computed.  [shuffle] is the
    outcome of [random.shuffle]: the list it leaves in [index_list]. *)
Definition split_data_lists (shuffle : list nat -> list nat)
    (train_matches : Z) (self : ModelTrainer) : option buckets :=
  let total_matches := shape0 (DATA_MATRIX self) in
  let '(index_list, h) := alloc [] (seq 0 total_matches) in
  let '(train_index_list, h) :=
    alloc h (py_slice_to (deref h index_list) train_matches) in
  let h := <[index_list := shuffle (deref h index_list)]> h in
  split_loop self (deref h train_index_list) empty_buckets
             (seq 0 total_matches).

(** The end of [split_data]: the six lists stacked and assigned. *)
Definition split_data_assign (self : ModelTrainer) (b : buckets)
  : option ModelTrainer :=
  (* the categorical rows are 64-bit integers already: the cast of
     [cat_train] and [cat_test] changes nothing *)
  new_cat_train ← np_stack0 (new_cat_matrix_train b);
  new_cat_test ← np_stack0 (new_cat_matrix_test b);
  new_num_train ← np_stack0 (new_num_matrix_train b) ≫= tensor_float;
  new_num_test ← np_stack0 (new_num_matrix_test b) ≫= tensor_float;
  new_res_train ← np_stack0 (new_result_train b) ≫= mapM cell_int64;
  new_res_test ← np_stack0 (new_result_test b) ≫= mapM cell_int64;
  Some {| DATA_MATRIX := DATA_MATRIX self;
          RESULT := RESULT self;
          emb_matrix := emb_matrix self;
          numeric_matrix := numeric_matrix self;
          categorical_embedding_sizes := categorical_embedding_sizes self;
          cat_train := Some new_cat_train;
          cat_test := Some new_cat_test;
          num_train := Some new_num_train;
          num_test := Some new_num_test;
          result_train := Some new_res_train;
          result_test := Some new_res_test |}.

(** [int((1 - ratio) * total_matches)] as Python computes it: the
    integer 1 and the number of rows become floats, the difference and
    the product are each rounded. *)
Definition float_train_matches (ratio : PrimFloat.float)
    (total_matches : nat) : option Z :=
  Binary64.float_int
    (PrimFloat.mul (PrimFloat.sub PrimFloat.one ratio)
                   (Binary64.float_of_Z (Z.of_nat total_matches))).

(** [split_data] up to the end of its loop, and the whole of it, for a
    ratio that is a float. *)
Definition split_data_buckets_f64 (shuffle : list nat -> list nat)
    (ratio : PrimFloat.float) (self : ModelTrainer) : option buckets :=
  train_matches ← float_train_matches ratio (shape0 (DATA_MATRIX self));
  split_data_lists shuffle train_matches self.

Definition split_data_f64 (shuffle : list nat -> list nat)
    (ratio : PrimFloat.float) (self : ModelTrainer) : option ModelTrainer :=
  b ← split_data_buckets_f64 shuffle ratio self;
  split_data_assign self b.

(** The same with the ratio an exact rational and a product that is not
    rounded.  At the default ratio 0.2 this is the number binary64
    gives (1 - 0.2 is the float 0.8, and the product with the number of
    rows of a table rounds to a float with the same integer part); at
    other ratios the two can differ by one. *)
Definition split_data_buckets (shuffle : list nat -> list nat) (ratio : Q)
    (self : ModelTrainer) : option buckets :=
  let total_matches := shape0 (DATA_MATRIX self) in
  let train_matches :=
    py_int ((1 - ratio) * inject_Z (Z.of_nat total_matches))%Q in
  split_data_lists shuffle train_matches self.

Definition split_data (shuffle : list nat -> list nat) (ratio : Q)
    (self : ModelTrainer) : option ModelTrainer :=
  b ← split_data_buckets shuffle ratio self;
  split_data_assign self b.

(** A [ModelTrainer] as [__init__] has it before feature engineering. *)
Definition new_trainer (df : DataFrame) (res : list cell) : ModelTrainer :=
  {| DATA_MATRIX := df; RESULT := res;
     emb_matrix := None; numeric_matrix := None;
     categorical_embedding_sizes := None;
     cat_train := None; cat_test := None;
     num_train := None; num_test := None;
     result_train := None; result_test := None |}.

(** [ModelTrainer.__init__] up to the split (the network, the loss and
    the optimizer are built afterwards). *)
Definition init (shuffle : list nat -> list nat) (df : DataFrame)
  : option ModelTrainer :=
  res ← column_values <$> df_get df "Result";
  self ← define_learn_data (new_trainer df res);
  split_data shuffle (2 # 10) self.

(** A small table for examples: every categorical column holds
    [cat_vals], the label column [res_vals], and there is one numeric
    column ["Goals"]. *)
Definition example_frame (cat_vals num_vals res_vals : list Z) : DataFrame :=
  let col l := Values (map (fun z => Num (inject_Z z)) l) in
  mkDataFrame (length cat_vals)
    (map (fun k => (k, col cat_vals)) CATEGORIES
     ++ [("Result"%string, col res_vals); ("Goals"%string, col num_vals);
         ("Date"%string, Values (map (fun _ => Str "2020-01-01") cat_vals))]).

(** The trainer of examples, after feature engineering. *)
Definition example_trainer (cat_vals num_vals res_vals : list Z)
  : ModelTrainer :=
  let df := example_frame cat_vals num_vals res_vals in
  let self := new_trainer df (map (fun z => Num (inject_Z z)) res_vals) in
  default self (define_learn_data self).

End NumericModel.

(** ** word2vec_model.py *)

Module PlayerEmbedding.

(** The result of a numpy float division: a finite number, or what a zero
    divisor leaves ([inf], [-inf], [nan]; numpy warns and goes on). *)
Inductive npfloat :=
| Fin (q : Q)
| PosInf
| NegInf
| NaN.

Definition np_div (x y : Q) : npfloat :=
  if Qeq_bool y 0 then
    match Qcompare x 0 with
    | Eq => NaN
    | Gt => PosInf
    | Lt => NegInf
    end
  else Fin (x / y).

(** [np.min] and [np.max] of a vector; [None] is the [ValueError] on an
    empty one. *)
Definition vec_min (v : list Q) : option Q :=
  match v with
  | [] => None
  | x :: v' => Some (foldl Qmin x v')
  end.

Definition vec_max (v : list Q) : option Q :=
  match v with
  | [] => None
  | x :: v' => Some (foldl Qmax x v')
  end.

(** What [get_player_vector] returns: the integer 0 or a vector. *)
Inductive pyval :=
| PyInt (z : Z)
| PyVec (v : list Q).

(** A scaled value: numpy treats a Python integer as a 0-d array. *)
Inductive npval :=
| NpScalar (x : npfloat)
| NpArray (v : list npfloat).

Definition np_min (x : pyval) : option Q :=
  match x with
  | PyInt z => Some (inject_Z z)
  | PyVec v => vec_min v
  end.

Definition np_max (x : pyval) : option Q :=
  match x with
  | PyInt z => Some (inject_Z z)
  | PyVec v => vec_max v
  end.

(** [(x + abs(lo)) / (hi + abs(lo))], elementwise. *)
Definition rescale (lo hi : Q) (x : pyval) : npval :=
  let f := fun a : Q => np_div (a + Qabs lo) (hi + Qabs lo) in
  match x with
  | PyInt z => NpScalar (f (inject_Z z))
  | PyVec v => NpArray (map f v)
  end.

(** The trained model: [wv] maps each token of the vocabulary to its
    vector. *)
Record Word2Vec := mkWord2Vec {
  wv : dict (list Q);
  vector_size : Z
}.

Record PlayerEmbedding := mkPlayerEmbedding {
  MODEL : option Word2Vec;
  NORMALIZED_VECTORS : option (dict npval);
  VEC_SIZE : Z
}.

(** The class attributes: the state of a fresh instance. *)
Definition fresh : PlayerEmbedding :=
  {| MODEL := None; NORMALIZED_VECTORS := None; VEC_SIZE := 0 |}.

(** [w2v_load]: [loaded] is what [Word2Vec.load] reads from the file. *)
Definition w2v_load (self : PlayerEmbedding) (loaded : Word2Vec)
  : PlayerEmbedding :=
  {| MODEL := Some loaded;
     NORMALIZED_VECTORS := NORMALIZED_VECTORS self;
     VEC_SIZE := vector_size loaded |}.

(** [wv.get_vector(name)]; [None] is the [KeyError]. *)
Definition get_vector (m : Word2Vec) (name : string) : option (list Q) :=
  dict_get (wv m) name.

Definition get_player_vector (self : PlayerEmbedding) (player_name : string)
  : option pyval :=
  match MODEL self with
  | None => Some (PyInt 0)
  | Some m => PyVec <$> get_vector m player_name
  end.

Fixpoint get_all_vectors_loop (self : PlayerEmbedding) (keys : list string)
    (all_vectors : dict pyval) : option (dict pyval) :=
  match keys with
  | [] => Some all_vectors
  | player_name :: keys' =>
      v ← get_player_vector self player_name;
      get_all_vectors_loop self keys' (dict_set all_vectors player_name v)
  end.

(** [self.MODEL.wv] on a missing model is an [AttributeError]. *)
Definition get_all_vectors (self : PlayerEmbedding) : option (dict pyval) :=
  m ← MODEL self;
  get_all_vectors_loop self (dict_keys (wv m)) [].

(** The first loop of [normalize_all_vectors]: the running maximum and
    minimum. *)
Fixpoint max_min_loop (values : list pyval) (max_value min_value : Q)
  : option (Q * Q) :=
  match values with
  | [] => Some (max_value, min_value)
  | vec :: values' =>
      min_v ← np_min vec;
      max_v ← np_max vec;
      let min_value := if Qlt_le_dec min_v min_value then min_v
                       else min_value in
      let max_value := if Qlt_le_dec max_value max_v then max_v
                       else max_value in
      max_min_loop values' max_value min_value
  end.

(** The second loop goes through the keys of the dictionary, which are
    distinct, and replaces each value by its scaled form: a map over the
    entries.  Returns the new state and the returned mapping. *)
Definition normalize_all_vectors (self : PlayerEmbedding)
  : option (PlayerEmbedding * dict npval) :=
  all_vectors ← get_all_vectors self;
  '(max_value, min_value) ← max_min_loop (dict_values all_vectors) 0 0;
  let all_vectors :=
    map (fun kv => (kv.1, rescale min_value max_value kv.2)) all_vectors in
  Some ({| MODEL := MODEL self;
           NORMALIZED_VECTORS := Some all_vectors;
           VEC_SIZE := VEC_SIZE self |},
        all_vectors).

Definition normalize_vector (data_vector : list Q) : option (list npfloat) :=
  min_v ← vec_min data_vector;
  max_v ← vec_max data_vector;
  Some (map (fun a => np_div (a + Qabs min_v) (max_v + Qabs min_v))
            data_vector).

(** A Python [str], as its characters. *)
Definition pystr := list ascii.

(** [hex(n)]. *)
Definition hex (n : Z) : pystr := list_ascii_of_string (HexString.of_Z n).

(** The digits of [int(s, 16)] after the radix prefix. *)
Fixpoint hex_value (s : pystr) (acc : N) : option N :=
  match s with
  | [] => Some acc
  | ch :: s' =>
      d ← ascii_to_digit ch;
      hex_value s' (d + 16 * acc)%N
  end.

(** [int(s, 16)] for [s] starting with ["0x"]: the rest must be one or
    more hexadecimal digits, else [ValueError]. *)
Definition int16 (s : pystr) : option Z :=
  match s with
  | "0"%char :: "x"%char :: (_ :: _) as digits =>
      Z.of_N <$> hex_value digits 0
  | _ => None
  end.

(** [l.index(x)]: the first position of [x]; [None] is the
    [ValueError]. *)
Fixpoint list_index (x : pystr) (l : list pystr) : option nat :=
  match l with
  | [] => None
  | y :: l' => if decide (x = y) then Some 0%nat else S <$> list_index x l'
  end.

(** [m[i, c] = v]; [None] is the [IndexError]. *)
Definition set_item (m : list (list Z)) (i c : nat) (v : Z)
  : option (list (list Z)) :=
  row ← m !! i;
  if decide (c < length row)%nat then Some (<[i := <[c := v]> row]> m)
  else None.

(** The loop of [convert_to_rgb] over the remaining elements of
    [list_vec]. *)
Fixpoint rgb_loop (list_vec todo new_list_vec : list pystr)
    (rgb_vec : list (list Z)) : option (list (list Z)) :=
  match todo with
  | [] => Some rgb_vec
  | dim :: todo' =>
      let new_list_vec :=
        if decide (length dim < 6)%nat then
          let less_len := (6 - length dim)%nat in
          new_list_vec ++ [replicate less_len "0"%char ++ dim]
        else new_list_vec ++ [dim] in
      padded ← last new_list_vec;
      red ← int16 ("0"%char :: "x"%char :: take 2 padded);
      green ← int16 ("0"%char :: "x"%char :: take 2 (drop 2 padded));
      blue ← int16 ("0"%char :: "x"%char :: drop 4 padded);
      i ← list_index dim list_vec;
      rgb_vec ← set_item rgb_vec i 0 red;
      i ← list_index dim list_vec;
      rgb_vec ← set_item rgb_vec i 1 green;
      i ← list_index dim list_vec;
      rgb_vec ← set_item rgb_vec i 2 blue;
      rgb_loop list_vec todo' new_list_vec rgb_vec
  end.

Definition convert_to_rgb (vec : list Q) : option (list (list Z)) :=
  let rgb_vec := replicate (length vec) [0; 0; 0] in
  let new_vec := map (fun x => x * 16777215)%Q vec in
  let new_vec := map py_int new_vec in
  let new_vec := map hex new_vec in
  let list_vec := map (drop 2) new_vec in
  rgb_loop list_vec list_vec [] rgb_vec.

(** Fixed-width rendering, used to state what the padded digits are: the
    [k] low hexadecimal digits of [n], most significant first. *)
Definition nibble_char (d : N) : ascii :=
  match d with
  | 0 => "0" | 1 => "1" | 2 => "2" | 3 => "3" | 4 => "4" | 5 => "5"
  | 6 => "6" | 7 => "7" | 8 => "8" | 9 => "9" | 10 => "a" | 11 => "b"
  | 12 => "c" | 13 => "d" | 14 => "e" | _ => "f"
  end%N%char.

Fixpoint fixed_hex (k : nat) (n : N) : pystr :=
  match k with
  | O => []
  | S k' => fixed_hex k' (n / 16)%N ++ [nibble_char (n mod 16)%N]
  end.

(** The integer an element is scaled to, and the colour the loop computes
    from the digits of an element. *)
Definition scaled (x : Q) : Z := py_int (x * 16777215).

Definition rgb_of_digits (dim : pystr) : option (list Z) :=
  let padded := if decide (length dim < 6)%nat
                then replicate (6 - length dim)%nat "0"%char ++ dim
                else dim in
  red ← int16 ("0"%char :: "x"%char :: take 2 padded);
  green ← int16 ("0"%char :: "x"%char :: take 2 (drop 2 padded));
  blue ← int16 ("0"%char :: "x"%char :: drop 4 padded);
  Some [red; green; blue].

(** The RGB encoding of an element. *)
Definition rgb_encoding (x : Q) : option (list Z) :=
  rgb_of_digits (drop 2 (hex (scaled x))).

End PlayerEmbedding.

(** ** numeric_model.py: the network and the training loop *)

Module Network.

Import NumericModel.

(** The modules [Model.__init__] puts in [self.layers], with the sizes it
    gives them. *)
Inductive layer :=
| Linear (in_features out_features : Z)
| ReLU
| BatchNorm1d (num_features : Z)
| Dropout (p : Q).

(** [nn.Embedding(ni, nf)]: a table of [ni] rows of [nf] weights.  [w]
    gives the weights the table starts with.  torch refuses a negative
    size ([None]), here and in the other constructors; a size of zero
    gives an empty tensor. *)
Record Embedding := mkEmbedding {
  num_embeddings : Z;
  embedding_dimension : Z;
  weight : list (list Q)
}.

Definition nn_Embedding (w : nat -> nat -> Q) (ni nf : Z) : option Embedding :=
  if decide (0 <= ni /\ 0 <= nf) then
    Some {| num_embeddings := ni;
            embedding_dimension := nf;
            weight := map (fun r => map (fun c => w r c) (seq 0 (Z.to_nat nf)))
                          (seq 0 (Z.to_nat ni)) |}
  else None.

Definition nn_Linear (in_features out_features : Z) : option layer :=
  if decide (0 <= in_features /\ 0 <= out_features)
  then Some (Linear in_features out_features) else None.

Definition nn_BatchNorm1d (num_features : Z) : option layer :=
  if decide (0 <= num_features) then Some (BatchNorm1d num_features) else None.

(** [nn.Dropout(p)] wants a probability. *)
Definition nn_Dropout (p : Q) : option layer :=
  if Qle_bool 0 p && Qle_bool p 1 then Some (Dropout p) else None.

Record Model := mkModel {
  all_embeddings : list Embedding;
  embedding_dropout : layer;
  batch_norm_num : layer;
  layers : list layer
}.

(** The loop [for i in layers] of [Model.__init__]. *)
Fixpoint build_layers (layers : list Z) (all_layers : list layer)
    (input_size : Z) (p : Q) : option (list layer) :=
  match layers with
  | [] => Some all_layers
  | i :: layers' =>
      linear ← nn_Linear input_size i;
      batch_norm ← nn_BatchNorm1d i;
      dropout ← nn_Dropout p;
      build_layers layers'
        (all_layers ++ [linear; ReLU; batch_norm; dropout]) i p
  end.

(** [Model.__init__]; [layers[-1]] is an [IndexError] on an empty list.
    [w i] gives the initial weights of table [i]. *)
Definition Model_init (w : nat -> nat -> nat -> Q)
    (embedding_size : list (Z * Z)) (num_numerical_cols output_size : Z)
    (layers : list Z) (p : Q) : option Model :=
  all_embeddings ←
    mapM (fun s => nn_Embedding (w s.1) s.2.1 s.2.2)
         (imap pair embedding_size);
  embedding_dropout ← nn_Dropout p;
  batch_norm_num ← nn_BatchNorm1d num_numerical_cols;
  let num_categorical_cols := foldr Z.add 0 (map snd embedding_size) in
  let input_size := num_categorical_cols + num_numerical_cols in
  all_layers ← build_layers layers [] input_size p;
  last_width ← last layers;
  final ← nn_Linear last_width output_size;
  Some {| all_embeddings := all_embeddings;
          embedding_dropout := embedding_dropout;
          batch_norm_num := batch_norm_num;
          layers := all_layers ++ [final] |}.

(** [x[:, i]] on a 2-D tensor held as the list of its rows. *)
Definition column_slice {A} (x : list (list A)) (i : nat) : option (list A) :=
  mapM (fun row => row !! i) x.

(** [e(indices)]: one row of the table per index; an index outside
    [0, num_embeddings) is an [IndexError]. *)
Definition embedding_lookup (e : Embedding) (indices : list Z)
  : option (list (list Q)) :=
  mapM (fun v => if decide (0 <= v < num_embeddings e)
                 then weight e !! Z.to_nat v else None)
       indices.

(** [torch.cat(tensors, 1)]: the rows side by side; an empty list of
    tensors is refused. *)
Definition torch_cat1 (tensors : list (list (list Q)))
  : option (list (list Q)) :=
  match tensors with
  | [] => None
  | t :: ts =>
      if forallb (fun t' => Nat.eqb (length t') (length t)) ts
      then Some (map (fun b => concat (omap (fun t' => t' !! b) tensors))
                     (seq 0 (length t)))
      else None
  end.

(** The loop of [forward] over the embedding tables, and its result
    (the first four lines of [forward]; dropout, batch normalisation and
    the linear layers follow). *)
Fixpoint forward_loop (x_categorical : list (list Z)) (i : nat)
    (tables : list Embedding) (embeddings : list (list (list Q)))
  : option (list (list (list Q))) :=
  match tables with
  | [] => Some embeddings
  | e :: tables' =>
      indices ← column_slice x_categorical i;
      looked_up ← embedding_lookup e indices;
      forward_loop x_categorical (S i) tables' (embeddings ++ [looked_up])
  end.

Definition forward_embeddings (m : Model) (x_categorical : list (list Z))
  : option (list (list Q)) :=
  embeddings ← forward_loop x_categorical 0 (all_embeddings m) [];
  torch_cat1 embeddings.

(** What a module of [self.layers] makes of an input of a given width:
    the width it returns, or [None] where torch refuses the shape. *)
Definition layer_width (l : layer) (width : Z) : option Z :=
  match l with
  | Linear a b => if decide (width = a) then Some b else None
  | ReLU => Some width
  | BatchNorm1d c => if decide (width = c) then Some width else None
  | Dropout _ => Some width
  end.

Fixpoint sequential_width (ls : list layer) (width : Z) : option Z :=
  match ls with
  | [] => Some width
  | l :: ls' => w ← layer_width l width; sequential_width ls' w
  end.

(** [m.shape[1]] of a matrix with at least one row. *)
Definition shape1 {A} (m : list (list A)) : Z :=
  match m with
  | [] => 0
  | row :: _ => Z.of_nat (length row)
  end.

(** The whole of [ModelTrainer.__init__] that builds state: the table,
    the split, then the network. *)
Definition ModelTrainer_init (w : nat -> nat -> nat -> Q)
    (shuffle : list nat -> list nat) (df : DataFrame)
  : option (ModelTrainer * Model) :=
  self ← init shuffle df;
  sizes ← categorical_embedding_sizes self;
  num ← numeric_matrix self;
  model ← Model_init w sizes (shape1 num) 3 [200; 100; 50] (4 # 10);
  Some (self, model).

Section TrainModel.
Variable state : Type.
Variable loss : Type.

(** The forward pass over the training set with its loss, and the
    optimiser step ([zero_grad], [backward], [step]): both are torch's,
    and either may raise. *)
Variable forward_loss : state -> option (loss * state).
Variable optimizer_step : loss -> state -> option state.

(** A line written by [train_model]: the epoch, the loss, and the number
    of decimals of the format. *)
Inductive output :=
| Printed (epoch : Z) (single_loss : loss) (decimals : nat).

(** The loop [for i in range(epochs)].  [single_loss] is [None] while it
    still holds the [dict()] it starts with.  Returns the lines written
    and, unless something raised, the state, the last loss and the
    recorded losses. *)
Fixpoint train_loop (range : list Z) (st : state) (single_loss : option loss)
    (aggregated_losses : list loss) (out : list output)
  : list output * option (state * option loss * list loss) :=
  match range with
  | [] => (out, Some (st, single_loss, aggregated_losses))
  | i :: range' =>
      let i := i + 1 in
      match forward_loss st with
      | None => (out, None)
      | Some (l, st) =>
          let aggregated_losses := aggregated_losses ++ [l] in
          let out := if i mod 25 =? 1 then out ++ [Printed i l 8] else out in
          match optimizer_step l st with
          | None => (out, None)
          | Some st => train_loop range' st (Some l) aggregated_losses out
          end
      end
  end.

(** [range(epochs)]. *)
Definition py_range (n : Z) : list Z := map Z.of_nat (seq 0 (Z.to_nat n)).

(** [train_model] up to its last [print] (the plot follows).  After the
    loop [single_loss.item()] raises when [single_loss] is still the
    [dict()]. *)
Definition train_model (epochs : Z) (st : state)
  : list output * option (state * list loss) :=
  match train_loop (py_range epochs) st None [] [] with
  | (out, None) => (out, None)
  | (out, Some (st, None, _)) => (out, None)
  | (out, Some (st, Some l, aggregated_losses)) =>
      (out ++ [Printed epochs l 10], Some (st, aggregated_losses))
  end.
End TrainModel.

Arguments Printed {loss} epoch single_loss decimals.
Arguments train_loop {state loss} forward_loss optimizer_step range st
  single_loss aggregated_losses out.
Arguments train_model {state loss} forward_loss optimizer_step epochs st.

End Network.

(** * Properties *)

(** *** Facts about the primitives *)

Section Primitives.
Context {A : Type}.
Implicit Types l : list A.

Lemma py_int_nonneg (x : Q) : (0 <= x)%Q -> py_int x = Qfloor x.
Proof.
  destruct x as [n d]. unfold Qle, py_int, Qfloor. simpl. intros Hn.
  apply Z.quot_div_nonneg; lia.
Qed.

Lemma py_slice_to_nonneg l (k : Z) :
  0 <= k -> py_slice_to l k = take (Z.to_nat k) l.
Proof.
  intros Hk. unfold py_slice_to.
  destruct (Z.ltb_spec k 0) as [Hlt|_]; [lia | reflexivity].
Qed.

(** Reading a list at consecutive positions gives a segment of it. *)
Lemma omap_lookup_seq l (a m : nat) :
  (a + m <= length l)%nat ->
  omap (fun i => l !! i) (seq a m) = take m (drop a l).
Proof.
  revert a. induction m as [|m IH]; intros a Hlen; simpl.
  - reflexivity.
  - destruct (lookup_lt_is_Some_2 l a) as [x Hx]; [lia|].
    rewrite Hx, (drop_S l x a Hx). simpl. f_equal.
    apply IH. lia.
Qed.

Lemma omap_lookup_total {B} (f : A -> option B) l (j : nat) :
  Forall (fun y => is_Some (f y)) l ->
  omap f l !! j = l !! j ≫= f.
Proof.
  intros Hall. revert j. induction Hall as [|y l [z Hz] _ IH]; intros j.
  - reflexivity.
  - simpl. rewrite Hz. destruct j as [|j]; simpl; [now rewrite Hz | apply IH].
Qed.

Lemma length_omap_total {B} (f : A -> option B) l :
  Forall (fun y => is_Some (f y)) l -> length (omap f l) = length l.
Proof.
  induction 1 as [|y l [z Hz] _ IH]; simpl; [reflexivity|].
  rewrite Hz. simpl. f_equal. exact IH.
Qed.

Lemma np_stack0_Some l : l <> [] -> np_stack0 l = Some l.
Proof. destruct l; [congruence | reflexivity]. Qed.

Lemma mapM_take {B} (f : A -> option B) l (k : list B) (n : nat) :
  mapM f l = Some k -> mapM f (take n l) = Some (take n k).
Proof.
  rewrite !mapM_Some. apply Forall2_take.
Qed.

Lemma mapM_drop {B} (f : A -> option B) l (k : list B) (n : nat) :
  mapM f l = Some k -> mapM f (drop n l) = Some (drop n k).
Proof.
  rewrite !mapM_Some. apply Forall2_drop.
Qed.
End Primitives.

Lemma filter_seq_prefix (k n : nat) :
  (k <= n)%nat ->
  filter (fun i => i ∈ seq 0 k) (seq 0 n) = seq 0 k
  /\ filter (fun i => i ∉ seq 0 k) (seq 0 n) = seq k (n - k).
Proof.
  intros Hk. replace n with (k + (n - k))%nat at 1 2 by lia.
  rewrite seq_app, !filter_app. simpl.
  assert (Hin : forall i, i ∈ seq 0 k <-> (i < k)%nat).
  { intros i. rewrite elem_of_seq. lia. }
  assert (H1 : forall (P : nat -> Prop) `{forall i, Decision (P i)} l,
             Forall P l -> filter P l = l).
  { intros P HP l. induction 1 as [|x l Hx _ IH]; [reflexivity|].
    rewrite filter_cons_True by assumption. now rewrite IH. }
  assert (H0 : forall (P : nat -> Prop) `{forall i, Decision (P i)} l,
             Forall (fun x => ~ P x) l -> filter P l = []).
  { intros P HP l. induction 1 as [|x l Hx _ IH]; [reflexivity|].
    rewrite filter_cons_False by assumption. exact IH. }
  assert (Hlo : Forall (fun i => i ∈ seq 0 k) (seq 0 k)).
  { apply Forall_forall. tauto. }
  assert (Hhi : Forall (fun i => i ∉ seq 0 k) (seq (0 + k) (n - k))).
  { apply Forall_forall. intros i Hi. rewrite Hin.
    apply elem_of_seq in Hi. lia. }
  split.
  - rewrite (H1 _ _ _ Hlo), (H0 _ _ _ Hhi). apply app_nil_r.
  - rewrite (H1 _ _ _ Hhi), (H0 (fun i => i ∉ seq 0 k) _ (seq 0 k)).
    + reflexivity.
    + apply Forall_forall. tauto.
Qed.


(** ** The train/test split *)

Import NumericModel.

Section SplitLoop.
Variable self : ModelTrainer.
Variable emb : list (list Z).
Variable num : list (list cell).
Hypothesis Hemb : emb_matrix self = Some emb.
Hypothesis Hnum : numeric_matrix self = Some num.

(** The loop sends the rows whose index is in the training list to the
    training lists and the others to the test lists, in loop order. *)
Lemma split_loop_filter (T range : list nat) (b : buckets) :
  Forall (fun i => (i < length emb /\ i < length num
                    /\ i < length (RESULT self))%nat) range ->
  split_loop self T b range =
  Some {| new_cat_matrix_train :=
            new_cat_matrix_train b
            ++ omap (fun i => emb !! i) (filter (fun i => i ∈ T) range);
          new_cat_matrix_test :=
            new_cat_matrix_test b
            ++ omap (fun i => emb !! i) (filter (fun i => i ∉ T) range);
          new_num_matrix_train :=
            new_num_matrix_train b
            ++ omap (fun i => num !! i) (filter (fun i => i ∈ T) range);
          new_num_matrix_test :=
            new_num_matrix_test b
            ++ omap (fun i => num !! i) (filter (fun i => i ∉ T) range);
          new_result_train :=
            new_result_train b
            ++ omap (fun i => RESULT self !! i)
                    (filter (fun i => i ∈ T) range);
          new_result_test :=
            new_result_test b
            ++ omap (fun i => RESULT self !! i)
                    (filter (fun i => i ∉ T) range) |}.
Proof.
  intros Hrange. revert b.
  induction Hrange as [|i range (He & Hn & Hr) _ IH]; intros b.
  - simpl. rewrite !app_nil_r. now destruct b.
  - destruct (lookup_lt_is_Some_2 emb i He) as [ce Hce].
    destruct (lookup_lt_is_Some_2 num i Hn) as [cn Hcn].
    destruct (lookup_lt_is_Some_2 (RESULT self) i Hr) as [cr Hcr].
    simpl. unfold split_step. rewrite Hemb, Hnum. simpl.
    rewrite Hce, Hcn, Hcr. simpl.
    destruct (decide (i ∈ T)) as [Hin|Hout].
    + rewrite (bool_decide_eq_true_2 _ Hin). simpl. rewrite IH. simpl.
      rewrite (filter_cons_True (fun i => i ∈ T)) by assumption.
      rewrite (filter_cons_False (fun i => i ∉ T)) by tauto.
      simpl. rewrite Hce, Hcn, Hcr. now rewrite <- !app_assoc.
    + rewrite (bool_decide_eq_false_2 _ Hout). simpl. rewrite IH. simpl.
      rewrite (filter_cons_False (fun i => i ∈ T)) by assumption.
      rewrite (filter_cons_True (fun i => i ∉ T)) by assumption.
      simpl. rewrite Hce, Hcn, Hcr. now rewrite <- !app_assoc.
Qed.
End SplitLoop.

(** The number of training rows for a ratio between 0 and 1. *)
Lemma train_matches_bounds (ratio : Q) (n : nat) :
  (0 <= ratio <= 1)%Q ->
  let x := ((1 - ratio) * inject_Z (Z.of_nat n))%Q in
  py_int x = Qfloor x /\ 0 <= Qfloor x <= Z.of_nat n.
Proof.
  intros Hr x.
  assert (Hn : (0 <= inject_Z (Z.of_nat n))%Q).
  { change 0%Q with (inject_Z 0). rewrite <- Zle_Qle. lia. }
  assert (Hx : (0 <= x <= inject_Z (Z.of_nat n))%Q).
  { unfold x. clear x. revert Hn. generalize (inject_Z (Z.of_nat n)).
    intros q Hq. split; nra. }
  split; [apply py_int_nonneg; tauto|].
  split.
  - rewrite <- (Qfloor_Z 0). apply Qfloor_resp_le. tauto.
  - etransitivity; [apply Qfloor_resp_le, Hx|]. now rewrite Qfloor_Z.
Qed.

(** The shuffle writes to the list object [index_list]; the training
    indices were copied out of it by the slice before, so no outcome of
    the shuffle reaches the loop. *)
Lemma split_data_buckets_shuffle (shuffle shuffle' : list nat -> list nat)
    (ratio : Q) (self : ModelTrainer) :
  split_data_buckets shuffle ratio self
  = split_data_buckets shuffle' ratio self.
Proof. reflexivity. Qed.

Section SplitData.
Variable shuffle : list nat -> list nat.
Variable self : ModelTrainer.
Variable emb : list (list Z).
Variable num : list (list cell).
Hypothesis Hemb : emb_matrix self = Some emb.
Hypothesis Hnum : numeric_matrix self = Some num.
Let n := shape0 (DATA_MATRIX self).
Hypothesis Hlen_emb : length emb = n.
Hypothesis Hlen_num : length num = n.
Hypothesis Hlen_res : length (RESULT self) = n.

(** The lists of the loop for any number of training rows, from the
    length of the slice. *)
Lemma split_data_lists_slice (train_matches : Z) (k : nat) :
  py_slice_to (seq 0 n) train_matches = seq 0 k ->
  (k <= n)%nat ->
  split_data_lists shuffle train_matches self =
  Some {| new_cat_matrix_train := take k emb;
          new_cat_matrix_test := drop k emb;
          new_num_matrix_train := take k num;
          new_num_matrix_test := drop k num;
          new_result_train := take k (RESULT self);
          new_result_test := drop k (RESULT self) |}.
Proof.
  intros Hslice Hk.
  unfold split_data_lists. fold n. cbn [alloc deref]. simpl.
  unfold deref. simpl. rewrite Hslice.
  rewrite (split_loop_filter self emb num Hemb Hnum).
  - destruct (filter_seq_prefix k n Hk) as [-> ->]. simpl.
    rewrite !omap_lookup_seq by lia.
    rewrite !drop_0.
    rewrite !(take_ge (drop k _)) by (rewrite length_drop; lia).
    reflexivity.
  - apply Forall_forall. intros i Hi. apply elem_of_seq in Hi. lia.
Qed.

(** Whatever the number of training rows, the slice is a prefix of
    the indices. *)
Lemma split_data_lists_any (train_matches : Z) :
  let k := length (py_slice_to (seq 0 n) train_matches) in
  (k <= n)%nat /\
  split_data_lists shuffle train_matches self =
  Some {| new_cat_matrix_train := take k emb;
          new_cat_matrix_test := drop k emb;
          new_num_matrix_train := take k num;
          new_num_matrix_test := drop k num;
          new_result_train := take k (RESULT self);
          new_result_test := drop k (RESULT self) |}.
Proof.
  intros k.
  assert (Hslice : py_slice_to (seq 0 n) train_matches = seq 0 k
                   /\ (k <= n)%nat).
  { unfold k, py_slice_to.
    destruct (train_matches <? 0);
      rewrite take_seq, !length_seq; split; (reflexivity || lia). }
  destruct Hslice as [Hslice Hk]. split; [exact Hk|].
  apply split_data_lists_slice; assumption.
Qed.

(** A number of training rows within the table: the slice is a
    prefix of that length. *)
Lemma split_data_lists_prefix (train_matches : Z) :
  0 <= train_matches <= Z.of_nat n ->
  let k := Z.to_nat train_matches in
  split_data_lists shuffle train_matches self =
  Some {| new_cat_matrix_train := take k emb;
          new_cat_matrix_test := drop k emb;
          new_num_matrix_train := take k num;
          new_num_matrix_test := drop k num;
          new_result_train := take k (RESULT self);
          new_result_test := drop k (RESULT self) |}.
Proof.
  intros Hk k. apply split_data_lists_slice; [|unfold k; lia].
  rewrite py_slice_to_nonneg by lia. fold k.
  rewrite take_seq, Nat.min_l by (unfold k; lia). reflexivity.
Qed.

(** A negative number of training rows: the slice counts from the
    end. *)
Lemma split_data_lists_from_end (t : Z) :
  1 <= t <= Z.of_nat n ->
  let k := (n - Z.to_nat t)%nat in
  split_data_lists shuffle (- t) self =
  Some {| new_cat_matrix_train := take k emb;
          new_cat_matrix_test := drop k emb;
          new_num_matrix_train := take k num;
          new_num_matrix_test := drop k num;
          new_result_train := take k (RESULT self);
          new_result_test := drop k (RESULT self) |}.
Proof.
  intros Ht k. apply split_data_lists_slice; [|unfold k; lia].
  unfold py_slice_to.
  destruct (Z.ltb_spec (- t) 0) as [_|Hge]; [|lia].
  rewrite length_seq.
  replace (Z.to_nat (Z.of_nat n + - t)) with k by (unfold k; lia).
  rewrite take_seq, Nat.min_l by (unfold k; lia). reflexivity.
Qed.

Lemma split_data_buckets_prefix (ratio : Q) :
  (0 <= ratio <= 1)%Q ->
  let k := Z.to_nat (Qfloor ((1 - ratio) * inject_Z (Z.of_nat n))) in
  (k <= n)%nat /\
  split_data_buckets shuffle ratio self =
  Some {| new_cat_matrix_train := take k emb;
          new_cat_matrix_test := drop k emb;
          new_num_matrix_train := take k num;
          new_num_matrix_test := drop k num;
          new_result_train := take k (RESULT self);
          new_result_test := drop k (RESULT self) |}.
Proof.
  intros Hr k.
  pose proof (train_matches_bounds ratio n Hr) as Hb. cbv zeta in Hb.
  destruct Hb as (Hint & Hlo & Hhi).
  assert (Hk : (k <= n)%nat) by (unfold k; lia).
  split; [exact Hk|].
  unfold split_data_buckets, split_data_lists. fold n. cbn [alloc deref]. simpl.
  rewrite Hint, py_slice_to_nonneg by exact Hlo. fold k.
  unfold deref. simpl. rewrite take_seq, Nat.min_l by exact Hk.
  rewrite (split_loop_filter self emb num Hemb Hnum).
  - destruct (filter_seq_prefix k n Hk) as [-> ->]. simpl.
    rewrite !omap_lookup_seq by lia.
    rewrite !drop_0.
    rewrite !(take_ge (drop k _)) by (rewrite length_drop; lia).
    reflexivity.
  - apply Forall_forall. intros i Hi. apply elem_of_seq in Hi. lia.
Qed.
End SplitData.

Section SplitResult.
Variable shuffle : list nat -> list nat.
Variable self : ModelTrainer.
Variable emb : list (list Z).
Variable num : list (list cell).
Variable numf : list (list Q).
Variable res : list Z.
Hypothesis Hemb : emb_matrix self = Some emb.
Hypothesis Hnum : numeric_matrix self = Some num.
Let n := shape0 (DATA_MATRIX self).
Hypothesis Hlen_emb : length emb = n.
Hypothesis Hlen_num : length num = n.
Hypothesis Hlen_res : length (RESULT self) = n.
Hypothesis Hnumf : tensor_float num = Some numf.
Hypothesis Hres : mapM cell_int64 (RESULT self) = Some res.

(** With a row on each side, the stacking succeeds and the six tensors
    are the two segments of each of the three arrays. *)
Lemma split_data_tensors (ratio : Q) :
  (0 <= ratio <= 1)%Q ->
  let k := Z.to_nat (Qfloor ((1 - ratio) * inject_Z (Z.of_nat n))) in
  (0 < k < n)%nat ->
  split_data shuffle ratio self =
  Some {| DATA_MATRIX := DATA_MATRIX self;
          RESULT := RESULT self;
          emb_matrix := emb_matrix self;
          numeric_matrix := numeric_matrix self;
          categorical_embedding_sizes := categorical_embedding_sizes self;
          cat_train := Some (take k emb);
          cat_test := Some (drop k emb);
          num_train := Some (take k numf);
          num_test := Some (drop k numf);
          result_train := Some (take k res);
          result_test := Some (drop k res) |}.
Proof.
  intros Hr k Hk.
  destruct (split_data_buckets_prefix shuffle self emb num Hemb Hnum
              Hlen_emb Hlen_num Hlen_res ratio Hr) as [_ Hb].
  fold n k in Hb. unfold split_data, split_data_assign. rewrite Hb. simpl.
  assert (Hne : forall {A} (l : list A),
             length l = n -> take k l <> [] /\ drop k l <> []).
  { intros A l Hl. split; intros H0; apply (f_equal length) in H0;
      rewrite ?length_take, ?length_drop in H0; simpl in H0; lia. }
  rewrite !np_stack0_Some by (apply Hne; assumption). simpl.
  unfold tensor_float in *.
  rewrite (mapM_take _ _ _ k Hnumf), (mapM_drop _ _ _ k Hnumf). simpl.
  rewrite (mapM_take _ _ _ k Hres), (mapM_drop _ _ _ k Hres). reflexivity.
Qed.

(** With an empty side, [np.stack] raises and nothing is assigned. *)
Lemma split_data_empty_side (ratio : Q) :
  (0 <= ratio <= 1)%Q ->
  let k := Z.to_nat (Qfloor ((1 - ratio) * inject_Z (Z.of_nat n))) in
  (k = 0 \/ k = n)%nat ->
  split_data shuffle ratio self = None.
Proof.
  intros Hr k Hk.
  destruct (split_data_buckets_prefix shuffle self emb num Hemb Hnum
              Hlen_emb Hlen_num Hlen_res ratio Hr) as [_ Hb].
  fold n k in Hb. unfold split_data, split_data_assign. rewrite Hb. simpl.
  destruct Hk as [-> | ->].
  - reflexivity.
  - rewrite (drop_ge emb n) by lia.
    now destruct (np_stack0 (take n emb)).
Qed.
End SplitResult.

(** What binary64 gives for some ratios and numbers of rows. *)
Lemma float_train_matches_values :
  float_train_matches (Binary64.py_float 2 10) 100 = Some 80
  /\ float_train_matches (Binary64.py_float 2 10) 5 = Some 4
  /\ float_train_matches (Binary64.py_float 5 10) 7 = Some 3
  /\ float_train_matches (Binary64.py_float 3 10) 90 = Some 62
  /\ float_train_matches (Binary64.py_float 8 10) 5 = Some 0
  /\ float_train_matches (Binary64.py_float 12 10) 5 = Some 0
  /\ float_train_matches (Binary64.py_float 15 10) 5 = Some (-2).
Proof. repeat split; vm_compute; reflexivity. Qed.

Lemma default_ratio_count_checked :
  forallb (fun n =>
             match float_train_matches (Binary64.py_float 2 10) n with
             | Some k => k =? 8 * Z.of_nat n / 10
             | None => false
             end) (seq 0 (Z.to_nat 5001)) = true.
Proof. vm_compute. reflexivity. Qed.

(** At the default ratio binary64 and the exact product give the same
    number of training rows, for every table of up to 5000 rows. *)
Lemma default_ratio_count (n : nat) :
  Z.of_nat n <= 5000 ->
  float_train_matches (Binary64.py_float 2 10) n
  = Some (py_int ((1 - (2 # 10)) * inject_Z (Z.of_nat n))).
Proof.
  intros Hn.
  assert (Hexact : py_int ((1 - (2 # 10)) * inject_Z (Z.of_nat n))
                   = 8 * Z.of_nat n / 10).
  { destruct (train_matches_bounds (2 # 10) n) as [-> _];
      [split; discriminate|].
    unfold Qfloor, Qmult, inject_Z. reflexivity. }
  rewrite Hexact.
  pose proof default_ratio_count_checked as Hall.
  rewrite forallb_forall in Hall.
  specialize (Hall n ltac:(apply in_seq; lia)). cbv beta in Hall.
  destruct (float_train_matches (Binary64.py_float 2 10) n) as [k|];
    [|discriminate].
  apply Z.eqb_eq in Hall. now rewrite Hall.
Qed.

(** C1 as stated fails: at ratio 0.3 on a table of 90 rows
    floor((1 - 0.3) * 90) is 63 (for the decimal 0.3 and for the float
    nearest to it), while the program computes 1 - 0.3 and the product
    in binary64, gets 62.99999999999999 and truncates it: the training
    lists hold the first 62 rows and row 62 is the first test row. *)
Lemma split_data_rounded_count :
  let rows := map Z.of_nat (seq 0 90) in
  let self := example_trainer rows rows rows in
  let ratio := Binary64.py_float 3 10 in
  shape0 (DATA_MATRIX self) = 90%nat
  /\ Binary64.float_to_Q ratio
     = Some (5404319552844595 # 18014398509481984)%Q
  /\ Qfloor ((1 - (3 # 10)) * inject_Z 90) = 63
  /\ Qfloor ((1 - (5404319552844595 # 18014398509481984)) * inject_Z 90) = 63
  /\ float_train_matches ratio 90 = Some 62
  /\ (length <$> (new_cat_matrix_train
                    <$> split_data_buckets_f64 (@rev nat) ratio self))
     = Some 62%nat
  /\ (length <$> (new_cat_matrix_test
                    <$> split_data_buckets_f64 (@rev nat) ratio self))
     = Some 28%nat
  /\ (new_result_test <$> split_data_buckets_f64 (@rev nat) ratio self)
       ≫= (fun l => l !! 0%nat)
     = Some (Num (inject_Z 62)).
Proof.
  intros rows self ratio.
  repeat split; vm_compute; reflexivity.
Qed.

(** C1. For every table, every ratio and every outcome of the random
    shuffle, [split_data] puts exactly the first k rows, in their
    original order, in the training lists and all remaining rows in the
    test lists, where k is the length of the slice
    [index_list[:train_matches]] and [train_matches] is
    [int((1 - ratio) * n)] as binary64 arithmetic gives it: k is
    [train_matches] when that lies between 0 and n (80 for ratio 0.2
    and 100 rows).  The shuffle inside [split_data] has no effect on the
    split: any two outcomes of it give the same lists and the same
    result of the call. *)
Theorem split_data_first_rows (shuffle shuffle' : list nat -> list nat)
    (ratio : PrimFloat.float) (self : ModelTrainer)
    (emb : list (list Z)) (num : list (list cell)) (train_matches : Z) :
  emb_matrix self = Some emb ->
  numeric_matrix self = Some num ->
  length emb = shape0 (DATA_MATRIX self) ->
  length num = shape0 (DATA_MATRIX self) ->
  length (RESULT self) = shape0 (DATA_MATRIX self) ->
  let n := shape0 (DATA_MATRIX self) in
  float_train_matches ratio n = Some train_matches ->
  let k := length (py_slice_to (seq 0 n) train_matches) in
  split_data_buckets_f64 shuffle ratio self =
    Some {| new_cat_matrix_train := take k emb;
            new_cat_matrix_test := drop k emb;
            new_num_matrix_train := take k num;
            new_num_matrix_test := drop k num;
            new_result_train := take k (RESULT self);
            new_result_test := drop k (RESULT self) |}
  /\ (k <= n)%nat
  /\ (0 <= train_matches <= Z.of_nat n -> k = Z.to_nat train_matches)
  /\ (forall i : nat,
        (i < k)%nat -> take k emb !! i = emb !! i)
  /\ (forall i : nat, drop k emb !! i = emb !! (k + i)%nat)
  /\ split_data_buckets_f64 shuffle' ratio self
     = split_data_buckets_f64 shuffle ratio self
  /\ split_data_f64 shuffle' ratio self = split_data_f64 shuffle ratio self
  /\ float_train_matches (Binary64.py_float 2 10) 100 = Some 80.
Proof.
  intros Hemb Hnum Hle Hln Hlr n Hcount k.
  destruct (split_data_lists_any shuffle self emb num Hemb Hnum
              Hle Hln Hlr train_matches) as [Hk Hlists].
  fold n in Hk, Hlists. fold k in Hk, Hlists.
  split; [|split; [exact Hk|split; [|split; [|split; [|split; [|split]]]]]].
  - unfold split_data_buckets_f64. fold n. rewrite Hcount.
    cbn [mbind option_bind]. exact Hlists.
  - intros Hrange. unfold k.
    rewrite py_slice_to_nonneg by lia.
    rewrite length_take, length_seq. lia.
  - intros i Hi. rewrite lookup_take. now rewrite decide_True.
  - intros i. apply lookup_drop.
  - reflexivity.
  - reflexivity.
  - vm_compute. reflexivity.
Qed.

(** C5. With ratio 0.2 on a table of [n] rows the training lists hold
    exactly floor(0.8 * n) rows and the test lists the other rows (80 and
    20 for 100 rows); the training rows followed by the test rows are the
    original rows, so every row is in exactly one of the two, none twice
    and none left out.  From two rows on (and with numbers in the numeric
    and label arrays), the stacked tensors assigned by [split_data] are
    those same two segments. *)
Theorem split_data_default_ratio (shuffle : list nat -> list nat)
    (self : ModelTrainer)
    (emb : list (list Z)) (num : list (list cell))
    (numf : list (list Q)) (res : list Z) :
  emb_matrix self = Some emb ->
  numeric_matrix self = Some num ->
  length emb = shape0 (DATA_MATRIX self) ->
  length num = shape0 (DATA_MATRIX self) ->
  length (RESULT self) = shape0 (DATA_MATRIX self) ->
  let n := shape0 (DATA_MATRIX self) in
  let k := Z.to_nat (Qfloor ((8 # 10) * inject_Z (Z.of_nat n))) in
  (exists b : buckets,
      split_data_buckets shuffle (2 # 10) self = Some b
      /\ length (new_cat_matrix_train b) = k
      /\ length (new_num_matrix_train b) = k
      /\ length (new_result_train b) = k
      /\ length (new_cat_matrix_test b) = (n - k)%nat
      /\ length (new_num_matrix_test b) = (n - k)%nat
      /\ length (new_result_test b) = (n - k)%nat
      /\ new_cat_matrix_train b ++ new_cat_matrix_test b = emb
      /\ new_num_matrix_train b ++ new_num_matrix_test b = num
      /\ new_result_train b ++ new_result_test b = RESULT self)
  /\ (n = 100%nat -> k = 80%nat /\ (n - k)%nat = 20%nat)
  /\ ((2 <= n)%nat ->
      tensor_float num = Some numf ->
      mapM cell_int64 (RESULT self) = Some res ->
      split_data shuffle (2 # 10) self =
      Some {| DATA_MATRIX := DATA_MATRIX self;
              RESULT := RESULT self;
              emb_matrix := emb_matrix self;
              numeric_matrix := numeric_matrix self;
              categorical_embedding_sizes := categorical_embedding_sizes self;
              cat_train := Some (take k emb);
              cat_test := Some (drop k emb);
              num_train := Some (take k numf);
              num_test := Some (drop k numf);
              result_train := Some (take k res);
              result_test := Some (drop k res) |}).
Proof.
  intros Hemb Hnum Hle Hln Hlr n k.
  assert (Hr : (0 <= 2 # 10 <= 1)%Q) by (split; discriminate).
  destruct (split_data_buckets_prefix shuffle self emb num Hemb Hnum
              Hle Hln Hlr (2 # 10) Hr) as [Hk Hb].
  change (Z.to_nat (Qfloor ((1 - (2 # 10)) * inject_Z (Z.of_nat
            (shape0 (DATA_MATRIX self)))))) with k in Hk, Hb.
  fold n in Hle, Hln, Hlr, Hk.
  assert (Hkz : k = Z.to_nat (8 * Z.of_nat n / 10)).
  { unfold k, Qfloor, Qmult, inject_Z. reflexivity. }
  split; [|split].
  - eexists. split; [exact Hb|]. simpl.
    rewrite !length_take, !length_drop, !take_drop.
    repeat split; lia.
  - intros Hn. rewrite Hkz, Hn. split; reflexivity.
  - intros Hn Hnumf Hres.
    apply (split_data_tensors shuffle self emb num numf res Hemb Hnum
             Hle Hln Hlr Hnumf Hres (2 # 10) Hr).
    change (Z.to_nat (Qfloor ((1 - (2 # 10)) * inject_Z (Z.of_nat
              (shape0 (DATA_MATRIX self)))))) with k.
    fold n. rewrite Hkz.
    pose proof (Z.div_mod (8 * Z.of_nat n) 10 ltac:(lia)).
    pose proof (Z.mod_pos_bound (8 * Z.of_nat n) 10 ltac:(lia)).
    lia.
Qed.

Lemma split_data_first_rows_witness :
  let self := example_trainer [7; 3; 7; 9; 3] [1; 2; 3; 4; 5] [0; 1; 2; 1; 0] in
  let ratio := Binary64.py_float 2 10 in
  length (RESULT self) = shape0 (DATA_MATRIX self)
  /\ float_train_matches ratio (shape0 (DATA_MATRIX self)) = Some 4
  /\ new_result_train <$> split_data_buckets_f64 (@rev nat) ratio self
     = Some [Num 0; Num 1; Num 2; Num 1]
  /\ new_result_test <$> split_data_buckets_f64 (@rev nat) ratio self
     = Some [Num 0].
Proof.
  intros self ratio.
  assert (Hcount : float_train_matches ratio (shape0 (DATA_MATRIX self))
                   = Some 4) by (vm_compute; reflexivity).
  pose proof (split_data_first_rows (@rev nat) id ratio self
                (default [] (emb_matrix self))
                (default [] (numeric_matrix self)) 4
                eq_refl eq_refl eq_refl eq_refl eq_refl Hcount) as H.
  cbv zeta in H. destruct H as (H & _).
  split; [reflexivity|]. split; [exact Hcount|].
  rewrite H. split; reflexivity.
Defined.

Lemma split_data_default_ratio_witness :
  let self := example_trainer [7; 3; 7; 9; 3] [1; 2; 3; 4; 5] [0; 1; 2; 1; 0] in
  tensor_float (default [] (numeric_matrix self))
  = Some [[1%Q]; [2%Q]; [3%Q]; [4%Q]; [5%Q]]
  /\ mapM cell_int64 (RESULT self) = Some [0; 1; 2; 1; 0]
  /\ (2 <= shape0 (DATA_MATRIX self))%nat
  /\ (split_data (@rev nat) (2 # 10) self ≫= result_train) = Some [0; 1; 2; 1]
  /\ (split_data (@rev nat) (2 # 10) self ≫= result_test) = Some [0].
Proof.
  intros self.
  pose proof (split_data_default_ratio (@rev nat) self
                (default [] (emb_matrix self))
                (default [] (numeric_matrix self))
                [[1%Q]; [2%Q]; [3%Q]; [4%Q]; [5%Q]] [0; 1; 2; 1; 0]
                eq_refl eq_refl eq_refl eq_refl eq_refl) as H.
  cbv zeta in H. destruct H as (_ & _ & H).
  assert (Hn : (2 <= shape0 (DATA_MATRIX self))%nat) by (vm_compute; lia).
  split; [reflexivity|]. split; [reflexivity|]. split; [exact Hn|].
  rewrite (H Hn eq_refl eq_refl). split; reflexivity.
Defined.

(** ** Feature engineering *)

(** Entry [(i, j)] of a column-wise stack is entry [i] of column [j]. *)
Lemma np_stack1_lookup {A} (cols : list (list A)) (m : list (list A))
    (j i : nat) (col : list A) (x : A) :
  np_stack1 cols = Some m ->
  cols !! j = Some col -> col !! i = Some x ->
  exists row, m !! i = Some row /\ row !! j = Some x.
Proof.
  intros Hm Hj Hi. destruct cols as [|c cs]; [discriminate|].
  simpl in Hm.
  destruct (forallb _ cs) eqn:Hall; [|discriminate].
  injection Hm as <-.
  assert (Hlens : Forall (fun c' => length c' = length c) (c :: cs)).
  { constructor; [reflexivity|].
    apply Forall_forall. intros c' Hc'.
    rewrite forallb_forall in Hall.
    apply Nat.eqb_eq, Hall. now apply list_elem_of_In. }
  assert (Hlt : (i < length c)%nat).
  { rewrite Forall_forall in Hlens.
    rewrite <- (Hlens col) by (eapply list_elem_of_lookup_2; eassumption).
    eapply lookup_lt_Some; eassumption. }
  exists (omap (fun col => col !! i) (c :: cs)). split.
  - rewrite list_lookup_fmap, lookup_seq_lt by assumption. reflexivity.
  - rewrite omap_lookup_total.
    + rewrite Hj. exact Hi.
    + eapply Forall_impl; [exact Hlens|]. intros c' Hc'. simpl in Hc'.
      apply lookup_lt_is_Some_2. lia.
Qed.

(** Every row of a column-wise stack has one entry per column. *)
Lemma np_stack1_row_length {A} (cols : list (list A)) (m : list (list A)) :
  np_stack1 cols = Some m ->
  Forall (fun row => length row = length cols) m.
Proof.
  intros Hm. destruct cols as [|c cs]; [discriminate|].
  simpl in Hm.
  destruct (forallb _ cs) eqn:Hall; [|discriminate].
  injection Hm as <-.
  apply Forall_fmap, Forall_forall. intros i Hi. unfold compose.
  apply elem_of_seq in Hi.
  apply (length_omap_total (fun col : list A => col !! i) (c :: cs)).
  constructor.
  - apply lookup_lt_is_Some_2. lia.
  - apply Forall_forall. intros c' Hc'. rewrite forallb_forall in Hall.
    apply lookup_lt_is_Some_2.
    rewrite (proj1 (Nat.eqb_eq _ _) (Hall c' (proj1 (list_elem_of_In _ _) Hc'))).
    lia.
Qed.

(** What a successful run of [define_learn_data] went through. *)
Lemma define_learn_data_inv (self self' : ModelTrainer) :
  define_learn_data self = Some self' ->
  exists emb_cols emb0 emb numeric sizes,
    mapM (fun col => column_values <$> df_get (DATA_MATRIX self) col)
         CATEGORIES = Some emb_cols
    /\ np_stack1 emb_cols = Some emb0
    /\ tensor_int64 emb0 = Some emb
    /\ convert_categories (DATA_MATRIX self) CATEGORIES
       = Some (DATA_MATRIX self')
    /\ mapM (fun column =>
               c ← df_get (DATA_MATRIX self') column;
               cats ← cat_categories c;
               Some (Z.of_nat (length cats)))
            CATEGORIES = Some sizes
    /\ emb_matrix self' = Some emb
    /\ numeric_matrix self' = Some numeric
    /\ RESULT self' = RESULT self
    /\ categorical_embedding_sizes self'
       = Some (map (fun col_size => (col_size, embedding_dim col_size)) sizes).
Proof.
  unfold define_learn_data. intros H.
  repeat match type of H with
         | (?m ≫= _) = Some _ =>
             let E := fresh "E" in
             destruct m eqn:E; [|discriminate];
             cbn [mbind option_bind] in H
         end.
  injection H as <-.
  cbn [DATA_MATRIX emb_matrix numeric_matrix RESULT
       categorical_embedding_sizes].
  do 5 eexists. repeat split; eassumption.
Qed.

Lemma dict_get_set {V} (cols : dict V) (k k' : string) (c : V) :
  dict_get (dict_set cols k c) k'
  = if String.eqb k k' then Some c else dict_get cols k'.
Proof.
  induction cols as [|[k0 c0] cols IH]; simpl.
  - destruct (String.eqb k k'); reflexivity.
  - destruct (String.eqb k0 k) eqn:E0; simpl.
    + apply String.eqb_eq in E0 as ->.
      destruct (String.eqb k k'); reflexivity.
    + rewrite IH. destruct (String.eqb k0 k') eqn:E1; [|reflexivity].
      apply String.eqb_eq in E1 as ->.
      now rewrite String.eqb_sym, E0.
Qed.

Lemma df_get_set (df : DataFrame) (k k' : string) (c : column) :
  df_get (df_set df k c) k'
  = if String.eqb k k' then Some c else df_get df k'.
Proof. apply dict_get_set. Qed.

(** The conversion loop replaces each named column by its categorical
    form and leaves the other columns alone. *)
Lemma convert_categories_get (cats : list string) (df df' : DataFrame)
    (name : string) :
  NoDup cats ->
  convert_categories df cats = Some df' ->
  df_get df' name
  = if bool_decide (name ∈ cats) then astype_category <$> df_get df name
    else df_get df name.
Proof.
  intros Hnd. revert df. induction Hnd as [|k cats Hk Hnd IH]; intros df H.
  - simpl in H. injection H as <-. reflexivity.
  - simpl in H. destruct (df_get df k) as [c|] eqn:Ek; [|discriminate].
    simpl in H. rewrite (IH _ H), !df_get_set.
    destruct (String.eqb k name) eqn:E.
    + apply String.eqb_eq in E as <-.
      rewrite (bool_decide_eq_false_2 _ Hk).
      rewrite bool_decide_eq_true_2 by (apply list_elem_of_here).
      now rewrite Ek.
    + apply String.eqb_neq in E.
      destruct (decide (name ∈ cats)) as [Hin|Hout].
      * rewrite (bool_decide_eq_true_2 _ Hin).
        rewrite bool_decide_eq_true_2 by (now apply list_elem_of_further).
        reflexivity.
      * rewrite (bool_decide_eq_false_2 _ Hout).
        rewrite bool_decide_eq_false_2; [reflexivity|].
        rewrite elem_of_cons. intros [->|?]; tauto.
Qed.

Lemma CATEGORIES_NoDup : NoDup CATEGORIES.
Proof. apply (bool_decide_unpack (NoDup CATEGORIES)). vm_compute. exact I. Qed.

Lemma dict_get_elem_of {V} (d : dict V) (k : string) (v : V) :
  dict_get d k = Some v -> (k, v) ∈ d.
Proof.
  induction d as [|[k0 v0] d IH]; simpl; [discriminate|].
  destruct (String.eqb k0 k) eqn:E.
  - apply String.eqb_eq in E as ->. intros [= ->]. left.
  - intros H. right. now apply IH.
Qed.

Lemma dict_get_is_Some {V} (d : dict V) (k : string) :
  k ∈ dict_keys d -> is_Some (dict_get d k).
Proof.
  induction d as [|[k0 v0] d IH]; simpl; intros Hk.
  - apply elem_of_nil in Hk. contradiction.
  - destruct (String.eqb k0 k) eqn:E; [eauto|].
    apply elem_of_cons in Hk as [->|Hk]; [|now apply IH].
    simpl in E. now rewrite String.eqb_refl in E.
Qed.

(** Stacking columns of one length succeeds, gives that many rows, and
    keeps what holds of every cell. *)
Lemma np_stack1_total {A} (P : A -> Prop) (cols : list (list A)) (n : nat) :
  cols <> [] ->
  Forall (fun c => length c = n) cols ->
  Forall (Forall P) cols ->
  exists m, np_stack1 cols = Some m /\ length m = n /\ Forall (Forall P) m.
Proof.
  intros Hne Hlen HP. destruct cols as [|c cs]; [congruence|].
  unfold np_stack1.
  assert (Hall : forallb (fun c' => Nat.eqb (length c') (length c)) cs = true).
  { apply forallb_forall. intros c' Hc'. apply Nat.eqb_eq.
    rewrite Forall_forall in Hlen.
    rewrite (Hlen c') by (right; now apply list_elem_of_In).
    symmetry. apply Hlen. left. }
  rewrite Hall. eexists. split; [reflexivity|]. split.
  - rewrite length_map, length_seq. rewrite Forall_forall in Hlen.
    apply Hlen. left.
  - apply Forall_fmap, Forall_forall. intros i _. unfold compose.
    apply Forall_forall. intros x Hx.
    apply list_elem_of_omap in Hx as (col & Hcol & Hx).
    rewrite Forall_forall in HP. specialize (HP col Hcol).
    rewrite Forall_forall in HP. apply HP.
    eapply list_elem_of_lookup_2; eassumption.
Qed.

Lemma tensor_int64_total (m : list (list cell)) :
  Forall (Forall is_num) m ->
  exists t, tensor_int64 m = Some t /\ length t = length m.
Proof.
  intros Hm.
  assert (H : is_Some (tensor_int64 m)).
  { apply mapM_is_Some_2. eapply Forall_impl; [exact Hm|].
    intros row Hrow. simpl. apply mapM_is_Some_2.
    eapply Forall_impl; [exact Hrow|]. intros [q|s] Hc; simpl; [eauto|].
    contradiction. }
  destruct H as [t Ht]. exists t. split; [exact Ht|].
  symmetry. eapply length_mapM, Ht.
Qed.

Lemma convert_categories_total (cats : list string) (df : DataFrame) :
  Forall (fun name => is_Some (df_get df name)) cats ->
  exists df', convert_categories df cats = Some df'
              /\ index_len df' = index_len df.
Proof.
  revert df. induction cats as [|k cats IH]; intros df Hall.
  - exists df. split; reflexivity.
  - apply Forall_cons in Hall as [[c Hc] Hall]. simpl. rewrite Hc. simpl.
    destruct (IH (df_set df k (astype_category c))) as (df' & Hdf' & Hlen).
    + eapply Forall_impl; [exact Hall|]. intros name Hname. simpl.
      rewrite df_get_set. destruct (String.eqb k name); [eauto | exact Hname].
    + exists df'. split; [exact Hdf' | exact Hlen].
Qed.

(** On a well-formed table feature engineering succeeds, and the two
    matrices have one row per row of the table. *)
Lemma define_learn_data_total (self : ModelTrainer) :
  wf_frame (DATA_MATRIX self) ->
  exists (self' : ModelTrainer) (emb : list (list Z))
         (num : list (list cell)),
    define_learn_data self = Some self'
    /\ emb_matrix self' = Some emb
    /\ numeric_matrix self' = Some num
    /\ length emb = shape0 (DATA_MATRIX self')
    /\ length num = shape0 (DATA_MATRIX self')
    /\ shape0 (DATA_MATRIX self') = shape0 (DATA_MATRIX self)
    /\ RESULT self' = RESULT self
    /\ ((forall key col,
           str_in key INVALID = false -> str_in key CATEGORIES = false ->
           df_get (DATA_MATRIX self) key = Some col ->
           Forall is_num (column_values col)) ->
        Forall (Forall is_num) num).
Proof.
  intros [Hlens Hcats Hnum].
  set (df := DATA_MATRIX self) in *.
  set (Hyp := forall key col,
           str_in key INVALID = false -> str_in key CATEGORIES = false ->
           df_get df key = Some col ->
           Forall is_num (column_values col)).
  assert (Hcol_len : forall k c, df_get df k = Some c ->
                                 length (column_values c) = index_len df).
  { intros k c Hc. apply dict_get_elem_of in Hc.
    rewrite Forall_forall in Hlens. exact (Hlens (k, c) Hc). }
  (* the categorical columns *)
  assert (H1 : exists emb_cols,
             mapM (fun col => column_values <$> df_get df col) CATEGORIES
             = Some emb_cols
             /\ emb_cols <> []
             /\ Forall (fun c => length c = index_len df) emb_cols
             /\ Forall (Forall is_num) emb_cols).
  { assert (H : is_Some (mapM (fun col => column_values <$> df_get df col)
                              CATEGORIES)).
    { apply mapM_is_Some_2. eapply Forall_impl; [exact Hcats|].
      intros name (col & Hcol & _). simpl. rewrite Hcol. simpl. eauto. }
    destruct H as [emb_cols He]. exists emb_cols. split; [exact He|].
    pose proof (mapM_Some_1 _ _ _ He) as HF. split; [|split].
    - intros ->. apply Forall2_length in HF. discriminate.
    - apply Forall_forall. intros c Hc.
      apply list_elem_of_lookup in Hc as [j Hj].
      destruct (Forall2_lookup_r _ _ _ _ _ HF Hj) as (name & _ & Hget).
      destruct (df_get df name) as [col|] eqn:Hcol; [|discriminate].
      simpl in Hget. injection Hget as <-. eapply Hcol_len, Hcol.
    - apply Forall_forall. intros c Hc.
      apply list_elem_of_lookup in Hc as [j Hj].
      destruct (Forall2_lookup_r _ _ _ _ _ HF Hj) as (name & Hname & Hget).
      rewrite Forall_forall in Hcats.
      destruct (Hcats name) as (col & Hcol & Hn);
        [eapply list_elem_of_lookup_2; eassumption|].
      rewrite Hcol in Hget. simpl in Hget. now injection Hget as <-. }
  destruct H1 as (emb_cols & He & Hne & Hel & Hen).
  destruct (np_stack1_total is_num emb_cols (index_len df) Hne Hel Hen)
    as (emb0 & Hemb0 & Hl0 & Hn0).
  destruct (tensor_int64_total emb0 Hn0) as (emb & Hemb & Hlemb).
  (* the numeric columns *)
  set (num_list := filter (fun col_key => negb (str_in col_key INVALID)
                                          && negb (str_in col_key CATEGORIES)
                                          = true) (df_keys df)).
  assert (H2 : exists num_cols,
             mapM (fun col => column_values <$> df_get df col) num_list
             = Some num_cols
             /\ num_cols <> []
             /\ Forall (fun c => length c = index_len df) num_cols
             /\ Forall (Forall (fun c => Hyp -> is_num c)) num_cols).
  { assert (H : is_Some (mapM (fun col => column_values <$> df_get df col)
                              num_list)).
    { apply mapM_is_Some_2, Forall_forall. intros k Hk.
      apply list_elem_of_filter in Hk as [_ Hk].
      destruct (dict_get_is_Some _ _ Hk) as [c Hc]. simpl.
      unfold df_get. rewrite Hc. simpl. eauto. }
    destruct H as [num_cols Hn]. exists num_cols. split; [exact Hn|].
    pose proof (mapM_Some_1 _ _ _ Hn) as HF. split; [|split].
    - intros ->. apply Forall2_length in HF.
      destruct Hnum as (key & Hkey & Hi & Hc).
      assert (Hin : key ∈ num_list).
      { apply list_elem_of_filter. split; [|exact Hkey].
        now rewrite Hi, Hc. }
      destruct num_list; [apply elem_of_nil in Hin; contradiction|].
      discriminate.
    - apply Forall_forall. intros c Hc.
      apply list_elem_of_lookup in Hc as [j Hj].
      destruct (Forall2_lookup_r _ _ _ _ _ HF Hj) as (name & _ & Hget).
      destruct (df_get df name) as [col|] eqn:Hcol; [|discriminate].
      simpl in Hget. injection Hget as <-. eapply Hcol_len, Hcol.
    - apply Forall_forall. intros c Hc.
      apply list_elem_of_lookup in Hc as [j Hj].
      destruct (Forall2_lookup_r _ _ _ _ _ HF Hj) as (name & Hname & Hget).
      destruct (df_get df name) as [col|] eqn:Hcol; [|discriminate].
      simpl in Hget. injection Hget as <-.
      apply list_elem_of_lookup_2, list_elem_of_filter in Hname
        as [Hname _].
      apply andb_true_iff in Hname as [Hi Hc].
      apply negb_true_iff in Hi, Hc.
      apply Forall_forall. intros x Hx H.
      specialize (H name col Hi Hc Hcol).
      rewrite Forall_forall in H. now apply H. }
  destruct H2 as (num_cols & Hnc & Hnne & Hnl & Hnn).
  destruct (np_stack1_total (fun c => Hyp -> is_num c) num_cols
              (index_len df) Hnne Hnl Hnn)
    as (num & Hnum' & Hlnum & Hnumcells).
  (* the conversion and the sizes *)
  destruct (convert_categories_total CATEGORIES df) as (df' & Hdf' & Hidx).
  { eapply Forall_impl; [exact Hcats|]. intros name (col & Hcol & _).
    simpl. rewrite Hcol. eauto. }
  assert (H3 : is_Some (mapM (fun column =>
                                c ← df_get df' column;
                                cats ← cat_categories c;
                                Some (Z.of_nat (length cats))) CATEGORIES)).
  { apply mapM_is_Some_2, Forall_forall. intros name Hname. simpl.
    rewrite (convert_categories_get _ _ _ name CATEGORIES_NoDup Hdf').
    rewrite (bool_decide_eq_true_2 _ Hname).
    rewrite Forall_forall in Hcats.
    destruct (Hcats name Hname) as (col & Hcol & _). rewrite Hcol. simpl.
    destruct col; simpl; eauto. }
  destruct H3 as [sizes Hsizes].
  unfold define_learn_data. fold df. fold num_list.
  rewrite He. cbn [mbind option_bind]. rewrite Hemb0. cbn [mbind option_bind].
  rewrite Hemb. cbn [mbind option_bind]. rewrite Hnc.
  cbn [mbind option_bind]. rewrite Hnum'. cbn [mbind option_bind].
  rewrite Hdf'. cbn [mbind option_bind]. rewrite Hsizes.
  cbn [mbind option_bind].
  exists {| DATA_MATRIX := df'; RESULT := RESULT self;
            emb_matrix := Some emb; numeric_matrix := Some num;
            categorical_embedding_sizes :=
              Some (map (fun col_size => (col_size, embedding_dim col_size))
                        sizes);
            cat_train := cat_train self; cat_test := cat_test self;
            num_train := num_train self; num_test := num_test self;
            result_train := result_train self;
            result_test := result_test self |}, emb, num.
  split; [reflexivity|]. cbn [emb_matrix numeric_matrix DATA_MATRIX RESULT].
  split; [reflexivity|]. split; [reflexivity|].
  unfold shape0. rewrite Hidx.
  split; [congruence|]. split; [exact Hlnum|]. split; [reflexivity|].
  split; [reflexivity|].
  intros H. eapply Forall_impl; [exact Hnumcells|]. intros row Hrow.
  eapply Forall_impl; [exact Hrow|]. intros c Hc. exact (Hc H).
Qed.

(** The constructor, up to the split, on a well-formed table of two rows
    or more whose label and numeric feature columns hold numbers: it
    succeeds, and the six tensors are the first floor(0.8 n) rows and the
    remaining rows of the three arrays, whatever the shuffle does. *)
Lemma init_split (shuffle : list nat -> list nat) (df : DataFrame)
    (res_col : column) :
  wf_frame df ->
  df_get df "Result" = Some res_col ->
  Forall is_num (column_values res_col) ->
  (forall key col,
      str_in key INVALID = false -> str_in key CATEGORIES = false ->
      df_get df key = Some col -> Forall is_num (column_values col)) ->
  (2 <= shape0 df)%nat ->
  let k := Z.to_nat (Qfloor ((8 # 10) * inject_Z (Z.of_nat (shape0 df)))) in
  exists (self : ModelTrainer) (emb : list (list Z)) (numf : list (list Q))
         (res : list Z),
    init shuffle df = Some self
    /\ emb_matrix self = Some emb
    /\ length emb = shape0 df
    /\ (numeric_matrix self ≫= tensor_float) = Some numf
    /\ mapM cell_int64 (column_values res_col) = Some res
    /\ cat_train self = Some (take k emb)
    /\ cat_test self = Some (drop k emb)
    /\ num_train self = Some (take k numf)
    /\ num_test self = Some (drop k numf)
    /\ result_train self = Some (take k res)
    /\ result_test self = Some (drop k res).
Proof.
  intros Hwf Hres Hres_num Hnum_cells Hn k.
  destruct (define_learn_data_total
              (new_trainer df (column_values res_col)) Hwf)
    as (self1 & emb & num & Hdef & Hemb & Hnum & Hle & Hln & Hshape
        & Hresult & Hcells).
  simpl in Hshape, Hresult.
  specialize (Hcells Hnum_cells).
  assert (Hnf : is_Some (tensor_float num)).
  { apply mapM_is_Some_2. eapply Forall_impl; [exact Hcells|].
    intros row Hrow. simpl. apply mapM_is_Some_2.
    eapply Forall_impl; [exact Hrow|]. intros [q|s] Hc; simpl; [eauto|].
    contradiction. }
  destruct Hnf as [numf Hnumf].
  assert (Hr : is_Some (mapM cell_int64 (column_values res_col))).
  { apply mapM_is_Some_2. eapply Forall_impl; [exact Hres_num|].
    intros [q|s] Hc; simpl; [eauto | contradiction]. }
  destruct Hr as [res Hr].
  assert (Hlr : length (RESULT self1) = shape0 (DATA_MATRIX self1)).
  { rewrite Hresult, Hshape. apply dict_get_elem_of in Hres.
    destruct Hwf as [Hlens _ _]. rewrite Forall_forall in Hlens.
    exact (Hlens _ Hres). }
  assert (Hratio : (0 <= 2 # 10 <= 1)%Q) by (split; discriminate).
  pose proof (split_data_tensors shuffle self1 emb num numf res Hemb Hnum
                Hle Hln Hlr Hnumf ltac:(now rewrite Hresult)
                (2 # 10) Hratio) as Hsplit.
  cbv zeta in Hsplit. rewrite Hshape in Hsplit.
  change (Z.to_nat (Qfloor ((1 - (2 # 10)) * inject_Z (Z.of_nat (shape0 df)))))
    with k in Hsplit.
  assert (Hk : (0 < k < shape0 df)%nat).
  { assert (Hkz : k = Z.to_nat (8 * Z.of_nat (shape0 df) / 10)).
    { unfold k, Qfloor, Qmult, inject_Z. reflexivity. }
    rewrite Hkz.
    pose proof (Z.div_mod (8 * Z.of_nat (shape0 df)) 10 ltac:(lia)).
    pose proof (Z.mod_pos_bound (8 * Z.of_nat (shape0 df)) 10 ltac:(lia)).
    lia. }
  specialize (Hsplit Hk).
  eexists _, emb, numf, res. unfold init. rewrite Hres.
  cbn [fmap option_fmap option_map mbind option_bind].
  rewrite Hdef. cbn [mbind option_bind]. rewrite Hsplit.
  split; [reflexivity|]. cbn.
  rewrite Hemb, Hnum. cbn. rewrite Hnumf.
  repeat split; try reflexivity; congruence.
Qed.

(** C3. [emb_matrix] is the column-wise stack of the values the 13
    categorical columns hold when [define_learn_data] is entered, each
    cast to a 64-bit integer (13 entries a row); the table is converted
    to categories only afterwards.  So entry (i, j) of the matrix is the
    integer cast of the original value of row i in field j, and not the
    code which the conversion gives that row: in the example the first
    row of the League column holds 7, its code is 1, and the matrix
    holds 7. *)
Theorem emb_matrix_raw_values :
  (forall self self' : ModelTrainer,
      define_learn_data self = Some self' ->
      exists emb : list (list Z),
        emb_matrix self' = Some emb
        /\ Forall (fun row => length row = 13%nat) emb
        /\ (forall (j i : nat) (name : string) (col : column) (c : cell),
              CATEGORIES !! j = Some name ->
              df_get (DATA_MATRIX self) name = Some col ->
              column_values col !! i = Some c ->
              exists (row : list Z) (z : Z),
                emb !! i = Some row /\ row !! j = Some z
                /\ cell_int64 c = Some z)
        /\ (forall (name : string) (col : column),
              name ∈ CATEGORIES ->
              df_get (DATA_MATRIX self) name = Some col ->
              df_get (DATA_MATRIX self') name = Some (astype_category col)))
  /\ (exists self' : ModelTrainer,
        define_learn_data
          (new_trainer (example_frame [7; 3; 7; 9; 3] [1; 2; 3; 4; 5]
                                      [0; 1; 2; 1; 0])
                       [Num 0; Num 1; Num 2; Num 1; Num 0]) = Some self'
        /\ df_get (DATA_MATRIX self') "League"
           = Some (Categorical [Num 3; Num 7; Num 9]
                               [1; 0; 1; 2; 0]%nat)
        /\ (emb_matrix self' ≫= fun emb => emb !! 0%nat
              ≫= fun row => row !! 0%nat) = Some 7).
Proof.
  split.
  - intros self self' H.
    destruct (define_learn_data_inv self self' H)
      as (emb_cols & emb0 & emb & numeric & sizes
          & E1 & E2 & E3 & E4 & E5 & He & Hn & Hr & Hs).
    exists emb. split; [exact He|]. split; [|split].
    + pose proof (np_stack1_row_length _ _ E2) as Hrows.
      rewrite <- (length_mapM _ _ _ E1) in Hrows.
      apply mapM_Some_1 in E3. apply Forall_forall. intros row Hrow.
      apply list_elem_of_lookup in Hrow as [i Hi].
      destruct (Forall2_lookup_r _ _ _ _ _ E3 Hi) as (row0 & Hrow0 & Hcast).
      rewrite <- (length_mapM _ _ _ Hcast).
      rewrite Forall_forall in Hrows.
      apply (Hrows row0). eapply list_elem_of_lookup_2; eassumption.
    + intros j i name col c Hj Hcol Hc.
      apply mapM_Some_1 in E1.
      destruct (Forall2_lookup_l _ _ _ _ _ E1 Hj) as (vals & Hvals & Hget).
      rewrite Hcol in Hget. simpl in Hget. injection Hget as <-.
      destruct (np_stack1_lookup _ _ _ _ _ _ E2 Hvals Hc)
        as (row0 & Hrow0 & Hx).
      apply mapM_Some_1 in E3.
      destruct (Forall2_lookup_l _ _ _ _ _ E3 Hrow0) as (row & Hrow & Hcast).
      apply mapM_Some_1 in Hcast.
      destruct (Forall2_lookup_l _ _ _ _ _ Hcast Hx) as (z & Hz & Hcz).
      exists row, z. tauto.
    + intros name col Hin Hcol.
      rewrite (convert_categories_get _ _ _ name CATEGORIES_NoDup E4).
      rewrite (bool_decide_eq_true_2 _ Hin), Hcol. reflexivity.
  - eexists. split; [vm_compute; reflexivity|]. split; reflexivity.
Qed.

Lemma emb_matrix_raw_values_witness :
  let self := new_trainer (example_frame [7; 3; 7; 9; 3] [1; 2; 3; 4; 5]
                                         [0; 1; 2; 1; 0])
                          [Num 0; Num 1; Num 2; Num 1; Num 0] in
  let self' := example_trainer [7; 3; 7; 9; 3] [1; 2; 3; 4; 5]
                               [0; 1; 2; 1; 0] in
  define_learn_data self = Some self'
  /\ exists emb, emb_matrix self' = Some emb
       /\ exists row, emb !! 3%nat = Some row /\ row !! 1%nat = Some 9.
Proof.
  intros self self'.
  assert (H : define_learn_data self = Some self') by (vm_compute; reflexivity).
  split; [exact H|].
  destruct (proj1 emb_matrix_raw_values self self' H)
    as (emb & He & _ & Hraw & _).
  exists emb. split; [exact He|].
  destruct (Hraw 1%nat 3%nat "TeamHome"%string
              (Values [Num 7; Num 3; Num 7; Num 9; Num 3]) (Num 9)
              eq_refl eq_refl eq_refl) as (row & z & Hrow & Hz & Hc).
  exists row. split; [exact Hrow|].
  rewrite Hz. exact (eq_sym Hc).
Defined.

(** C4. For every categorical field the embedding dimension computed by
    [define_learn_data] is min(50, (cardinality + 1) // 2), the
    cardinality being the number of categories of the field's column;
    cardinalities 1, 2, 50, 51 and 100 give 1, 1, 25, 26 and 50, and no
    cardinality gives more than 50. *)
Theorem embedding_sizes_formula :
  (forall self self' : ModelTrainer,
      define_learn_data self = Some self' ->
      exists sizes : list (Z * Z),
        categorical_embedding_sizes self' = Some sizes
        /\ length sizes = length CATEGORIES
        /\ (forall (j : nat) (name : string) (col : column),
              CATEGORIES !! j = Some name ->
              df_get (DATA_MATRIX self) name = Some col ->
              sizes !! j
              = Some (cardinality col,
                      Z.min 50 ((cardinality col + 1) / 2)))
        /\ Forall (fun p => p.2 = Z.min 50 ((p.1 + 1) / 2) /\ p.2 <= 50)
                  sizes)
  /\ embedding_dim 1 = 1 /\ embedding_dim 2 = 1 /\ embedding_dim 50 = 25
  /\ embedding_dim 51 = 26 /\ embedding_dim 100 = 50
  /\ (forall c : Z, embedding_dim c = Z.min 50 ((c + 1) / 2)
                    /\ embedding_dim c <= 50).
Proof.
  split; [|repeat split; unfold embedding_dim; lia].
  intros self self' H.
  destruct (define_learn_data_inv self self' H)
    as (emb_cols & emb0 & emb & numeric & sizes
        & E1 & E2 & E3 & E4 & E5 & He & Hn & Hr & Hs).
  eexists. split; [exact Hs|]. split; [|split].
  - rewrite length_map. symmetry. eapply length_mapM, E5.
  - intros j name col Hj Hcol.
    apply mapM_Some_1 in E5.
    destruct (Forall2_lookup_l _ _ _ _ _ E5 Hj) as (sz & Hsz & Hget).
    rewrite (convert_categories_get _ _ _ name CATEGORIES_NoDup E4) in Hget.
    rewrite bool_decide_eq_true_2 in Hget
      by (eapply list_elem_of_lookup_2; eassumption).
    rewrite Hcol in Hget. simpl in Hget.
    rewrite list_lookup_fmap, Hsz. simpl. unfold embedding_dim, cardinality.
    destruct (cat_categories (astype_category col)) as [cats|];
      [|discriminate].
    simpl in Hget. injection Hget as <-. reflexivity.
  - apply Forall_forall. intros p Hp.
    apply list_elem_of_fmap in Hp as (sz & -> & _). simpl.
    unfold embedding_dim. lia.
Qed.

Lemma embedding_sizes_formula_witness :
  let self := new_trainer (example_frame [7; 3; 7; 9; 3] [1; 2; 3; 4; 5]
                                         [0; 1; 2; 1; 0])
                          [Num 0; Num 1; Num 2; Num 1; Num 0] in
  let self' := example_trainer [7; 3; 7; 9; 3] [1; 2; 3; 4; 5]
                               [0; 1; 2; 1; 0] in
  define_learn_data self = Some self'
  /\ exists sizes, categorical_embedding_sizes self' = Some sizes
       /\ sizes !! 0%nat = Some (3, 2).
Proof.
  intros self self'.
  assert (H : define_learn_data self = Some self') by (vm_compute; reflexivity).
  split; [exact H|].
  destruct (proj1 embedding_sizes_formula self self' H)
    as (sizes & Hs & _ & Hcard & _).
  exists sizes. split; [exact Hs|].
  exact (Hcard 0%nat "League"%string
           (Values [Num 7; Num 3; Num 7; Num 9; Num 3]) eq_refl eq_refl).
Defined.

(** ** Normalising vectors *)

Import PlayerEmbedding.

Lemma Qmin_cases (x y : Q) :
  (Qmin x y = x /\ (x <= y)%Q) \/ (Qmin x y = y /\ (y <= x)%Q).
Proof.
  unfold Qmin, GenericMinMax.gmin.
  destruct (Qcompare x y) eqn:E.
  - left. split; [reflexivity|]. apply Qeq_alt in E. rewrite E. apply Qle_refl.
  - left. split; [reflexivity|]. apply Qlt_alt in E. now apply Qlt_le_weak.
  - right. split; [reflexivity|]. apply Qgt_alt in E. now apply Qlt_le_weak.
Qed.

Lemma Qmax_cases (x y : Q) :
  (Qmax x y = x /\ (y <= x)%Q) \/ (Qmax x y = y /\ (x <= y)%Q).
Proof.
  unfold Qmax, GenericMinMax.gmax.
  destruct (Qcompare x y) eqn:E.
  - left. split; [reflexivity|]. apply Qeq_alt in E. rewrite E.
    apply Qle_refl.
  - right. split; [reflexivity|]. apply Qlt_alt in E. now apply Qlt_le_weak.
  - left. split; [reflexivity|]. apply Qgt_alt in E. now apply Qlt_le_weak.
Qed.

Lemma foldl_Qmin_spec (l : list Q) (a : Q) :
  let r := foldl Qmin a l in
  (r = a \/ r ∈ l) /\ (r <= a)%Q /\ (forall x, x ∈ l -> (r <= x)%Q).
Proof.
  revert a. induction l as [|y l IH]; intros a; simpl.
  - split; [now left|]. split; [apply Qle_refl|]. intros x Hx.
    apply elem_of_nil in Hx. contradiction.
  - destruct (IH (Qmin a y)) as (Hin & Hle & Hall).
    destruct (Qmin_cases a y) as [[E Hay]|[E Hya]]; rewrite E in *.
    + split; [|split].
      * destruct Hin as [->|Hin]; [now left | right; now right].
      * exact Hle.
      * intros x Hx. apply elem_of_cons in Hx as [->|Hx]; [|now apply Hall].
        eapply Qle_trans; eassumption.
    + split; [|split].
      * right. destruct Hin as [->|Hin]; [left | now right].
      * eapply Qle_trans; eassumption.
      * intros x Hx. apply elem_of_cons in Hx as [->|Hx]; [|now apply Hall].
        exact Hle.
Qed.

Lemma foldl_Qmax_spec (l : list Q) (a : Q) :
  let r := foldl Qmax a l in
  (r = a \/ r ∈ l) /\ (a <= r)%Q /\ (forall x, x ∈ l -> (x <= r)%Q).
Proof.
  revert a. induction l as [|y l IH]; intros a; simpl.
  - split; [now left|]. split; [apply Qle_refl|]. intros x Hx.
    apply elem_of_nil in Hx. contradiction.
  - destruct (IH (Qmax a y)) as (Hin & Hle & Hall).
    destruct (Qmax_cases a y) as [[E Hay]|[E Hya]]; rewrite E in *.
    + split; [|split].
      * destruct Hin as [->|Hin]; [now left | right; now right].
      * exact Hle.
      * intros x Hx. apply elem_of_cons in Hx as [->|Hx]; [|now apply Hall].
        eapply Qle_trans; eassumption.
    + split; [|split].
      * right. destruct Hin as [->|Hin]; [left | now right].
      * eapply Qle_trans; eassumption.
      * intros x Hx. apply elem_of_cons in Hx as [->|Hx]; [|now apply Hall].
        exact Hle.
Qed.

(** [np.min] returns an element of the vector below all the others. *)
Lemma vec_min_spec (v : list Q) (m : Q) :
  vec_min v = Some m -> m ∈ v /\ forall x, x ∈ v -> (m <= x)%Q.
Proof.
  destruct v as [|a l]; [discriminate|]. simpl. intros [= <-].
  destruct (foldl_Qmin_spec l a) as (Hin & Hle & Hall). split.
  - destruct Hin as [->|Hin]; [left | now right].
  - intros x Hx. apply elem_of_cons in Hx as [->|Hx]; [exact Hle|].
    now apply Hall.
Qed.

Lemma vec_max_spec (v : list Q) (m : Q) :
  vec_max v = Some m -> m ∈ v /\ forall x, x ∈ v -> (x <= m)%Q.
Proof.
  destruct v as [|a l]; [discriminate|]. simpl. intros [= <-].
  destruct (foldl_Qmax_spec l a) as (Hin & Hle & Hall). split.
  - destruct Hin as [->|Hin]; [left | now right].
  - intros x Hx. apply elem_of_cons in Hx as [->|Hx]; [exact Hle|].
    now apply Hall.
Qed.

Lemma vec_min_max_is_Some (v : list Q) :
  v <> [] -> exists lo hi, vec_min v = Some lo /\ vec_max v = Some hi.
Proof. destruct v; [congruence|]. intros _. simpl. eauto. Qed.

(** The absolute value, by cases on the sign. *)
Lemma Qabs_cases (m : Q) :
  ((0 <= m)%Q /\ Qabs m == m) \/ ((m <= 0)%Q /\ Qabs m == - m).
Proof.
  destruct (Qlt_le_dec m 0) as [H|H].
  - right. split; [now apply Qlt_le_weak|].
    apply Qabs_neg. now apply Qlt_le_weak.
  - left. split; [exact H|]. now apply Qabs_pos.
Qed.

(** A division by a divisor that is not zero is the finite quotient. *)
Lemma np_div_nonzero (x y : Q) : ~ y == 0 -> np_div x y = Fin (x / y).
Proof.
  intros Hy. unfold np_div. destruct (Qeq_bool y 0) eqn:E; [|reflexivity].
  apply Qeq_bool_eq in E. contradiction.
Qed.

(** Zero divided by zero is [nan]. *)
Lemma np_div_zero_zero (x y : Q) : x == 0 -> y == 0 -> np_div x y = NaN.
Proof.
  intros Hx Hy. unfold np_div. rewrite (Qeq_eq_bool _ _ Hy).
  apply Qeq_alt in Hx. now rewrite Hx.
Qed.

(** The scaling formula on numbers between [lo] and [hi]. *)
Lemma rescale_range (lo hi x : Q) :
  (lo <= x)%Q -> (x <= hi)%Q -> ~ hi + Qabs lo == 0 ->
  let y := ((x + Qabs lo) / (hi + Qabs lo))%Q in
  (0 <= y <= 1)%Q
  /\ (x == hi -> y == 1)
  /\ (x == lo -> (lo <= 0)%Q -> y == 0)
  /\ (x == lo -> (0 < lo)%Q -> y == 2 * lo / (hi + lo)).
Proof.
  intros Hlo Hhi Hd y. unfold y. clear y.
  assert (Ha := Qabs_nonneg lo).
  assert (HD : (0 < hi + Qabs lo)%Q).
  { destruct (Qabs_cases lo) as [[H0 E]|[H0 E]]; rewrite E in *; lra. }
  split; [split|split; [|split]].
  - apply Qle_shift_div_l; [exact HD|].
    destruct (Qabs_cases lo) as [[H0 E]|[H0 E]]; rewrite E in *; lra.
  - apply Qle_shift_div_r; [exact HD|]. lra.
  - intros E. rewrite E. unfold Qdiv. now apply Qmult_inv_r.
  - intros E Hneg. rewrite E, (Qabs_neg lo Hneg). unfold Qdiv. ring.
  - intros E Hpos.
    assert (E' : Qabs lo == lo) by (apply Qabs_pos; lra).
    rewrite E, E'. unfold Qdiv. ring.
Qed.

(** C2, as stated, fails on a vector whose minimum is positive: for
    [1, 3] the divisor is 3 + |1| = 4, not zero, and the minimum is sent
    to (1 + 1) / 4 = 1/2, not to 0. *)
Lemma normalize_vector_positive_min :
  vec_min [1; 3]%Q = Some 1%Q
  /\ vec_max [1; 3]%Q = Some 3%Q
  /\ ~ (3 + Qabs 1 == 0)%Q
  /\ normalize_vector [1; 3]%Q = Some [Fin (2 # 4); Fin (4 # 4)]
  /\ (2 # 4 == 1 # 2)%Q
  /\ ~ (2 # 4 == 0)%Q.
Proof.
  repeat split; try reflexivity; discriminate.
Qed.

(** C2, amended.  For every vector [v] with max(v) + |min(v)| not zero,
    every value of [normalize_vector v] is the finite number
    (x + |min|) / (max + |min|) and lies in [0, 1]; a position holding the
    maximum is sent to 1; a position holding the minimum is sent to 0
    when the minimum is not positive, and to 2 min / (max + min) when it
    is positive. *)
Theorem normalize_vector_range (v : list Q) (lo hi : Q) :
  vec_min v = Some lo -> vec_max v = Some hi ->
  ~ (hi + Qabs lo == 0)%Q ->
  exists out : list npfloat,
    normalize_vector v = Some out
    /\ length out = length v
    /\ forall (i : nat) (x : Q),
         v !! i = Some x ->
         exists y : Q,
           out !! i = Some (Fin y)
           /\ y = ((x + Qabs lo) / (hi + Qabs lo))%Q
           /\ (0 <= y <= 1)%Q
           /\ (x == hi -> y == 1)
           /\ (x == lo -> (lo <= 0)%Q -> y == 0)
           /\ (x == lo -> (0 < lo)%Q -> y == 2 * lo / (hi + lo)).
Proof.
  intros Hmin Hmax Hd. unfold normalize_vector. rewrite Hmin, Hmax. simpl.
  eexists. split; [reflexivity|]. split; [apply length_map|].
  intros i x Hx. exists ((x + Qabs lo) / (hi + Qabs lo))%Q.
  destruct (vec_min_spec v lo Hmin) as [_ Hlo].
  destruct (vec_max_spec v hi Hmax) as [_ Hhi].
  assert (Hin : x ∈ v) by (eapply list_elem_of_lookup_2; eassumption).
  split; [|split; [reflexivity|]].
  - rewrite list_lookup_fmap, Hx. simpl. f_equal.
    now apply np_div_nonzero.
  - apply rescale_range; auto.
Qed.

Lemma normalize_vector_range_witness :
  vec_min [-1; 3; 1]%Q = Some (-1)%Q
  /\ vec_max [-1; 3; 1]%Q = Some 3%Q
  /\ ~ (3 + Qabs (-1) == 0)%Q
  /\ exists out, normalize_vector [-1; 3; 1]%Q = Some out
       /\ exists y, out !! 0%nat = Some (Fin y) /\ y == 0.
Proof.
  assert (Hd : ~ (3 + Qabs (-1) == 0)%Q) by discriminate.
  split; [reflexivity|]. split; [reflexivity|]. split; [exact Hd|].
  destruct (normalize_vector_range [-1; 3; 1]%Q (-1)%Q 3%Q
              eq_refl eq_refl Hd) as (out & Hout & _ & Hall).
  exists out. split; [exact Hout|].
  destruct (Hall 0%nat (-1)%Q eq_refl) as (y & Hy & _ & _ & _ & H0 & _).
  exists y. split; [exact Hy|]. apply H0; [reflexivity | discriminate].
Defined.

(** C9. On a vector with max(v) + |min(v)| = 0, such as the all-zero
    vector, [normalize_vector] goes through to the division: nothing in
    it tests the divisor, every value returned is the result of a
    division by zero, and (the dividend being zero too) it is [nan]. *)
Theorem normalize_vector_degenerate :
  (forall (v : list Q) (lo hi : Q),
      vec_min v = Some lo -> vec_max v = Some hi ->
      (hi + Qabs lo == 0)%Q ->
      exists out : list npfloat,
        normalize_vector v = Some out
        /\ length out = length v
        /\ forall (i : nat) (x : Q),
             v !! i = Some x ->
             out !! i = Some (np_div (x + Qabs lo) (hi + Qabs lo))
             /\ np_div (x + Qabs lo) (hi + Qabs lo) = NaN)
  /\ normalize_vector [0; 0; 0]%Q = Some [NaN; NaN; NaN]
  /\ normalize_vector [-2; -2]%Q = Some [NaN; NaN].
Proof.
  split; [|split; reflexivity].
  intros v lo hi Hmin Hmax Hd. unfold normalize_vector.
  rewrite Hmin, Hmax. simpl.
  eexists. split; [reflexivity|]. split; [apply length_map|].
  intros i x Hx.
  destruct (vec_min_spec v lo Hmin) as [Hlo_in Hlo].
  destruct (vec_max_spec v hi Hmax) as [_ Hhi].
  assert (Hin : x ∈ v) by (eapply list_elem_of_lookup_2; eassumption).
  split.
  - now rewrite list_lookup_fmap, Hx.
  - apply np_div_zero_zero; [|exact Hd].
    specialize (Hlo x Hin). specialize (Hhi x Hin).
    destruct (Qabs_cases lo) as [[H0 E]|[H0 E]]; rewrite E in *; lra.
Qed.

Lemma normalize_vector_degenerate_witness :
  vec_min [-2; -2]%Q = Some (-2)%Q
  /\ vec_max [-2; -2]%Q = Some (-2)%Q
  /\ (-2 + Qabs (-2) == 0)%Q
  /\ exists out, normalize_vector [-2; -2]%Q = Some out
       /\ out !! 1%nat = Some NaN.
Proof.
  split; [reflexivity|]. split; [reflexivity|]. split; [reflexivity|].
  destruct (proj1 normalize_vector_degenerate [-2; -2]%Q (-2)%Q (-2)%Q
              eq_refl eq_refl eq_refl) as (out & Hout & _ & Hall).
  exists out. split; [exact Hout|].
  destruct (Hall 1%nat (-2)%Q eq_refl) as [H1 H2].
  rewrite H1, H2. reflexivity.
Defined.

(** ** Looking up and collecting the vectors *)

(** C6. For every player name, [get_player_vector] returns the integer 0
    (a value, not a vector and not an exception) when no model has been
    trained or loaded, as on a fresh instance, and returns the vector
    the model stores for the token when a model is present. *)
Theorem get_player_vector_sentinel :
  (forall (self : PlayerEmbedding) (player_name : string),
      MODEL self = None ->
      get_player_vector self player_name = Some (PyInt 0))
  /\ (forall player_name : string,
        get_player_vector fresh player_name = Some (PyInt 0))
  /\ (forall (self : PlayerEmbedding) (m : Word2Vec) (player_name : string)
             (v : list Q),
        MODEL self = Some m ->
        get_vector m player_name = Some v ->
        get_player_vector self player_name = Some (PyVec v)).
Proof.
  split; [|split].
  - intros self player_name H. unfold get_player_vector. now rewrite H.
  - reflexivity.
  - intros self m player_name v H Hv. unfold get_player_vector.
    now rewrite H, Hv.
Qed.

Lemma get_player_vector_sentinel_witness :
  let m := mkWord2Vec [("Messi"%string, [1; -2]%Q);
                       ("Xavi"%string, [3; 1 # 2]%Q)] 2 in
  MODEL fresh = None
  /\ get_player_vector fresh "Messi" = Some (PyInt 0)
  /\ MODEL (w2v_load fresh m) = Some m
  /\ get_vector m "Xavi" = Some [3; 1 # 2]%Q
  /\ get_player_vector (w2v_load fresh m) "Xavi" = Some (PyVec [3; 1 # 2]%Q).
Proof.
  intros m.
  destruct get_player_vector_sentinel as (H0 & _ & H1).
  split; [reflexivity|]. split; [exact (H0 fresh "Messi"%string eq_refl)|].
  split; [reflexivity|]. split; [reflexivity|].
  exact (H1 (w2v_load fresh m) m "Xavi"%string [3; 1 # 2]%Q eq_refl eq_refl).
Defined.

(** A token outside the vocabulary is a [KeyError], model or not. *)
Lemma get_player_vector_unknown (self : PlayerEmbedding) (m : Word2Vec)
    (player_name : string) :
  MODEL self = Some m -> get_vector m player_name = None ->
  get_player_vector self player_name = None.
Proof.
  intros H Hv. unfold get_player_vector. now rewrite H, Hv.
Qed.

Lemma dict_set_fresh {V} (d : dict V) (k : string) (v : V) :
  k ∉ dict_keys d -> dict_set d k v = d ++ [(k, v)].
Proof.
  induction d as [|[k0 v0] d IH]; simpl; intros Hk; [reflexivity|].
  apply not_elem_of_cons in Hk as [Hne Hk].
  destruct (String.eqb k0 k) eqn:E.
  - apply String.eqb_eq in E. congruence.
  - now rewrite IH.
Qed.

Lemma dict_get_middle {V} (pre post : dict V) (k : string) (v : V) :
  k ∉ dict_keys pre -> dict_get (pre ++ (k, v) :: post) k = Some v.
Proof.
  induction pre as [|[k0 v0] pre IH]; simpl; intros Hk.
  - now rewrite String.eqb_refl.
  - apply not_elem_of_cons in Hk as [Hne Hk].
    destruct (String.eqb k0 k) eqn:E.
    + apply String.eqb_eq in E. congruence.
    + now apply IH.
Qed.

(** With a model present, [get_all_vectors] copies the vocabulary: every
    token with its vector, in order. *)
Lemma get_all_vectors_loop_spec (self : PlayerEmbedding) (m : Word2Vec)
    (pre post : dict (list Q)) :
  MODEL self = Some m -> wv m = pre ++ post ->
  NoDup (dict_keys (wv m)) ->
  get_all_vectors_loop self (dict_keys post)
    (map (fun kv => (kv.1, PyVec kv.2)) pre)
  = Some (map (fun kv => (kv.1, PyVec kv.2)) (wv m)).
Proof.
  intros Hm. revert pre. induction post as [|[k v] post IH]; intros pre Hwv Hnd.
  - simpl. rewrite Hwv, app_nil_r. reflexivity.
  - simpl. unfold get_player_vector, get_vector. rewrite Hm, Hwv.
    assert (Hk : k ∉ dict_keys pre).
    { rewrite Hwv in Hnd. unfold dict_keys in Hnd.
      rewrite map_app in Hnd. apply NoDup_app in Hnd as (_ & Hdis & _).
      intros Hin. apply (Hdis k Hin). simpl. left. }
    rewrite dict_get_middle by exact Hk. simpl.
    rewrite dict_set_fresh.
    + specialize (IH (pre ++ [(k, v)])).
      rewrite map_app in IH. simpl in IH. rewrite <- Hwv.
      apply IH; [|exact Hnd].
      rewrite Hwv, <- app_assoc. reflexivity.
    + unfold dict_keys. rewrite map_map. simpl. exact Hk.
Qed.

Lemma get_all_vectors_spec (self : PlayerEmbedding) (m : Word2Vec) :
  MODEL self = Some m -> NoDup (dict_keys (wv m)) ->
  get_all_vectors self = Some (map (fun kv => (kv.1, PyVec kv.2)) (wv m)).
Proof.
  intros Hm Hnd. unfold get_all_vectors. rewrite Hm. simpl.
  apply (get_all_vectors_loop_spec self m [] (wv m) Hm eq_refl Hnd).
Qed.

(** The running maximum and minimum, from any starting values. *)
Lemma max_min_loop_spec (vs : list (list Q)) (hi0 lo0 : Q) :
  Forall (fun v => v <> []) vs ->
  exists hi lo : Q,
    max_min_loop (map PyVec vs) hi0 lo0 = Some (hi, lo)
    /\ (lo <= lo0)%Q /\ (hi0 <= hi)%Q
    /\ (forall v x, v ∈ vs -> x ∈ v -> (lo <= x <= hi)%Q)
    /\ (lo = lo0 \/ exists v, v ∈ vs /\ lo ∈ v)
    /\ (hi = hi0 \/ exists v, v ∈ vs /\ hi ∈ v)
    /\ ((forall v x, v ∈ vs -> x ∈ v -> (lo0 <= x)%Q) -> lo = lo0)
    /\ ((forall v x, v ∈ vs -> x ∈ v -> (x <= hi0)%Q) -> hi = hi0).
Proof.
  intros Hne. revert hi0 lo0.
  induction Hne as [|v vs Hv _ IH]; intros hi0 lo0.
  - exists hi0, lo0. simpl. split; [reflexivity|].
    split; [apply Qle_refl|]. split; [apply Qle_refl|].
    split; [intros v x Hv; apply elem_of_nil in Hv; contradiction|].
    split; [now left|]. split; [now left|]. split; reflexivity.
  - destruct (vec_min_max_is_Some v Hv) as (mv & Mv & Hmin & Hmax).
    destruct (vec_min_spec v mv Hmin) as [Hmv_in Hmv].
    destruct (vec_max_spec v Mv Hmax) as [HMv_in HMv].
    simpl. rewrite Hmin, Hmax. simpl.
    set (lo1 := if Qlt_le_dec mv lo0 then mv else lo0).
    set (hi1 := if Qlt_le_dec hi0 Mv then Mv else hi0).
    destruct (IH hi1 lo1)
      as (hi & lo & Hloop & Hlo & Hhi & Hall & Hlo_in & Hhi_in & Hlo0 & Hhi0).
    exists hi, lo.
    assert (Hlo1 : (lo1 <= lo0 /\ lo1 <= mv)%Q
                   /\ (lo1 = lo0 \/ lo1 = mv /\ (mv < lo0)%Q)).
    { unfold lo1. destruct (Qlt_le_dec mv lo0) as [H|H].
      - split; [split; lra|]. right. now split.
      - split; [split; lra|]. now left. }
    assert (Hhi1 : (hi0 <= hi1 /\ Mv <= hi1)%Q
                   /\ (hi1 = hi0 \/ hi1 = Mv /\ (hi0 < Mv)%Q)).
    { unfold hi1. destruct (Qlt_le_dec hi0 Mv) as [H|H].
      - split; [split; lra|]. right. now split.
      - split; [split; lra|]. now left. }
    destruct Hlo1 as [[Hl1 Hl2] Hl3]. destruct Hhi1 as [[Hh1 Hh2] Hh3].
    split; [exact Hloop|]. split; [lra|]. split; [lra|].
    split; [|split; [|split; [|split]]].
    + intros w x Hw Hx. apply elem_of_cons in Hw as [->|Hw].
      * specialize (Hmv x Hx). specialize (HMv x Hx). lra.
      * exact (Hall w x Hw Hx).
    + destruct Hlo_in as [->|(w & Hw & Hin)].
      * destruct Hl3 as [->|[-> _]]; [now left|].
        right. exists v. split; [left | exact Hmv_in].
      * right. exists w. split; [now right | exact Hin].
    + destruct Hhi_in as [->|(w & Hw & Hin)].
      * destruct Hh3 as [->|[-> _]]; [now left|].
        right. exists v. split; [left | exact HMv_in].
      * right. exists w. split; [now right | exact Hin].
    + intros Hge.
      assert (E : lo1 = lo0).
      { destruct Hl3 as [E|[_ Hlt]]; [exact E|].
        specialize (Hge v mv (list_elem_of_here _ _) Hmv_in). lra. }
      rewrite <- E. apply Hlo0. intros w x Hw Hx. rewrite E.
      apply (Hge w x); [now right | exact Hx].
    + intros Hle.
      assert (E : hi1 = hi0).
      { destruct Hh3 as [E|[_ Hlt]]; [exact E|].
        specialize (Hle v Mv (list_elem_of_here _ _) HMv_in). lra. }
      rewrite <- E. apply Hhi0. intros w x Hw Hx. rewrite E.
      apply (Hle w x); [now right | exact Hx].
Qed.

(** C8. With a model whose vectors are not empty,
    [normalize_all_vectors] computes one minimum [lo] and one maximum
    [hi] over every number of every vector, both started at 0: [lo] is
    0 or a number of some vector, it is at most 0 and at most every
    number, and it stays 0 when no number is negative; likewise [hi],
    which stays 0 when no number is positive.  Every vector is then
    rescaled elementwise by (x + |lo|) / (hi + |lo|), and the resulting
    mapping is both stored in [NORMALIZED_VECTORS] and returned. *)
Theorem normalize_all_vectors_global (self : PlayerEmbedding)
    (m : Word2Vec) :
  MODEL self = Some m ->
  NoDup (dict_keys (wv m)) ->
  Forall (fun kv => kv.2 <> []) (wv m) ->
  exists hi lo : Q,
    let normalized :=
      map (fun kv =>
             (kv.1,
              NpArray (map (fun x => np_div (x + Qabs lo) (hi + Qabs lo))
                           kv.2)))
          (wv m) in
    normalize_all_vectors self
    = Some ({| MODEL := MODEL self;
               NORMALIZED_VECTORS := Some normalized;
               VEC_SIZE := VEC_SIZE self |},
            normalized)
    /\ (lo <= 0 <= hi)%Q
    /\ (forall kv x, kv ∈ wv m -> x ∈ kv.2 -> (lo <= x <= hi)%Q)
    /\ (lo = 0%Q \/ exists kv, kv ∈ wv m /\ lo ∈ kv.2)
    /\ (hi = 0%Q \/ exists kv, kv ∈ wv m /\ hi ∈ kv.2)
    /\ ((forall kv x, kv ∈ wv m -> x ∈ kv.2 -> (0 <= x)%Q) -> lo = 0%Q)
    /\ ((forall kv x, kv ∈ wv m -> x ∈ kv.2 -> (x <= 0)%Q) -> hi = 0%Q).
Proof.
  intros Hm Hnd Hne.
  assert (Hne' : Forall (fun v => v <> []) (map snd (wv m))).
  { apply Forall_fmap. exact Hne. }
  destruct (max_min_loop_spec (map snd (wv m)) 0 0 Hne')
    as (hi & lo & Hloop & Hlo & Hhi & Hall & Hlo_in & Hhi_in & Hlo0 & Hhi0).
  assert (Hsnd : forall kv x, kv ∈ wv m -> x ∈ kv.2 ->
                              kv.2 ∈ map snd (wv m) /\ x ∈ kv.2).
  { intros kv x Hkv Hx. split; [|exact Hx].
    apply list_elem_of_fmap. eauto. }
  assert (Hback : forall v, v ∈ map snd (wv m) ->
                            exists kv, kv ∈ wv m /\ v = kv.2).
  { intros v Hv. apply list_elem_of_fmap in Hv as (kv & -> & Hkv). eauto. }
  exists hi, lo. cbv zeta.
  split; [|split; [|split; [|split; [|split; [|split]]]]].
  - unfold normalize_all_vectors.
    rewrite (get_all_vectors_spec self m Hm Hnd). simpl.
    unfold dict_values. rewrite map_map. simpl.
    rewrite <- (map_map snd PyVec), Hloop. simpl.
    rewrite !map_map. reflexivity.
  - split; assumption.
  - intros kv x Hkv Hx. destruct (Hsnd kv x Hkv Hx) as [H1 H2].
    exact (Hall _ _ H1 H2).
  - destruct Hlo_in as [->|(v & Hv & Hin)]; [now left|].
    right. destruct (Hback v Hv) as (kv & Hkv & ->). eauto.
  - destruct Hhi_in as [->|(v & Hv & Hin)]; [now left|].
    right. destruct (Hback v Hv) as (kv & Hkv & ->). eauto.
  - intros Hpos. apply Hlo0. intros v x Hv Hx.
    destruct (Hback v Hv) as (kv & Hkv & ->). exact (Hpos kv x Hkv Hx).
  - intros Hneg. apply Hhi0. intros v x Hv Hx.
    destruct (Hback v Hv) as (kv & Hkv & ->). exact (Hneg kv x Hkv Hx).
Qed.

Lemma normalize_all_vectors_global_witness :
  let m := mkWord2Vec [("Messi"%string, [1; 2]%Q);
                       ("Xavi"%string, [3; 1 # 2]%Q)] 2 in
  let self := w2v_load fresh m in
  MODEL self = Some m
  /\ NoDup (dict_keys (wv m))
  /\ Forall (fun kv => kv.2 <> []) (wv m)
  /\ exists hi lo : Q,
       lo = 0%Q
       /\ snd <$> normalize_all_vectors self
          = Some (map (fun kv =>
                         (kv.1,
                          NpArray (map (fun x =>
                                          np_div (x + Qabs lo) (hi + Qabs lo))
                                       kv.2)))
                      (wv m)).
Proof.
  intros m self.
  assert (Hnd : NoDup (dict_keys (wv m))).
  { apply (bool_decide_unpack (NoDup (dict_keys (wv m)))). exact I. }
  assert (Hne : Forall (fun kv : string * list Q => kv.2 <> []) (wv m)).
  { repeat constructor; discriminate. }
  split; [reflexivity|]. split; [exact Hnd|]. split; [exact Hne|].
  destruct (normalize_all_vectors_global self m eq_refl Hnd Hne)
    as (hi & lo & Hres & _ & _ & _ & _ & Hlo & _).
  exists hi, lo. split.
  - apply Hlo. intros kv x Hkv Hx.
    repeat (apply elem_of_cons in Hkv as [->|Hkv];
            [simpl in Hx;
             repeat (apply elem_of_cons in Hx as [->|Hx]; [discriminate|]);
             apply elem_of_nil in Hx; contradiction|]).
    apply elem_of_nil in Hkv. contradiction.
  - rewrite Hres. reflexivity.
Defined.

(** ** Hexadecimal digits *)

Lemma fixed_hex_zero (k : nat) : fixed_hex k 0 = replicate k "0"%char.
Proof.
  induction k as [|k IH]; [reflexivity|].
  change (fixed_hex (S k) 0) with (fixed_hex k 0 ++ ["0"%char]).
  now rewrite IH, replicate_S_end.
Qed.

Lemma nibble_split (q d : N) :
  (d < 16)%N -> ((16 * q + d) / 16 = q /\ (16 * q + d) mod 16 = d)%N.
Proof.
  intros Hd. split.
  - symmetry. apply (N.div_unique _ 16 q d); [exact Hd | reflexivity].
  - symmetry. apply (N.mod_unique _ 16 q d); [exact Hd | reflexivity].
Qed.

(** [Raw.of_pos] writes the digits of [p] without leading zeros in front
    of [rest]; padded to any sufficient width they are the fixed-width
    digits. *)
Fixpoint of_pos_fixed (p : positive) (rest : string) (k : nat) {struct p} :
  (N.pos p < 16 ^ N.of_nat k)%N ->
  exists ds : pystr,
    list_ascii_of_string (HexString.Raw.of_pos p rest)
    = ds ++ list_ascii_of_string rest
    /\ ds <> []
    /\ (length ds <= k)%nat
    /\ replicate (k - length ds) "0"%char ++ ds = fixed_hex k (N.pos p).
Proof.
  intros Hp.
  destruct k as [|k]; [simpl in Hp; lia|].
  assert (Hpow : (16 ^ N.of_nat (S k) = 16 * 16 ^ N.of_nat k)%N).
  { rewrite Nat2N.inj_succ, N.pow_succ_r'. reflexivity. }
  rewrite Hpow in Hp.
  do 4 try destruct p as [p|p|];
    cbn [HexString.Raw.of_pos];
    lazymatch goal with
    | |- context [HexString.Raw.of_pos p (String ?c rest)] =>
        (* a digit [c] behind the digits of [p] *)
        let d := eval vm_compute in
                 (match ascii_to_digit c with Some d => d | None => 0%N end) in
        lazymatch goal with
        | |- context [fixed_hex _ (N.pos ?q)] =>
            change (N.pos q) with (16 * N.pos p + d)%N in Hp |- *
        end;
        destruct (of_pos_fixed p (String c rest) k ltac:(lia))
          as (ds & E & Hne & Hlen & Hfix);
        exists (ds ++ [c]);
        split; [rewrite E, <- app_assoc; reflexivity|];
        split; [now destruct ds|];
        split; [rewrite length_app; simpl; lia|];
        cbn [fixed_hex];
        destruct (nibble_split (N.pos p) d ltac:(reflexivity)) as [-> ->];
        rewrite <- Hfix, length_app, <- app_assoc;
        replace (S k - (length ds + length [c]))%nat
          with (k - length ds)%nat by (simpl; lia);
        reflexivity
    | |- context [list_ascii_of_string (String ?c rest)] =>
        (* a single digit *)
        exists [c];
        split; [reflexivity|];
        split; [discriminate|];
        split; [simpl; lia|];
        cbn [fixed_hex length];
        rewrite Nat.sub_succ, Nat.sub_0_r;
        change (fixed_hex k 0 ++ [c] = fixed_hex k 0 ++ [c])
          || (rewrite <- fixed_hex_zero; reflexivity)
    end.
Qed.

Lemma length_fixed_hex (k : nat) (n : N) : length (fixed_hex k n) = k.
Proof.
  revert n. induction k as [|k IH]; intros n; [reflexivity|].
  cbn [fixed_hex]. rewrite length_app, IH. simpl. lia.
Qed.

Lemma fixed_hex_app (a b : nat) (n : N) :
  fixed_hex (a + b) n
  = fixed_hex a (n / 16 ^ N.of_nat b)%N ++ fixed_hex b n.
Proof.
  revert n. induction b as [|b IH]; intros n.
  - rewrite Nat.add_0_r. simpl. now rewrite N.div_1_r, app_nil_r.
  - rewrite Nat.add_succ_r. cbn [fixed_hex]. rewrite IH, app_assoc.
    do 2 f_equal. rewrite Nat2N.inj_succ, N.pow_succ_r'.
    now rewrite N.Div0.div_div.
Qed.

Lemma ascii_to_digit_nibble (d : N) :
  (d < 16)%N -> ascii_to_digit (nibble_char d) = Some d.
Proof.
  intros Hd. destruct d as [|p]; [reflexivity|].
  do 4 try destruct p as [p|p|]; try reflexivity; lia.
Qed.

Lemma hex_value_app (l1 l2 : pystr) (acc : N) :
  hex_value (l1 ++ l2) acc = hex_value l1 acc ≫= hex_value l2.
Proof.
  revert acc. induction l1 as [|c l1 IH]; intros acc; [reflexivity|].
  simpl. destruct (ascii_to_digit c) as [d|]; [|reflexivity].
  simpl. apply IH.
Qed.

(** Reading fixed-width digits back gives the number they render. *)
Lemma hex_value_fixed_hex (k : nat) (n acc : N) :
  hex_value (fixed_hex k n) acc
  = Some (acc * 16 ^ N.of_nat k + n mod 16 ^ N.of_nat k)%N.
Proof.
  revert n acc. induction k as [|k IH]; intros n acc.
  - simpl. rewrite N.mod_1_r. f_equal. lia.
  - cbn [fixed_hex]. rewrite hex_value_app, IH. simpl.
    rewrite ascii_to_digit_nibble by (apply N.mod_lt; discriminate).
    simpl. f_equal.
    rewrite Nat2N.inj_succ, N.pow_succ_r'.
    rewrite (N.Div0.mod_mul_r n 16). lia.
Qed.

Lemma int16_fixed_hex (k : nat) (n : N) :
  int16 ("0"%char :: "x"%char :: fixed_hex (S k) n)
  = Some (Z.of_N (n mod 16 ^ N.of_nat (S k))).
Proof.
  unfold int16.
  destruct (fixed_hex (S k) n) as [|c l] eqn:E.
  - apply (f_equal length) in E. rewrite length_fixed_hex in E. discriminate.
  - rewrite <- E, hex_value_fixed_hex. reflexivity.
Qed.

(** The digits Python prints for a 24-bit integer, padded to six. *)
Lemma hex_digits_padded (n : Z) :
  0 <= n < 16777216 ->
  let dim := drop 2 (hex n) in
  hex n = "0"%char :: "x"%char :: dim
  /\ dim <> []
  /\ (length dim <= 6)%nat
  /\ replicate (6 - length dim) "0"%char ++ dim = fixed_hex 6 (Z.to_N n).
Proof.
  intros Hn. destruct n as [|p|p]; [| | lia].
  { cbv zeta. split; [reflexivity|]. split; [discriminate|].
    split; [simpl; lia | reflexivity]. }
  unfold hex, HexString.of_Z, HexString.of_pos.
  cbn [list_ascii_of_string drop].
  destruct (of_pos_fixed p "" 6) as (ds & E & Hne & Hlen & Hfix).
  { change (16 ^ N.of_nat 6)%N with 16777216%N. lia. }
  rewrite E. simpl list_ascii_of_string. rewrite app_nil_r.
  simpl Z.to_N. tauto.
Qed.

(** The colour computed for a 24-bit integer: its three bytes. *)
Lemma rgb_of_digits_hex (n : Z) :
  0 <= n < 16777216 ->
  rgb_of_digits (drop 2 (hex n))
  = Some [n / 65536; (n / 256) mod 256; n mod 256].
Proof.
  intros Hn.
  destruct (hex_digits_padded n Hn) as (_ & _ & Hlen & Hpad).
  unfold rgb_of_digits.
  set (dim := drop 2 (hex n)) in *.
  assert (Hp : (if decide (length dim < 6)%nat
                then replicate (6 - length dim) "0"%char ++ dim else dim)
               = fixed_hex 6 (Z.to_N n)).
  { destruct (decide (length dim < 6)%nat) as [H|H]; [exact Hpad|].
    rewrite <- Hpad. replace (6 - length dim)%nat with 0%nat by lia.
    reflexivity. }
  rewrite Hp. clear Hp Hpad Hlen dim.
  set (m := Z.to_N n).
  assert (H6 : fixed_hex 6 m
               = fixed_hex 2 (m / 16 ^ N.of_nat 4)%N ++ fixed_hex 4 m).
  { apply (fixed_hex_app 2 4). }
  assert (H4 : fixed_hex 4 m
               = fixed_hex 2 (m / 16 ^ N.of_nat 2)%N ++ fixed_hex 2 m).
  { apply (fixed_hex_app 2 2). }
  assert (E1 : take 2 (fixed_hex 6 m) = fixed_hex 2 (m / 16 ^ N.of_nat 4)%N).
  { rewrite H6. apply take_app_length'. now rewrite length_fixed_hex. }
  assert (E2 : drop 2 (fixed_hex 6 m) = fixed_hex 4 m).
  { rewrite H6. apply drop_app_length'. now rewrite length_fixed_hex. }
  assert (E3 : take 2 (fixed_hex 4 m) = fixed_hex 2 (m / 16 ^ N.of_nat 2)%N).
  { rewrite H4. apply take_app_length'. now rewrite length_fixed_hex. }
  assert (E4 : drop 4 (fixed_hex 6 m) = fixed_hex 2 m).
  { change (drop 4 (fixed_hex 6 m)) with (drop (2 + 2) (fixed_hex 6 m)).
    rewrite <- drop_drop, E2, H4.
    apply drop_app_length'. now rewrite length_fixed_hex. }
  rewrite E1, E2, E3, E4, !int16_fixed_hex. simpl.
  change (16 ^ N.of_nat 2)%N with 256%N.
  change (16 ^ N.of_nat 4)%N with 65536%N.
  rewrite !N2Z.inj_mod, !N2Z.inj_div. unfold m. rewrite Z2N.id by lia.
  change (Z.of_N 256) with 256. change (Z.of_N 65536) with 65536.
  do 2 f_equal. apply Z.mod_small. split.
  - apply Z.div_pos; lia.
  - apply Z.div_lt_upper_bound; lia.
Qed.

(** ** The loop of [convert_to_rgb] *)

Lemma list_index_spec (x : pystr) (l : list pystr) (i : nat) :
  list_index x l = Some i <->
  l !! i = Some x /\ forall j, (j < i)%nat -> l !! j <> Some x.
Proof.
  revert i. induction l as [|y l IH]; intros i; simpl.
  - split; [discriminate|]. intros [H _]. discriminate.
  - destruct (decide (x = y)) as [->|Hne].
    + split.
      * intros [= <-]. split; [reflexivity|]. intros j Hj. lia.
      * intros [Hi Hfirst]. destruct i as [|i]; [reflexivity|].
        exfalso. apply (Hfirst 0%nat); [lia | reflexivity].
    + destruct (list_index x l) as [i'|] eqn:E; simpl.
      * split.
        -- intros [= <-]. destruct (proj1 (IH i') eq_refl) as [Hi Hfirst].
           split; [exact Hi|].
           intros [|j] Hj; simpl; [congruence|]. apply Hfirst. lia.
        -- intros [Hi Hfirst]. destruct i as [|i]; simpl in Hi; [congruence|].
           f_equal. assert (H : Some i' = Some i); [|congruence].
           apply IH. split; [exact Hi|]. intros j Hj.
           apply (Hfirst (S j)). lia.
      * split; [discriminate|]. intros [Hi Hfirst].
        destruct i as [|i]; simpl in Hi; [congruence|].
        assert (H : None = Some i); [|discriminate].
        apply IH. split; [exact Hi|]. intros j Hj.
        apply (Hfirst (S j)). lia.
Qed.

Lemma list_index_is_Some (x : pystr) (l : list pystr) :
  x ∈ l -> is_Some (list_index x l).
Proof.
  induction l as [|y l IH]; intros Hin.
  - apply elem_of_nil in Hin. contradiction.
  - simpl. destruct (decide (x = y)) as [->|Hne]; [eauto|].
    apply elem_of_cons in Hin as [->|Hin]; [congruence|].
    destruct (IH Hin) as [i ->]. simpl. eauto.
Qed.

(** The three channel assignments fill the row of the index. *)
Lemma set_item_row (m : list (list Z)) (i : nat) (row : list Z)
    (red green blue : Z) :
  m !! i = Some row -> length row = 3%nat ->
  (m1 ← set_item m i 0 red;
   m2 ← set_item m1 i 1 green;
   set_item m2 i 2 blue)
  = Some (<[i := [red; green; blue]]> m).
Proof.
  intros Hi Hlen.
  assert (Hlt : (i < length m)%nat) by (eapply lookup_lt_Some; eassumption).
  destruct row as [|a [|b [|c [|? ?]]]]; try discriminate.
  unfold set_item. rewrite Hi. simpl.
  rewrite list_lookup_insert_eq by exact Hlt. simpl.
  rewrite list_insert_insert_eq.
  rewrite list_lookup_insert_eq by exact Hlt. simpl.
  now rewrite list_insert_insert_eq.
Qed.

(** One iteration: the colour of the element goes to the row of the
    first position of its digits in [list_vec]. *)
Lemma rgb_loop_cons (list_vec todo new_list_vec : list pystr)
    (rgb_vec : list (list Z)) (dim : pystr) (t row : list Z) (i : nat) :
  rgb_of_digits dim = Some t ->
  list_index dim list_vec = Some i ->
  rgb_vec !! i = Some row -> length row = 3%nat ->
  exists new_list_vec' : list pystr,
    rgb_loop list_vec (dim :: todo) new_list_vec rgb_vec
    = rgb_loop list_vec todo new_list_vec' (<[i := t]> rgb_vec)
    /\ length t = 3%nat.
Proof.
  intros Ht Hidx Hrow Hlen. unfold rgb_of_digits in Ht.
  cbn [rgb_loop].
  set (padded := if decide (length dim < 6)%nat
                 then replicate (6 - length dim) "0"%char ++ dim
                 else dim) in Ht.
  exists (new_list_vec ++ [padded]).
  assert (Hlast :
    last (if decide (length dim < 6)%nat
          then new_list_vec ++ [replicate (6 - length dim) "0"%char ++ dim]
          else new_list_vec ++ [dim]) = Some padded).
  { unfold padded. destruct (decide (length dim < 6)%nat);
      apply last_snoc. }
  assert (Hnl :
    (if decide (length dim < 6)%nat
     then new_list_vec ++ [replicate (6 - length dim) "0"%char ++ dim]
     else new_list_vec ++ [dim]) = new_list_vec ++ [padded]).
  { unfold padded. destruct (decide (length dim < 6)%nat); reflexivity. }
  rewrite Hlast, Hnl. clear Hlast Hnl. cbn [mbind option_bind].
  destruct (int16 ("0"%char :: "x"%char :: take 2 padded)) as [red|];
    [|discriminate].
  cbn [mbind option_bind] in Ht |- *.
  destruct (int16 ("0"%char :: "x"%char :: take 2 (drop 2 padded)))
    as [green|]; [|discriminate].
  cbn [mbind option_bind] in Ht |- *.
  destruct (int16 ("0"%char :: "x"%char :: drop 4 padded)) as [blue|];
    [|discriminate].
  cbn [mbind option_bind] in Ht |- *.
  injection Ht as <-.
  rewrite Hidx. cbn [mbind option_bind].
  pose proof (set_item_row rgb_vec i row red green blue Hrow Hlen) as Hset.
  destruct (set_item rgb_vec i 0 red) as [m1|]; [|discriminate].
  cbn [mbind option_bind] in Hset |- *.
  destruct (set_item m1 i 1 green) as [m2|]; [|discriminate].
  cbn [mbind option_bind] in Hset |- *.
  rewrite Hset. cbn [mbind option_bind].
  split; reflexivity.
Qed.

(** The whole loop: a row is written exactly when its position is the
    first position of its own digits, and then holds their colour. *)
Lemma rgb_loop_rows (list_vec todo new_list_vec : list pystr)
    (rgb_vec : list (list Z)) :
  Forall (fun row => length row = 3%nat) rgb_vec ->
  length rgb_vec = length list_vec ->
  Forall (fun d => d ∈ list_vec /\ is_Some (rgb_of_digits d)) todo ->
  exists out : list (list Z),
    rgb_loop list_vec todo new_list_vec rgb_vec = Some out
    /\ Forall (fun row => length row = 3%nat) out
    /\ length out = length list_vec
    /\ forall (r : nat) (d : pystr),
         list_vec !! r = Some d ->
         out !! r
         = if bool_decide (d ∈ todo /\ list_index d list_vec = Some r)
           then rgb_of_digits d else rgb_vec !! r.
Proof.
  intros Hrows Hlen Htodo. revert new_list_vec rgb_vec Hrows Hlen.
  induction Htodo as [|dim todo [Hin [t Ht]] _ IH];
    intros new_list_vec rgb_vec Hrows Hlen.
  - exists rgb_vec. split; [reflexivity|]. split; [exact Hrows|].
    split; [exact Hlen|]. intros r d Hd.
    rewrite bool_decide_eq_false_2; [reflexivity|].
    intros [H _]. apply elem_of_nil in H. exact H.
  - destruct (list_index_is_Some dim list_vec Hin) as [i Hidx].
    pose proof (proj1 (list_index_spec dim list_vec i) Hidx) as [Hi Hfirst].
    assert (Hlt : (i < length rgb_vec)%nat).
    { rewrite Hlen. eapply lookup_lt_Some; eassumption. }
    destruct (lookup_lt_is_Some_2 rgb_vec i Hlt) as [row Hrow].
    assert (Hrow3 : length row = 3%nat).
    { eapply (proj1 (Forall_lookup _ _) Hrows); eassumption. }
    destruct (rgb_loop_cons list_vec todo new_list_vec rgb_vec dim t row i
                Ht Hidx Hrow Hrow3) as (nl' & Hstep & Ht3).
    rewrite Hstep.
    destruct (IH nl' (<[i := t]> rgb_vec)) as (out & Hout & Hout3 & Hlo & Hall).
    { apply Forall_insert; assumption. }
    { now rewrite length_insert. }
    exists out. split; [exact Hout|]. split; [exact Hout3|].
    split; [exact Hlo|]. intros r d Hd. rewrite (Hall r d Hd).
    destruct (decide (d ∈ todo /\ list_index d list_vec = Some r))
      as [[Hdt Hdr]|Hno].
    + rewrite bool_decide_eq_true_2 by tauto.
      rewrite bool_decide_eq_true_2; [reflexivity|].
      split; [now right | exact Hdr].
    + rewrite (bool_decide_eq_false_2 _ Hno).
      destruct (decide (i = r)) as [<-|Hir].
      * rewrite list_lookup_insert_eq by exact Hlt.
        assert (d = dim) by congruence. subst d.
        rewrite bool_decide_eq_true_2; [now rewrite Ht|].
        split; [left | exact Hidx].
      * rewrite list_lookup_insert_ne by exact Hir.
        rewrite bool_decide_eq_false_2; [reflexivity|].
        intros [Hdt Hdr]. apply elem_of_cons in Hdt as [->|Hdt].
        -- congruence.
        -- tauto.
Qed.

(** ** Scaling to 24 bits *)

Lemma scaled_range (x : Q) :
  (0 <= x <= 1)%Q ->
  scaled x = Qfloor (x * 16777215) /\ 0 <= scaled x < 16777216.
Proof.
  intros Hx. unfold scaled.
  assert (H0 : (0 <= x * 16777215)%Q) by lra.
  assert (H1 : (x * 16777215 <= inject_Z 16777215)%Q).
  { change (inject_Z 16777215) with 16777215%Q. lra. }
  rewrite (py_int_nonneg _ H0). split; [reflexivity|].
  apply Qfloor_resp_le in H0, H1.
  rewrite Qfloor_Z in H1. change (Qfloor 0) with 0 in H0. lia.
Qed.

Lemma scaled_zero (x : Q) : x == 0 -> scaled x = 0.
Proof.
  intros E. destruct (scaled_range x) as [-> _]; [rewrite E; lra|].
  now rewrite E.
Qed.

Lemma scaled_one (x : Q) : x == 1 -> scaled x = 16777215.
Proof.
  intros E. destruct (scaled_range x) as [-> _]; [rewrite E; lra|].
  now rewrite E.
Qed.

(** Different 24-bit integers have different digits. *)
Lemma hex_digits_inj (n n' : Z) :
  0 <= n < 16777216 -> 0 <= n' < 16777216 ->
  drop 2 (hex n) = drop 2 (hex n') -> n = n'.
Proof.
  intros Hn Hn' E.
  destruct (hex_digits_padded n Hn) as (H & _).
  destruct (hex_digits_padded n' Hn') as (H' & _).
  rewrite <- E in H'. rewrite <- H in H'. unfold hex in H'.
  apply (f_equal string_of_list_ascii) in H'.
  rewrite !string_of_list_ascii_of_string in H'.
  rewrite <- (HexString.to_Z_of_Z n), <- (HexString.to_Z_of_Z n').
  now rewrite H'.
Qed.

(** The colour of an element between 0 and 1: the three bytes of its
    scaled value. *)
Lemma rgb_encoding_bytes (x : Q) :
  (0 <= x <= 1)%Q ->
  rgb_encoding x
  = Some [scaled x / 65536; (scaled x / 256) mod 256; scaled x mod 256].
Proof.
  intros Hx. unfold rgb_encoding. apply rgb_of_digits_hex.
  now apply scaled_range.
Qed.

Lemma rgb_encoding_black (x : Q) :
  (0 <= x <= 1)%Q ->
  rgb_encoding x = Some [0; 0; 0] <-> scaled x = 0.
Proof.
  intros Hx. rewrite (rgb_encoding_bytes x Hx).
  destruct (scaled_range x Hx) as [_ Hr]. split.
  - intros [= H1 H2 H3].
    pose proof (Z.div_mod (scaled x) 65536 ltac:(lia)).
    pose proof (Z.mod_pos_bound (scaled x) 65536 ltac:(lia)).
    pose proof (Z.div_mod (scaled x) 256 ltac:(lia)).
    pose proof (Z.div_mod (scaled x / 256) 256 ltac:(lia)).
    lia.
  - intros ->. reflexivity.
Qed.

Section ConvertToRgb.
Variable vec : list Q.
Hypothesis Hvec : Forall (fun x => (0 <= x <= 1)%Q) vec.

Let list_vec : list pystr := map (fun x => drop 2 (hex (scaled x))) vec.

(** Every row of the result is either the colour of its element, when
    no earlier element has the same scaled value, or still zero. *)
Lemma convert_to_rgb_rows :
  exists out : list (list Z),
    convert_to_rgb vec = Some out
    /\ length out = length vec
    /\ Forall (fun row => length row = 3%nat) out
    /\ forall (i : nat) (x : Q),
         vec !! i = Some x ->
         ((forall j y, (j < i)%nat -> vec !! j = Some y ->
                       scaled y <> scaled x) ->
          out !! i = rgb_encoding x)
         /\ ((exists j y, (j < i)%nat /\ vec !! j = Some y
                          /\ scaled y = scaled x) ->
             out !! i = Some [0; 0; 0]).
Proof.
  assert (Hlv : forall i x, vec !! i = Some x ->
                            list_vec !! i = Some (drop 2 (hex (scaled x)))).
  { intros i x Hx. unfold list_vec. now rewrite list_lookup_fmap, Hx. }
  assert (Hin01 : forall i x, vec !! i = Some x -> (0 <= x <= 1)%Q).
  { intros i x Hx. eapply (proj1 (Forall_lookup _ _) Hvec); eassumption. }
  destruct (rgb_loop_rows list_vec list_vec []
              (replicate (length vec) [0; 0; 0]))
    as (out & Hout & Hout3 & Hlen & Hall).
  { apply Forall_replicate. reflexivity. }
  { unfold list_vec. now rewrite length_replicate, length_map. }
  { apply Forall_forall. intros d Hd. split; [exact Hd|].
    unfold list_vec in Hd. apply list_elem_of_fmap in Hd as (x & -> & Hx).
    apply list_elem_of_lookup in Hx as [i Hx].
    change (is_Some (rgb_encoding x)).
    rewrite (rgb_encoding_bytes x (Hin01 i x Hx)). eauto. }
  exists out. split.
  { unfold convert_to_rgb. rewrite !map_map. exact Hout. }
  split; [unfold list_vec in Hlen; now rewrite length_map in Hlen|].
  split; [exact Hout3|].
  intros i x Hx. rewrite (Hall i _ (Hlv i x Hx)).
  assert (Hzero : replicate (length vec) [0; 0; 0] !! i = Some [0; 0; 0]).
  { apply lookup_replicate_2. eapply lookup_lt_Some; eassumption. }
  split.
  - intros Hfirst. rewrite bool_decide_eq_true_2; [reflexivity|].
    split; [eapply list_elem_of_lookup_2; eauto|].
    apply list_index_spec. split; [now apply Hlv|].
    intros j Hj Hjd.
    assert (Hjlt : (j < length vec)%nat).
    { apply lookup_lt_Some in Hx. lia. }
    destruct (lookup_lt_is_Some_2 vec j Hjlt) as [y Hy].
    assert (Hsame : Some (drop 2 (hex (scaled y)))
                    = Some (drop 2 (hex (scaled x)))).
    { rewrite <- (Hlv j y Hy). exact Hjd. }
    clear Hjd. injection Hsame as Hjd.
    apply (Hfirst j y Hj Hy).
    apply hex_digits_inj; [| |exact Hjd];
      apply scaled_range; eapply Hin01; eassumption.
  - intros (j & y & Hj & Hy & Hsame).
    rewrite bool_decide_eq_false_2; [exact Hzero|].
    intros [_ Hidx]. apply list_index_spec in Hidx as [_ Hfirst].
    apply (Hfirst j Hj). change (list_vec !! j
      = Some (drop 2 (hex (scaled x)))).
    rewrite (Hlv j y Hy). now rewrite Hsame.
Qed.
End ConvertToRgb.

(** Among the positions up to [i] there is a first one with the scaled
    value of position [i]. *)
Lemma first_occurrence (vec : list Q) (i : nat) (x : Q) :
  vec !! i = Some x ->
  exists j y,
    (j <= i)%nat /\ vec !! j = Some y /\ scaled y = scaled x
    /\ forall k z, (k < j)%nat -> vec !! k = Some z -> scaled z <> scaled x.
Proof.
  intros Hx.
  destruct (list_find (fun y => scaled y = scaled x) vec) as [[j y]|] eqn:E.
  - apply list_find_Some in E as (Hy & Hsame & Hfirst).
    exists j, y. split; [|split; [exact Hy|split; [exact Hsame|]]].
    + destruct (Nat.le_gt_cases j i) as [H|H]; [exact H|].
      exfalso. apply (Hfirst i x Hx H). reflexivity.
    + intros k z Hk Hz. exact (Hfirst k z Hz Hk).
  - apply list_find_None in E.
    exfalso. apply (proj1 (Forall_lookup _ _) E i x Hx). reflexivity.
Qed.

(** C7. [convert_to_rgb] does not give every element equal to 1 the
    triple (255, 255, 255): on [1, 1] the second row stays (0, 0, 0).
    The loop finds the row to write with [list_vec.index(dim)], the
    first position holding the digits of the element, so the colour of
    a repeated value is written to the row of its first occurrence each
    time and the later rows keep the zeros they were created with. *)
Theorem convert_to_rgb_repeated_one :
  Forall (fun x => (0 <= x <= 1)%Q) [1; 1]%Q
  /\ scaled 1 = 16777215
  /\ rgb_encoding 1 = Some [255; 255; 255]
  /\ convert_to_rgb [1; 1]%Q = Some [[255; 255; 255]; [0; 0; 0]].
Proof.
  split; [repeat constructor; discriminate|].
  split; [reflexivity|]. split; vm_compute; reflexivity.
Qed.

(** [convert_to_rgb] sends [0, 1] to the rows (0, 0, 0) and
    (255, 255, 255).  On a vector of length N with all
    values in [0, 1], it returns N rows of three integers, each in
    [0, 255]; the colour computed for an element equal to 0 is (0, 0, 0)
    and its row holds it; the colour computed for an element equal to 1
    (scaled value 16,777,215) is (255, 255, 255), held by the row of the
    first element scaled to that value, which is the element's own row
    when no earlier element is. *)
Theorem convert_to_rgb_range :
  convert_to_rgb [0; 1]%Q = Some [[0; 0; 0]; [255; 255; 255]]
  /\ forall vec : list Q,
  Forall (fun x => (0 <= x <= 1)%Q) vec ->
  exists out : list (list Z),
    convert_to_rgb vec = Some out
    /\ length out = length vec
    /\ Forall (fun row => exists r g b : Z,
                 row = [r; g; b]
                 /\ 0 <= r <= 255 /\ 0 <= g <= 255 /\ 0 <= b <= 255) out
    /\ (forall (i : nat) (x : Q),
          vec !! i = Some x -> x == 0 ->
          scaled x = 0
          /\ rgb_encoding x = Some [0; 0; 0]
          /\ out !! i = Some [0; 0; 0])
    /\ (forall (i : nat) (x : Q),
          vec !! i = Some x -> x == 1 ->
          scaled x = 16777215
          /\ rgb_encoding x = Some [255; 255; 255]
          /\ ((forall j y, (j < i)%nat -> vec !! j = Some y ->
                           scaled y <> 16777215) ->
              out !! i = Some [255; 255; 255])
          /\ exists j y,
               (j <= i)%nat /\ vec !! j = Some y /\ scaled y = 16777215
               /\ out !! j = Some [255; 255; 255]).
Proof.
  split; [reflexivity|]. intros vec Hvec.
  destruct (convert_to_rgb_rows vec Hvec) as (out & Hout & Hlen & _ & Hrows).
  assert (Hin01 : forall i x, vec !! i = Some x -> (0 <= x <= 1)%Q).
  { intros i x Hx. eapply (proj1 (Forall_lookup _ _) Hvec); eassumption. }
  exists out. split; [exact Hout|]. split; [exact Hlen|].
  split; [|split].
  - apply Forall_lookup. intros i row Hrow.
    assert (Hi : (i < length vec)%nat).
    { rewrite <- Hlen. eapply lookup_lt_Some; eassumption. }
    destruct (lookup_lt_is_Some_2 vec i Hi) as [x Hx].
    destruct (Hrows i x Hx) as [Hfirst Hdup].
    destruct (first_occurrence vec i x Hx) as (j & y & Hj & Hy & Hsame & Hmin).
    destruct (Nat.eq_dec j i) as [->|Hne].
    + rewrite (Hfirst Hmin), (rgb_encoding_bytes x (Hin01 i x Hx)) in Hrow.
      injection Hrow as <-.
      destruct (scaled_range x (Hin01 i x Hx)) as [_ Hr].
      do 3 eexists. split; [reflexivity|].
      pose proof (Z.div_mod (scaled x) 65536 ltac:(lia)).
      pose proof (Z.mod_pos_bound (scaled x) 65536 ltac:(lia)).
      pose proof (Z.mod_pos_bound (scaled x / 256) 256 ltac:(lia)).
      pose proof (Z.mod_pos_bound (scaled x) 256 ltac:(lia)).
      lia.
    + rewrite Hdup in Hrow by (exists j, y; repeat split; [lia|assumption..]).
      injection Hrow as <-. exists 0, 0, 0. split; [reflexivity|]. lia.
  - intros i x Hx E.
    assert (Hs : scaled x = 0) by now apply scaled_zero.
    assert (He : rgb_encoding x = Some [0; 0; 0]).
    { apply rgb_encoding_black; [eapply Hin01; eassumption | exact Hs]. }
    split; [exact Hs|]. split; [exact He|].
    destruct (Hrows i x Hx) as [Hfirst Hdup].
    destruct (first_occurrence vec i x Hx) as (j & y & Hj & Hy & Hsame & Hmin).
    destruct (Nat.eq_dec j i) as [->|Hne].
    + now rewrite (Hfirst Hmin).
    + apply Hdup. exists j, y. repeat split; [lia|assumption..].
  - intros i x Hx E.
    assert (Hs : scaled x = 16777215) by now apply scaled_one.
    assert (He : forall y, (0 <= y <= 1)%Q -> scaled y = 16777215 ->
                           rgb_encoding y = Some [255; 255; 255]).
    { intros y Hy01 Hys. rewrite (rgb_encoding_bytes y Hy01), Hys.
      reflexivity. }
    split; [exact Hs|]. split; [apply He; eauto|]. split.
    + intros Hfirst. destruct (Hrows i x Hx) as [Hf _].
      rewrite Hf; [apply He; eauto|]. now rewrite Hs.
    + destruct (first_occurrence vec i x Hx)
        as (j & y & Hj & Hy & Hsame & Hmin).
      exists j, y. split; [exact Hj|]. split; [exact Hy|].
      rewrite Hs in Hsame. split; [exact Hsame|].
      destruct (Hrows j y Hy) as [Hf _]. rewrite Hf.
      * apply He; eauto.
      * intros k z Hk Hz. rewrite Hsame, <- Hs. exact (Hmin k z Hk Hz).
Qed.

Lemma convert_to_rgb_range_witness :
  Forall (fun x => (0 <= x <= 1)%Q) [0; 1; 1 # 2]%Q
  /\ exists out, convert_to_rgb [0; 1; 1 # 2]%Q = Some out
       /\ out !! 0%nat = Some [0; 0; 0]
       /\ out !! 1%nat = Some [255; 255; 255].
Proof.
  assert (H : Forall (fun x => (0 <= x <= 1)%Q) [0; 1; 1 # 2]%Q).
  { repeat constructor; discriminate. }
  split; [exact H|].
  destruct (proj2 convert_to_rgb_range [0; 1; 1 # 2]%Q H)
    as (out & Hout & _ & _ & H0 & H1).
  exists out. split; [exact Hout|]. split.
  - exact (proj2 (proj2 (H0 0%nat 0%Q eq_refl (Qeq_refl 0)))).
  - destruct (H1 1%nat 1%Q eq_refl (Qeq_refl 1)) as (_ & _ & Hf & _).
    apply Hf. intros [|[|j]] y Hj Hy; [|lia|lia].
    injection Hy as <-. discriminate.
Defined.

(** C10, as stated, fails on duplicated zeros: in [0, 0] both positions
    scale to the same integer, yet every row holds the colour of its own
    element, because the colour of 0 is the (0, 0, 0) a row starts
    with.  And outside [0, 1] a vector with two equal elements need not
    give a matrix at all: the hexadecimal string of a negative scaled
    value carries a sign, its groups do not parse, and the call raises. *)
Lemma convert_to_rgb_zero_duplicates :
  let vec := [0; 0]%Q in
  convert_to_rgb vec = Some [[0; 0; 0]; [0; 0; 0]]
  /\ map scaled vec = [0; 0]
  /\ ~ NoDup (map scaled vec)
  /\ (forall (i : nat) (x : Q),
        vec !! i = Some x ->
        convert_to_rgb vec ≫= (fun out => out !! i) = rgb_encoding x)
  /\ convert_to_rgb [1 # 2; 1 # 2; -1]%Q = None.
Proof.
  cbv zeta. split; [reflexivity|]. split; [reflexivity|].
  split; [|split; [|reflexivity]].
  - intros H. apply NoDup_cons in H as [H _]. apply H. left.
  - intros [|[|i]] x Hx; [| |discriminate];
      injection Hx as <-; reflexivity.
Qed.

(** C10, amended.  On a vector with all values in [0, 1] (so that every
    element scales to a 24-bit integer), the colour of every element is
    written to the row of the first position with the same scaled value;
    the row of a later position with that value is never written and
    remains (0, 0, 0).  Output row i holds the RGB encoding of element i
    exactly when no earlier element has the same scaled value or that
    value is 0; in particular every row does when all scaled values are
    pairwise distinct. *)
Theorem convert_to_rgb_first_occurrence (vec : list Q) :
  Forall (fun x => (0 <= x <= 1)%Q) vec ->
  exists out : list (list Z),
    convert_to_rgb vec = Some out
    /\ (forall (i : nat) (x : Q),
          vec !! i = Some x ->
          (exists j y,
              (j <= i)%nat /\ vec !! j = Some y /\ scaled y = scaled x
              /\ (forall k z, (k < j)%nat -> vec !! k = Some z ->
                              scaled z <> scaled x)
              /\ out !! j = rgb_encoding x)
          /\ ((exists j y, (j < i)%nat /\ vec !! j = Some y
                           /\ scaled y = scaled x) ->
              out !! i = Some [0; 0; 0])
          /\ (out !! i = rgb_encoding x <->
              (forall j y, (j < i)%nat -> vec !! j = Some y ->
                           scaled y <> scaled x)
              \/ scaled x = 0))
    /\ (NoDup (map scaled vec) ->
        forall (i : nat) (x : Q),
          vec !! i = Some x -> out !! i = rgb_encoding x).
Proof.
  intros Hvec.
  destruct (convert_to_rgb_rows vec Hvec) as (out & Hout & Hlen & _ & Hrows).
  assert (Hin01 : forall i x, vec !! i = Some x -> (0 <= x <= 1)%Q).
  { intros i x Hx. eapply (proj1 (Forall_lookup _ _) Hvec); eassumption. }
  exists out. split; [exact Hout|]. split.
  - intros i x Hx. destruct (Hrows i x Hx) as [Hfirst Hdup].
    destruct (first_occurrence vec i x Hx) as (j & y & Hj & Hy & Hsame & Hmin).
    assert (Henc : rgb_encoding y = rgb_encoding x).
    { unfold rgb_encoding. now rewrite Hsame. }
    split; [|split; [exact Hdup|]].
    + exists j, y. split; [exact Hj|]. split; [exact Hy|].
      split; [exact Hsame|]. split; [exact Hmin|].
      destruct (Hrows j y Hy) as [Hf _]. rewrite <- Henc. apply Hf.
      intros k z Hk Hz. rewrite Hsame. exact (Hmin k z Hk Hz).
    + split.
      * intros Hrow. destruct (Nat.eq_dec j i) as [->|Hne].
        -- left. exact Hmin.
        -- right. apply (rgb_encoding_black x (Hin01 i x Hx)).
           rewrite <- Hrow. apply Hdup.
           exists j, y. repeat split; [lia|assumption..].
      * intros [Hf|Hz]; [now apply Hfirst|].
        destruct (Nat.eq_dec j i) as [->|Hne]; [now apply Hfirst|].
        rewrite (proj2 (rgb_encoding_black x (Hin01 i x Hx)) Hz).
        apply Hdup. exists j, y. repeat split; [lia|assumption..].
  - intros Hnd i x Hx. destruct (Hrows i x Hx) as [Hfirst _].
    apply Hfirst. intros j y Hj Hy Hsame.
    assert (j = i); [|lia].
    apply (NoDup_lookup _ _ _ (scaled x) Hnd).
    + rewrite list_lookup_fmap, Hy. simpl. now rewrite Hsame.
    + rewrite list_lookup_fmap, Hx. reflexivity.
Qed.

Lemma convert_to_rgb_first_occurrence_witness :
  Forall (fun x => (0 <= x <= 1)%Q) [1 # 2; 1; 1 # 2]%Q
  /\ exists out, convert_to_rgb [1 # 2; 1; 1 # 2]%Q = Some out
       /\ out !! 2%nat = Some [0; 0; 0]
       /\ exists j, (j <= 2)%nat /\ out !! j = Some [127; 255; 255].
Proof.
  assert (H : Forall (fun x => (0 <= x <= 1)%Q) [1 # 2; 1; 1 # 2]%Q).
  { repeat constructor; discriminate. }
  split; [exact H|].
  destruct (convert_to_rgb_first_occurrence [1 # 2; 1; 1 # 2]%Q H)
    as (out & Hout & Hall & _).
  exists out. split; [exact Hout|].
  destruct (Hall 2%nat (1 # 2)%Q eq_refl) as ((j & y & Hj & _ & _ & _ & Hw)
                                              & Hdup & _).
  split.
  - apply Hdup. exists 0%nat, (1 # 2)%Q.
    split; [lia|]. split; reflexivity.
  - exists j. split; [exact Hj|]. rewrite Hw. reflexivity.
Defined.

(** * Further properties of the code *)

(** ** Feature engineering: what is selected and when it fails *)

Lemma str_in_spec (k : string) (l : list string) :
  str_in k l = true <-> k ∈ l.
Proof.
  unfold str_in. rewrite existsb_exists. split.
  - intros (x & Hx & E). apply String.eqb_eq in E as ->.
    now apply list_elem_of_In.
  - intros H. exists k. split; [now apply list_elem_of_In|].
    apply String.eqb_refl.
Qed.

Lemma str_in_false (k : string) (l : list string) :
  str_in k l = false <-> k ∉ l.
Proof.
  rewrite <- str_in_spec. destruct (str_in k l); split; congruence.
Qed.

(** The numeric half of a successful run of [define_learn_data]. *)
Lemma define_learn_data_numeric_inv (self self' : ModelTrainer) :
  define_learn_data self = Some self' ->
  exists num_cols numeric,
    mapM (fun col => column_values <$> df_get (DATA_MATRIX self) col)
         (filter (fun col_key => negb (str_in col_key INVALID)
                                 && negb (str_in col_key CATEGORIES) = true)
                 (df_keys (DATA_MATRIX self))) = Some num_cols
    /\ np_stack1 num_cols = Some numeric
    /\ numeric_matrix self' = Some numeric.
Proof.
  unfold define_learn_data. intros H.
  repeat match type of H with
         | (?m ≫= _) = Some _ =>
             let E := fresh "E" in
             destruct m eqn:E; [|discriminate];
             cbn [mbind option_bind] in H
         end.
  injection H as <-. cbn [numeric_matrix]. eauto.
Qed.

(** X1. The numeric matrix built by [define_learn_data] has one column
    for each column of the table that is neither categorical nor
    excluded, in the order of the table, and entry (i, j) is the value of
    row i in the j-th such column; the label column "Result" is never
    among them. *)
Theorem numeric_matrix_columns (self self' : ModelTrainer) :
  define_learn_data self = Some self' ->
  let num_list :=
    filter (fun col_key => negb (str_in col_key INVALID)
                           && negb (str_in col_key CATEGORIES) = true)
           (df_keys (DATA_MATRIX self)) in
  exists num : list (list cell),
    numeric_matrix self' = Some num
    /\ num_list <> []
    /\ Forall (fun row => length row = length num_list) num
    /\ (forall key, key ∈ num_list <->
                    key ∈ df_keys (DATA_MATRIX self)
                    /\ (key ∉ INVALID) /\ (key ∉ CATEGORIES))
    /\ (("Result"%string) ∉ num_list)
    /\ (forall (j i : nat) (key : string) (col : column) (c : cell),
          num_list !! j = Some key ->
          df_get (DATA_MATRIX self) key = Some col ->
          column_values col !! i = Some c ->
          exists row, num !! i = Some row /\ row !! j = Some c).
Proof.
  intros H num_list.
  destruct (define_learn_data_numeric_inv self self' H)
    as (num_cols & num & E1 & E2 & Hnum).
  fold num_list in E1.
  assert (Hmem : forall key, key ∈ num_list <->
                   key ∈ df_keys (DATA_MATRIX self)
                   /\ (key ∉ INVALID) /\ (key ∉ CATEGORIES)).
  { intros key. unfold num_list. rewrite list_elem_of_filter.
    rewrite andb_true_iff, !negb_true_iff, !str_in_false. tauto. }
  exists num. split; [exact Hnum|]. split; [|split; [|split; [|split]]].
  - intros E. rewrite E in E1. simpl in E1. injection E1 as <-.
    discriminate.
  - pose proof (np_stack1_row_length _ _ E2) as Hrows.
    now rewrite <- (length_mapM _ _ _ E1) in Hrows.
  - exact Hmem.
  - intros Hin. apply Hmem in Hin as (_ & Hinv & _). apply Hinv.
    apply (bool_decide_unpack ("Result"%string ∈ INVALID)). exact I.
  - intros j i key col c Hj Hcol Hc.
    apply mapM_Some_1 in E1.
    destruct (Forall2_lookup_l _ _ _ _ _ E1 Hj) as (vals & Hvals & Hget).
    rewrite Hcol in Hget. simpl in Hget. injection Hget as <-.
    exact (np_stack1_lookup _ _ _ _ _ _ E2 Hvals Hc).
Qed.

Lemma numeric_matrix_columns_witness :
  let self := new_trainer (example_frame [7; 3; 7; 9; 3] [1; 2; 3; 4; 5]
                                         [0; 1; 2; 1; 0])
                          [Num 0; Num 1; Num 2; Num 1; Num 0] in
  let self' := example_trainer [7; 3; 7; 9; 3] [1; 2; 3; 4; 5]
                               [0; 1; 2; 1; 0] in
  define_learn_data self = Some self'
  /\ exists num, numeric_matrix self' = Some num
       /\ Forall (fun row => length row = 1%nat) num.
Proof.
  intros self self'.
  assert (H : define_learn_data self = Some self') by (vm_compute; reflexivity).
  split; [exact H|].
  destruct (numeric_matrix_columns self self' H) as (num & Hn & _ & Hr & _).
  exists num. split; [exact Hn | exact Hr].
Defined.

(** X2. The constructor raises (a [KeyError]) when the table lacks the
    "Result" column or any of the 13 categorical columns. *)
Theorem init_missing_column (shuffle : list nat -> list nat)
    (df : DataFrame) :
  df_get df "Result" = None
  \/ (exists name, name ∈ CATEGORIES /\ df_get df name = None) ->
  init shuffle df = None.
Proof.
  intros [H|(name & Hin & H)]; unfold init.
  - now rewrite H.
  - destruct (df_get df "Result") as [res|]; [|reflexivity]. simpl.
    unfold define_learn_data. cbn [DATA_MATRIX new_trainer].
    rewrite (mapM_None_2 (fun col => column_values <$> df_get df col)
               CATEGORIES); [reflexivity|].
    apply Exists_exists. exists name. split; [exact Hin|]. now rewrite H.
Qed.

Lemma init_missing_column_witness :
  let df := mkDataFrame 1 [("Result"%string, Values [Num 0]);
                           ("League"%string, Values [Num 1])] in
  (exists name, name ∈ CATEGORIES /\ df_get df name = None)
  /\ init (@rev nat) df = None.
Proof.
  intros df.
  assert (H : exists name, name ∈ CATEGORIES /\ df_get df name = None).
  { exists "TeamHome"%string. split; [|reflexivity].
    apply (bool_decide_unpack ("TeamHome"%string ∈ CATEGORIES)). exact I. }
  split; [exact H|].
  exact (init_missing_column (@rev nat) df (or_intror H)).
Defined.

(** X3. [define_learn_data] raises when a categorical column holds text:
    the stack of the categorical columns cannot be cast to 64-bit
    integers. *)
Theorem define_learn_data_text (self : ModelTrainer) (name : string)
    (col : column) (i : nat) (s : string) :
  name ∈ CATEGORIES ->
  df_get (DATA_MATRIX self) name = Some col ->
  column_values col !! i = Some (Str s) ->
  define_learn_data self = None.
Proof.
  intros Hin Hcol Hi. unfold define_learn_data.
  destruct (mapM _ CATEGORIES) as [emb_cols|] eqn:E1; [|reflexivity].
  cbn [mbind option_bind].
  destruct (np_stack1 emb_cols) as [emb0|] eqn:E2; [|reflexivity].
  cbn [mbind option_bind].
  assert (E3 : tensor_int64 emb0 = None); [|now rewrite E3].
  apply list_elem_of_lookup in Hin as [j Hj].
  apply mapM_Some_1 in E1.
  destruct (Forall2_lookup_l _ _ _ _ _ E1 Hj) as (vals & Hvals & Hget).
  rewrite Hcol in Hget. simpl in Hget. injection Hget as <-.
  destruct (np_stack1_lookup _ _ _ _ _ _ E2 Hvals Hi) as (row & Hrow & Hx).
  apply mapM_None_2, Exists_exists. exists row.
  split; [eapply list_elem_of_lookup_2; eassumption|].
  apply mapM_None_2, Exists_exists. exists (Str s).
  split; [eapply list_elem_of_lookup_2; eassumption | reflexivity].
Qed.

Lemma define_learn_data_text_witness :
  let df := mkDataFrame 1 [("League"%string, Values [Str "LaLiga"])] in
  let self := new_trainer df [] in
  ("League"%string) ∈ CATEGORIES
  /\ df_get (DATA_MATRIX self) "League" = Some (Values [Str "LaLiga"])
  /\ define_learn_data self = None.
Proof.
  intros df self.
  assert (H : ("League"%string) ∈ CATEGORIES).
  { apply (bool_decide_unpack ("League"%string ∈ CATEGORIES)). exact I. }
  split; [exact H|]. split; [reflexivity|].
  exact (define_learn_data_text self "League"%string
           (Values [Str "LaLiga"]) 0%nat "LaLiga"%string H eq_refl eq_refl).
Defined.

(** X4. [define_learn_data] raises when every column of the table is
    categorical or excluded: there is no numeric column to stack. *)
Theorem define_learn_data_no_numeric (self : ModelTrainer) :
  (forall key, key ∈ df_keys (DATA_MATRIX self) ->
               key ∈ INVALID \/ key ∈ CATEGORIES) ->
  define_learn_data self = None.
Proof.
  intros Hall. unfold define_learn_data.
  destruct (mapM _ CATEGORIES) as [emb_cols|]; [|reflexivity].
  cbn [mbind option_bind].
  destruct (np_stack1 emb_cols) as [emb0|]; [|reflexivity].
  cbn [mbind option_bind].
  destruct (tensor_int64 emb0) as [emb|]; [|reflexivity].
  cbn [mbind option_bind].
  assert (E : filter (fun col_key => negb (str_in col_key INVALID)
                                     && negb (str_in col_key CATEGORIES)
                                     = true)
                     (df_keys (DATA_MATRIX self)) = []).
  { destruct (filter _ _) as [|key l] eqn:Ef; [reflexivity|]. exfalso.
    assert (Hkey : key ∈ key :: l) by left. rewrite <- Ef in Hkey.
    apply list_elem_of_filter in Hkey as [Hf Hkey].
    apply andb_true_iff in Hf as [H1 H2].
    apply negb_true_iff in H1, H2. apply str_in_false in H1, H2.
    destruct (Hall key Hkey); contradiction. }
  rewrite E. reflexivity.
Qed.

Lemma define_learn_data_no_numeric_witness :
  let df := mkDataFrame 1 [("Result"%string, Values [Num 0]);
                           ("League"%string, Values [Num 1])] in
  (forall key, key ∈ df_keys df -> key ∈ INVALID \/ key ∈ CATEGORIES)
  /\ define_learn_data (new_trainer df [Num 0]) = None.
Proof.
  intros df.
  assert (H : forall key, key ∈ df_keys df ->
                          key ∈ INVALID \/ key ∈ CATEGORIES).
  { intros key Hk. apply elem_of_cons in Hk as [->|Hk].
    - left. apply (bool_decide_unpack ("Result"%string ∈ INVALID)). exact I.
    - apply elem_of_cons in Hk as [->|Hk].
      + right.
        apply (bool_decide_unpack ("League"%string ∈ CATEGORIES)). exact I.
      + apply elem_of_nil in Hk. contradiction. }
  split; [exact H|].
  exact (define_learn_data_no_numeric (new_trainer df [Num 0]) H).
Defined.

(** The example table is well formed, and its only numeric feature
    column holds numbers. *)
Lemma example_frame_wf :
  wf_frame (example_frame [7; 3; 7; 9; 3] [1; 2; 3; 4; 5] [0; 1; 2; 1; 0]).
Proof.
  split.
  - repeat constructor.
  - repeat (constructor; [eexists; split; [reflexivity|repeat constructor]|]).
    constructor.
  - exists "Goals"%string. split; [|split; reflexivity].
    apply (bool_decide_unpack
             (("Goals"%string)
              ∈ df_keys (example_frame [7; 3; 7; 9; 3] [1; 2; 3; 4; 5]
                                       [0; 1; 2; 1; 0]))).
    exact I.
Defined.

Lemma example_frame_numeric (key : string) (col : column) :
  str_in key INVALID = false -> str_in key CATEGORIES = false ->
  df_get (example_frame [7; 3; 7; 9; 3] [1; 2; 3; 4; 5] [0; 1; 2; 1; 0]) key
  = Some col ->
  Forall is_num (column_values col).
Proof.
  intros Hi Hc Hget. apply dict_get_elem_of in Hget.
  repeat (apply elem_of_cons in Hget as [Hget|Hget];
          [injection Hget as -> ->; try discriminate; repeat constructor|]).
  apply elem_of_nil in Hget. contradiction.
Defined.

(** X5. On a well-formed table (one value per row in every column, the
    13 categorical columns present and numeric, at least one numeric
    feature column) [define_learn_data] succeeds; the categorical and the
    numeric matrix have one row per row of the table, the number of rows
    and the labels are left as they were, and the numeric matrix holds
    numbers when the feature columns do. *)
Theorem define_learn_data_well_formed (self : ModelTrainer) :
  wf_frame (DATA_MATRIX self) ->
  exists (self' : ModelTrainer) (emb : list (list Z))
         (num : list (list cell)),
    define_learn_data self = Some self'
    /\ emb_matrix self' = Some emb
    /\ numeric_matrix self' = Some num
    /\ length emb = shape0 (DATA_MATRIX self')
    /\ length num = shape0 (DATA_MATRIX self')
    /\ shape0 (DATA_MATRIX self') = shape0 (DATA_MATRIX self)
    /\ RESULT self' = RESULT self
    /\ ((forall key col,
           str_in key INVALID = false -> str_in key CATEGORIES = false ->
           df_get (DATA_MATRIX self) key = Some col ->
           Forall is_num (column_values col)) ->
        Forall (Forall is_num) num).
Proof. apply define_learn_data_total. Qed.

Lemma define_learn_data_well_formed_witness :
  let df := example_frame [7; 3; 7; 9; 3] [1; 2; 3; 4; 5] [0; 1; 2; 1; 0] in
  wf_frame df
  /\ exists self' emb,
       define_learn_data (new_trainer df []) = Some self'
       /\ emb_matrix self' = Some emb /\ length emb = 5%nat.
Proof.
  intros df. split; [exact example_frame_wf|].
  destruct (define_learn_data_well_formed (new_trainer df []) example_frame_wf)
    as (self' & emb & num & H & He & _ & Hl & _ & Hs & _).
  exists self', emb. split; [exact H|]. split; [exact He|].
  rewrite Hl, Hs. reflexivity.
Defined.

(** X8. The constructor, up to the split, on a well-formed table of two
    rows or more whose label and numeric feature columns hold numbers:
    it succeeds, and the train and test tensors are the first
    floor(0.8 n) rows and the remaining rows of the categorical matrix,
    of the numeric matrix and of the labels, row for row aligned,
    whatever the shuffle does. *)
Theorem init_well_formed (shuffle : list nat -> list nat) (df : DataFrame)
    (res_col : column) :
  wf_frame df ->
  df_get df "Result" = Some res_col ->
  Forall is_num (column_values res_col) ->
  (forall key col,
      str_in key INVALID = false -> str_in key CATEGORIES = false ->
      df_get df key = Some col -> Forall is_num (column_values col)) ->
  (2 <= shape0 df)%nat ->
  let k := Z.to_nat (Qfloor ((8 # 10) * inject_Z (Z.of_nat (shape0 df)))) in
  exists (self : ModelTrainer) (emb : list (list Z)) (numf : list (list Q))
         (res : list Z),
    init shuffle df = Some self
    /\ emb_matrix self = Some emb
    /\ length emb = shape0 df
    /\ (numeric_matrix self ≫= tensor_float) = Some numf
    /\ mapM cell_int64 (column_values res_col) = Some res
    /\ cat_train self = Some (take k emb)
    /\ cat_test self = Some (drop k emb)
    /\ num_train self = Some (take k numf)
    /\ num_test self = Some (drop k numf)
    /\ result_train self = Some (take k res)
    /\ result_test self = Some (drop k res).
Proof. apply init_split. Qed.

Lemma init_well_formed_witness :
  let df := example_frame [7; 3; 7; 9; 3] [1; 2; 3; 4; 5] [0; 1; 2; 1; 0] in
  wf_frame df
  /\ (2 <= shape0 df)%nat
  /\ exists self, init (@rev nat) df = Some self
                  /\ result_train self = Some [0; 1; 2; 1]
                  /\ result_test self = Some [0].
Proof.
  intros df.
  assert (Hn : (2 <= shape0 df)%nat) by (vm_compute; lia).
  split; [exact example_frame_wf|]. split; [exact Hn|].
  destruct (init_well_formed (@rev nat) df
              (Values [Num 0; Num 1; Num 2; Num 1; Num 0])
              example_frame_wf eq_refl
              ltac:(repeat constructor) example_frame_numeric Hn)
    as (self & emb & numf & res & Hinit & _ & _ & _ & Hres & _ & _ & _ & _
        & Htr & Hte).
  exists self. split; [exact Hinit|].
  injection Hres as <-. split; [exact Htr | exact Hte].
Defined.

(** ** The split on ratios outside (0, 1) *)

Lemma split_loop_all_train (self : ModelTrainer) (T range : list nat)
    (b b' : buckets) :
  Forall (fun i => i ∈ T) range ->
  split_loop self T b range = Some b' ->
  new_cat_matrix_test b' = new_cat_matrix_test b.
Proof.
  intros Hall. revert b. induction Hall as [|i range Hi _ IH]; intros b H.
  - simpl in H. now injection H as <-.
  - simpl in H. destruct (split_step self T b i) as [b1|] eqn:E;
      [|discriminate].
    simpl in H. rewrite (IH _ H). clear IH H. unfold split_step in E.
    repeat match type of E with
           | (?m ≫= _) = Some _ =>
               destruct m; [|discriminate]; cbn [mbind option_bind] in E
           end.
    rewrite (bool_decide_eq_true_2 _ Hi) in E. now injection E as <-.
Qed.

Lemma split_loop_all_test (self : ModelTrainer) (T range : list nat)
    (b b' : buckets) :
  Forall (fun i => i ∉ T) range ->
  split_loop self T b range = Some b' ->
  new_cat_matrix_train b' = new_cat_matrix_train b.
Proof.
  intros Hall. revert b. induction Hall as [|i range Hi _ IH]; intros b H.
  - simpl in H. now injection H as <-.
  - simpl in H. destruct (split_step self T b i) as [b1|] eqn:E;
      [|discriminate].
    simpl in H. rewrite (IH _ H). clear IH H. unfold split_step in E.
    repeat match type of E with
           | (?m ≫= _) = Some _ =>
               destruct m; [|discriminate]; cbn [mbind option_bind] in E
           end.
    rewrite (bool_decide_eq_false_2 _ Hi) in E. now injection E as <-.
Qed.

Lemma py_int_zero (x : Q) : x == 0 -> py_int x = 0.
Proof.
  destruct x as [a d]. unfold Qeq, py_int. simpl. intros H.
  replace a with 0 by lia. reflexivity.
Qed.

(** X6. For every table and every state of the trainer, [split_data]
    raises when the ratio is zero or negative (every row goes to the
    training lists and the test lists cannot be stacked) and when the
    ratio is 1 (every row goes to the test lists). *)
Theorem split_data_degenerate_ratio (shuffle : list nat -> list nat)
    (ratio : Q) (self : ModelTrainer) :
  (ratio <= 0)%Q \/ ratio == 1 ->
  split_data shuffle ratio self = None.
Proof.
  intros Hr. unfold split_data, split_data_assign.
  destruct (split_data_buckets shuffle ratio self) as [b|] eqn:Hb;
    [|reflexivity].
  cbn [mbind option_bind].
  unfold split_data_buckets, split_data_lists in Hb. cbn [alloc deref] in Hb. simpl in Hb.
  unfold deref in Hb. simpl in Hb.
  set (n := shape0 (DATA_MATRIX self)) in *.
  destruct Hr as [Hneg|Hone].
  - (* all the rows are training rows *)
    assert (Hn : (0 <= inject_Z (Z.of_nat n))%Q).
    { change 0%Q with (inject_Z 0). rewrite <- Zle_Qle. lia. }
    assert (Hx : (inject_Z (Z.of_nat n)
                  <= (1 - ratio) * inject_Z (Z.of_nat n))%Q).
    { revert Hn. generalize (inject_Z (Z.of_nat n)). intros q Hq. nra. }
    assert (H0 : (0 <= (1 - ratio) * inject_Z (Z.of_nat n))%Q) by lra.
    rewrite (py_int_nonneg _ H0) in Hb.
    apply Qfloor_resp_le in Hx. rewrite Qfloor_Z in Hx.
    rewrite py_slice_to_nonneg in Hb by lia.
    rewrite take_ge in Hb by (rewrite length_seq; lia).
    apply split_loop_all_train in Hb; [|apply Forall_forall; tauto].
    simpl in Hb. rewrite Hb.
    now destruct (np_stack0 (new_cat_matrix_train b)).
  - (* none is *)
    rewrite py_int_zero in Hb by (rewrite Hone; ring).
    apply split_loop_all_test in Hb.
    + simpl in Hb. now rewrite Hb.
    + apply Forall_forall. intros i _ Hi. simpl in Hi.
      apply elem_of_nil in Hi. exact Hi.
Qed.

Lemma split_data_degenerate_ratio_witness :
  ((0 <= 0)%Q \/ 0 == 1)
  /\ split_data (@rev nat) 0
       (example_trainer [7; 3; 7; 9; 3] [1; 2; 3; 4; 5] [0; 1; 2; 1; 0])
     = None.
Proof.
  assert (H : (0 <= 0)%Q \/ 0 == 1) by (left; discriminate).
  split; [exact H|].
  exact (split_data_degenerate_ratio (@rev nat) 0 _ H).
Defined.

(** X7. [split_data] does not check the number of training rows it
    computes.  When that number is negative, -t with t between 1 and n
    (as for ratio 1.5 on 5 rows, where it is -2), Python's slice counts
    it from the end: the training lists are the first n - t rows and the
    test lists the last t rows.  (A ratio above 1 can also give 0, as
    1.2 does on 5 rows.) *)
Theorem split_data_ratio_above_one (shuffle : list nat -> list nat)
    (ratio : PrimFloat.float) (self : ModelTrainer)
    (emb : list (list Z)) (num : list (list cell)) (t : Z) :
  emb_matrix self = Some emb ->
  numeric_matrix self = Some num ->
  length emb = shape0 (DATA_MATRIX self) ->
  length num = shape0 (DATA_MATRIX self) ->
  length (RESULT self) = shape0 (DATA_MATRIX self) ->
  let n := shape0 (DATA_MATRIX self) in
  float_train_matches ratio n = Some (- t) ->
  1 <= t <= Z.of_nat n ->
  let k := (n - Z.to_nat t)%nat in
  split_data_buckets_f64 shuffle ratio self =
    Some {| new_cat_matrix_train := take k emb;
            new_cat_matrix_test := drop k emb;
            new_num_matrix_train := take k num;
            new_num_matrix_test := drop k num;
            new_result_train := take k (RESULT self);
            new_result_test := drop k (RESULT self) |}
  /\ float_train_matches (Binary64.py_float 15 10) 5 = Some (-2)
  /\ float_train_matches (Binary64.py_float 12 10) 5 = Some 0.
Proof.
  intros Hemb Hnum Hle Hln Hlr n Hcount Ht k.
  split; [|split; vm_compute; reflexivity].
  unfold split_data_buckets_f64. fold n. rewrite Hcount.
  cbn [mbind option_bind].
  apply (split_data_lists_from_end shuffle self emb num Hemb Hnum
           Hle Hln Hlr t Ht).
Qed.

Lemma split_data_ratio_above_one_witness :
  let self := example_trainer [7; 3; 7; 9; 3] [1; 2; 3; 4; 5] [0; 1; 2; 1; 0] in
  let ratio := Binary64.py_float 15 10 in
  float_train_matches ratio (shape0 (DATA_MATRIX self)) = Some (- 2)
  /\ 1 <= 2 <= Z.of_nat (shape0 (DATA_MATRIX self))
  /\ new_result_train <$> split_data_buckets_f64 (@rev nat) ratio self
     = Some [Num 0; Num 1; Num 2]
  /\ new_result_test <$> split_data_buckets_f64 (@rev nat) ratio self
     = Some [Num 1; Num 0].
Proof.
  intros self ratio.
  assert (Hcount : float_train_matches ratio (shape0 (DATA_MATRIX self))
                   = Some (- 2)) by (vm_compute; reflexivity).
  assert (Ht : 1 <= 2 <= Z.of_nat (shape0 (DATA_MATRIX self))).
  { vm_compute. split; discriminate. }
  pose proof (split_data_ratio_above_one (@rev nat) ratio self
                (default [] (emb_matrix self))
                (default [] (numeric_matrix self)) 2
                eq_refl eq_refl eq_refl eq_refl eq_refl Hcount Ht) as H.
  cbv zeta in H. destruct H as (H & _).
  split; [exact Hcount|]. split; [exact Ht|].
  rewrite H. split; reflexivity.
Defined.

(** ** The network: its layers and its embedding lookups *)

Import Network.

Lemma sequential_width_app (ls1 ls2 : list layer) (w : Z) :
  sequential_width (ls1 ++ ls2) w
  = sequential_width ls1 w ≫= sequential_width ls2.
Proof.
  revert w. induction ls1 as [|l ls1 IH]; intros w; [reflexivity|].
  simpl. destruct (layer_width l w) as [w'|]; [|reflexivity].
  simpl. apply IH.
Qed.

Lemma nn_Dropout_Some (p : Q) :
  (0 <= p <= 1)%Q -> nn_Dropout p = Some (Dropout p).
Proof.
  intros [H0 H1]. unfold nn_Dropout.
  apply Qle_bool_iff in H0, H1. now rewrite H0, H1.
Qed.

Lemma nn_Dropout_is_Some (p : Q) :
  is_Some (nn_Dropout p) -> (0 <= p <= 1)%Q.
Proof.
  unfold nn_Dropout. intros [l Hl].
  destruct (Qle_bool 0 p) eqn:H0; [|discriminate].
  destruct (Qle_bool p 1) eqn:H1; [|discriminate].
  split; now apply Qle_bool_iff.
Qed.

(** The hidden blocks chain: each takes the width the one before
    gives. *)
Lemma build_layers_spec (hidden : list Z) (acc : list layer)
    (input_size w0 : Z) (p : Q) :
  sequential_width acc w0 = Some input_size ->
  0 <= input_size -> Forall (fun i => 0 <= i) hidden -> (0 <= p <= 1)%Q ->
  exists ls,
    build_layers hidden acc input_size p = Some ls
    /\ sequential_width ls w0 = Some (default input_size (last hidden))
    /\ length ls = (length acc + 4 * length hidden)%nat.
Proof.
  intros Hacc Hin Hall Hp. revert acc input_size Hacc Hin.
  induction Hall as [|i hidden Hi Hall IH]; intros acc input_size Hacc Hin.
  - exists acc. simpl. split; [reflexivity|]. split; [exact Hacc | lia].
  - cbn [build_layers]. unfold nn_Linear, nn_BatchNorm1d.
    rewrite (nn_Dropout_Some p Hp), !decide_True by lia.
    cbn [mbind option_bind].
    destruct (IH (acc ++ [Linear input_size i; ReLU; BatchNorm1d i; Dropout p])
                 i) as (ls & Hls & Hw & Hl); [|exact Hi|].
    { rewrite sequential_width_app, Hacc. simpl.
      rewrite decide_True by reflexivity. simpl.
      rewrite decide_True by reflexivity. reflexivity. }
    exists ls. split; [exact Hls|]. split.
    + rewrite Hw. f_equal. destruct hidden as [|z hidden']; [reflexivity|].
      change (last (i :: z :: hidden')) with (last (z :: hidden')).
      destruct (last (z :: hidden')) eqn:Hlast; [reflexivity|].
      apply last_None in Hlast. discriminate.
    + rewrite Hl, length_app. simpl. lia.
Qed.

(** What the loop needs to get through. *)
Lemma build_layers_is_Some (hidden : list Z) (acc : list layer)
    (input_size : Z) (p : Q) :
  is_Some (build_layers hidden acc input_size p) ->
  Forall (fun i => 0 <= i) hidden
  /\ (hidden <> [] -> 0 <= input_size).
Proof.
  revert acc input_size. induction hidden as [|i hidden IH];
    intros acc input_size H.
  - split; [constructor | congruence].
  - cbn [build_layers] in H. unfold nn_Linear, nn_BatchNorm1d in H.
    destruct (decide (0 <= input_size /\ 0 <= i)) as [[H0 H1]|];
      [|destruct H as [? H]; discriminate].
    rewrite decide_True in H by exact H1.
    cbn [mbind option_bind] in H.
    destruct (nn_Dropout p); [|destruct H as [? H]; discriminate].
    cbn [mbind option_bind] in H.
    apply IH in H as [Hall _].
    split; [constructor; assumption | intros _; exact H0].
Qed.

Lemma nn_Embedding_Some (w : nat -> nat -> Q) (ni nf : Z) (e : Embedding) :
  nn_Embedding w ni nf = Some e ->
  0 <= ni /\ 0 <= nf
  /\ num_embeddings e = ni /\ embedding_dimension e = nf
  /\ length (weight e) = Z.to_nat ni
  /\ Forall (fun row => length row = Z.to_nat nf) (weight e).
Proof.
  unfold nn_Embedding. destruct (decide _) as [[H0 H1]|]; [|discriminate].
  intros [= <-]. simpl. rewrite length_map, length_seq.
  repeat split; try assumption.
  apply Forall_fmap, Forall_forall. intros r _. unfold compose.
  now rewrite length_map, length_seq.
Qed.

(** The tables of a network that was built. *)
Lemma Model_init_embeddings (w : nat -> nat -> nat -> Q)
    (embedding_size : list (Z * Z)) (num_numerical_cols output_size : Z)
    (hidden : list Z) (p : Q) (m : Model) :
  Model_init w embedding_size num_numerical_cols output_size hidden p
  = Some m ->
  Forall2 (fun s e => 0 <= s.1 /\ 0 <= s.2
                      /\ num_embeddings e = s.1
                      /\ embedding_dimension e = s.2
                      /\ length (weight e) = Z.to_nat s.1
                      /\ Forall (fun row => length row = Z.to_nat s.2)
                                (weight e))
          embedding_size (all_embeddings m).
Proof.
  unfold Model_init. intros H.
  repeat match type of H with
         | (?m ≫= _) = Some _ =>
             let E := fresh "E" in
             destruct m eqn:E; [|discriminate];
             cbn [mbind option_bind] in H
         end.
  injection H as <-. cbn [all_embeddings].
  apply mapM_Some_1 in E.
  apply Forall2_same_length_lookup. split.
  - rewrite <- (Forall2_length _ _ _ E). now rewrite length_imap.
  - intros j [ni nf] e Hs He.
    assert (Hj : imap pair embedding_size !! j = Some (j, (ni, nf))).
    { rewrite list_lookup_imap, Hs. reflexivity. }
    destruct (Forall2_lookup_l _ _ _ _ _ E Hj) as (e' & He' & Hmk).
    rewrite He in He'. injection He' as <-. simpl in Hmk.
    exact (nn_Embedding_Some _ _ _ _ Hmk).
Qed.

Lemma sum_nonneg (l : list Z) :
  Forall (fun z => 0 <= z) l -> 0 <= foldr Z.add 0 l.
Proof. induction 1; simpl; lia. Qed.

(** When [Model.__init__] returns, and the layers it then builds. *)
Lemma Model_init_spec (w : nat -> nat -> nat -> Q)
    (embedding_size : list (Z * Z)) (num_numerical_cols output_size : Z)
    (hidden : list Z) (p : Q) :
  (is_Some (Model_init w embedding_size num_numerical_cols output_size
                       hidden p)
   <-> hidden <> []
       /\ Forall (fun s => 0 <= s.1 /\ 0 <= s.2) embedding_size
       /\ 0 <= num_numerical_cols /\ 0 <= output_size
       /\ Forall (fun i => 0 <= i) hidden
       /\ (0 <= p <= 1)%Q)
  /\ (forall m,
        Model_init w embedding_size num_numerical_cols output_size hidden p
        = Some m ->
        embedding_dropout m = Dropout p
        /\ batch_norm_num m = BatchNorm1d num_numerical_cols
        /\ length (layers m) = (4 * length hidden + 1)%nat
        /\ sequential_width (layers m)
             (foldr Z.add 0 (map snd embedding_size) + num_numerical_cols)
           = Some output_size).
Proof.
  set (input_size := foldr Z.add 0 (map snd embedding_size)
                     + num_numerical_cols).
  assert (Hfwd : forall m,
    Model_init w embedding_size num_numerical_cols output_size hidden p
    = Some m ->
    (hidden <> []
     /\ Forall (fun s => 0 <= s.1 /\ 0 <= s.2) embedding_size
     /\ 0 <= num_numerical_cols /\ 0 <= output_size
     /\ Forall (fun i => 0 <= i) hidden
     /\ (0 <= p <= 1)%Q)
    /\ embedding_dropout m = Dropout p
    /\ batch_norm_num m = BatchNorm1d num_numerical_cols
    /\ length (layers m) = (4 * length hidden + 1)%nat
    /\ sequential_width (layers m) input_size = Some output_size).
  { intros m Hm.
    pose proof (Model_init_embeddings _ _ _ _ _ _ _ Hm) as Htab.
    unfold Model_init in Hm.
    repeat match type of Hm with
           | (?m ≫= _) = Some _ =>
               let E := fresh "E" in
               destruct m eqn:E; [|discriminate];
               cbn [mbind option_bind] in Hm
           end.
    injection Hm as <-.
    cbn [embedding_dropout batch_norm_num layers].
    assert (Hp : (0 <= p <= 1)%Q) by (apply nn_Dropout_is_Some; eauto).
    assert (Hne : hidden <> []) by (intros ->; discriminate).
    assert (Hes : Forall (fun s => 0 <= s.1 /\ 0 <= s.2) embedding_size).
    { apply Forall_forall. intros s Hs.
      apply list_elem_of_lookup in Hs as [j Hj].
      destruct (Forall2_lookup_l _ _ _ _ _ Htab Hj) as (e & _ & He).
      tauto. }
    unfold nn_BatchNorm1d in E1.
    destruct (decide (0 <= num_numerical_cols)) as [Hnum|]; [|discriminate].
    injection E1 as <-.
    unfold nn_Linear in E4.
    destruct (decide (0 <= z /\ 0 <= output_size)) as [[Hz Hout]|];
      [|discriminate].
    injection E4 as <-.
    destruct (build_layers_is_Some hidden [] input_size p) as [Hall _];
      [unfold input_size; eauto|].
    assert (Hin : 0 <= input_size).
    { unfold input_size. apply Z.add_nonneg_nonneg; [|exact Hnum].
      apply sum_nonneg, Forall_fmap. eapply Forall_impl; [exact Hes|].
      intros s [_ Hs]. exact Hs. }
    destruct (build_layers_spec hidden [] input_size input_size p eq_refl
                Hin Hall Hp) as (ls & Hls & Hw & Hl).
    fold input_size in E2. rewrite E2 in Hls. injection Hls as <-.
    rewrite (nn_Dropout_Some p Hp) in E0. injection E0 as <-.
    split; [tauto|]. split; [reflexivity|]. split; [reflexivity|]. split.
    - rewrite length_app, Hl. simpl. lia.
    - rewrite sequential_width_app, Hw, E3. simpl.
      rewrite decide_True by reflexivity. reflexivity. }
  split; [split|].
  - intros [m Hm]. exact (proj1 (Hfwd m Hm)).
  - intros (Hne & Hes & Hnum & Hout & Hall & Hp).
    unfold Model_init.
    assert (Htab : is_Some (mapM (fun s => nn_Embedding (w s.1) s.2.1 s.2.2)
                                 (imap pair embedding_size))).
    { apply mapM_is_Some_2, Forall_forall. intros [j [ni nf]] Hs.
      apply list_elem_of_lookup in Hs as [j' Hj'].
      rewrite list_lookup_imap in Hj'.
      destruct (embedding_size !! j') as [s|] eqn:Es; [|discriminate].
      injection Hj' as <- <-. simpl.
      rewrite Forall_forall in Hes.
      specialize (Hes _ (list_elem_of_lookup_2 _ _ _ Es)). simpl in Hes.
      unfold nn_Embedding. rewrite decide_True by exact Hes. eauto. }
    destruct Htab as [tabs ->]. cbn [mbind option_bind].
    rewrite (nn_Dropout_Some p Hp). cbn [mbind option_bind].
    unfold nn_BatchNorm1d. rewrite decide_True by exact Hnum.
    cbn [mbind option_bind].
    assert (Hin : 0 <= input_size).
    { unfold input_size. apply Z.add_nonneg_nonneg; [|exact Hnum].
      apply sum_nonneg, Forall_fmap. eapply Forall_impl; [exact Hes|].
      intros s [_ Hs]. exact Hs. }
    destruct (build_layers_spec hidden [] input_size input_size p eq_refl
                Hin Hall Hp) as (ls & Hls & _).
    fold input_size. rewrite Hls. cbn [mbind option_bind].
    destruct (last hidden) as [z|] eqn:Hlast.
    2:{ apply last_None in Hlast. contradiction. }
    cbn [mbind option_bind].
    assert (Hz : 0 <= z).
    { rewrite Forall_forall in Hall. apply Hall.
      apply last_Some in Hlast as [l' ->].
      apply elem_of_app. right. apply list_elem_of_here. }
    unfold nn_Linear. rewrite decide_True by (split; assumption).
    cbn [mbind option_bind]. eauto.
  - intros m Hm. exact (proj2 (Hfwd m Hm)).
Qed.

(** X9. [Model.__init__] raises on an empty list of hidden widths
    ([layers[-1]]), on a negative size and on a [p] that is no
    probability.  On positive sizes and a non-empty list it returns a
    network with one embedding table per categorical field, of the given
    number of rows and width, and 4 * len(layers) + 1 modules whose
    sizes chain: fed the sum of the embedding widths plus the number of
    numeric columns, every linear and batch-normalisation module
    receives the width it was built for, and the last one returns
    [output_size]. *)
Theorem Model_init_architecture (w : nat -> nat -> nat -> Q)
    (embedding_size : list (Z * Z)) (num_numerical_cols output_size : Z)
    (hidden : list Z) (p : Q) :
  (hidden = []
   \/ Exists (fun s => s.1 < 0 \/ s.2 < 0) embedding_size
   \/ num_numerical_cols < 0 \/ output_size < 0
   \/ Exists (fun i => i < 0) hidden
   \/ ~ (0 <= p <= 1)%Q ->
   Model_init w embedding_size num_numerical_cols output_size hidden p = None)
  /\ (hidden <> [] ->
      Forall (fun s => 0 < s.1 /\ 0 < s.2) embedding_size ->
      0 < num_numerical_cols -> 0 < output_size ->
      Forall (fun i => 0 < i) hidden ->
      (0 <= p <= 1)%Q ->
      exists m : Model,
        Model_init w embedding_size num_numerical_cols output_size hidden p
        = Some m
        /\ length (all_embeddings m) = length embedding_size
        /\ (forall (j : nat) (ni nf : Z),
              embedding_size !! j = Some (ni, nf) ->
              exists e, all_embeddings m !! j = Some e
                        /\ num_embeddings e = ni
                        /\ embedding_dimension e = nf
                        /\ length (weight e) = Z.to_nat ni
                        /\ Forall (fun row => length row = Z.to_nat nf)
                                  (weight e))
        /\ batch_norm_num m = BatchNorm1d num_numerical_cols
        /\ length (layers m) = (4 * length hidden + 1)%nat
        /\ sequential_width (layers m)
             (foldr Z.add 0 (map snd embedding_size) + num_numerical_cols)
           = Some output_size).
Proof.
  destruct (Model_init_spec w embedding_size num_numerical_cols output_size
              hidden p) as [Hiff Hlayers].
  split.
  - intros Hbad.
    destruct (Model_init w embedding_size num_numerical_cols output_size
                         hidden p) as [m|] eqn:Hm; [|reflexivity].
    exfalso.
    destruct (proj1 Hiff (ex_intro _ m eq_refl))
      as (Hne & Hes & Hnum & Hout & Hall & Hp).
    destruct Hbad as [H|[H|[H|[H|[H|H]]]]]; try contradiction; try lia.
    + apply Exists_exists in H as (s & Hs & Hneg).
      rewrite Forall_forall in Hes. specialize (Hes s Hs).
      cbv beta in Hes. lia.
    + apply Exists_exists in H as (i & Hi & Hneg).
      rewrite Forall_forall in Hall. specialize (Hall i Hi).
      cbv beta in Hall. lia.
  - intros Hne Hes Hnum Hout Hall Hp.
    destruct (proj2 Hiff) as [m Hm].
    { split; [exact Hne|].
      split; [eapply Forall_impl; [exact Hes|]; intros s [H1 H2]; lia|].
      split; [lia|]. split; [lia|].
      split; [eapply Forall_impl; [exact Hall|];
              intros i Hi; cbv beta in Hi |- *; lia|].
      exact Hp. }
    exists m. split; [exact Hm|].
    pose proof (Model_init_embeddings _ _ _ _ _ _ _ Hm) as Htab.
    destruct (Hlayers m Hm) as (_ & Hb & Hl & Hw).
    split; [symmetry; eapply Forall2_length, Htab|].
    split; [|tauto].
    intros j ni nf Hj.
    destruct (Forall2_lookup_l _ _ _ _ _ Htab Hj) as (e & He & Hs).
    exists e. simpl in Hs. tauto.
Qed.

Lemma Model_init_architecture_witness :
  [200; 100; 50] <> []
  /\ Forall (fun s => 0 < s.1 /\ 0 < s.2) [(3, 2); (5, 3)]
  /\ Forall (fun i => 0 < i) [200; 100; 50]
  /\ (0 <= 4 # 10 <= 1)%Q
  /\ exists m, Model_init (fun _ _ _ => 0%Q) [(3, 2); (5, 3)] 4 3
                          [200; 100; 50] (4 # 10) = Some m
               /\ length (all_embeddings m) = 2%nat
               /\ length (layers m) = 13%nat
               /\ sequential_width (layers m) 9 = Some 3.
Proof.
  assert (Hne : [200; 100; 50] <> []) by discriminate.
  assert (Hes : Forall (fun s => 0 < s.1 /\ 0 < s.2) [(3, 2); (5, 3)]).
  { repeat constructor. }
  assert (Hall : Forall (fun i => 0 < i) [200; 100; 50]).
  { repeat constructor. }
  assert (Hp : (0 <= 4 # 10 <= 1)%Q) by (split; discriminate).
  split; [exact Hne|]. split; [exact Hes|]. split; [exact Hall|].
  split; [exact Hp|].
  destruct (proj2 (Model_init_architecture (fun _ _ _ => 0%Q)
                     [(3, 2); (5, 3)] 4 3 [200; 100; 50] (4 # 10))
              Hne Hes eq_refl eq_refl Hall Hp)
    as (m & Hm & He & _ & _ & Hl & Hw).
  exists m. split; [exact Hm|]. split; [exact He|].
  split; [exact Hl | exact Hw].
Defined.

Lemma forward_loop_Some (x : list (list Z)) (tables : list Embedding) :
  forall (i : nat) (acc embs : list (list (list Q))),
    forward_loop x i tables acc = Some embs <->
    exists l,
      embs = acc ++ l
      /\ Forall2 (fun s t => column_slice x s.1 ≫= embedding_lookup s.2
                             = Some t)
                 (zip (seq i (length tables)) tables) l.
Proof.
  induction tables as [|e tables IH]; intros i acc embs.
  - simpl. split.
    + intros [= <-]. exists []. rewrite app_nil_r.
      split; [reflexivity | constructor].
    + intros (l & -> & Hl). apply Forall2_nil_inv_l in Hl as ->.
      now rewrite app_nil_r.
  - cbn [forward_loop length seq zip zip_with]. split.
    + intros H.
      destruct (column_slice x i) as [idx|] eqn:E1; [|discriminate].
      cbn [mbind option_bind] in H.
      destruct (embedding_lookup e idx) as [t|] eqn:E2; [|discriminate].
      cbn [mbind option_bind] in H.
      apply IH in H as (l & -> & Hl). exists (t :: l).
      split; [now rewrite <- app_assoc|].
      constructor; [|exact Hl]. cbn [fst snd]. rewrite E1. exact E2.
    + intros (l & -> & Hl).
      apply Forall2_cons_inv_l in Hl as (t & l' & Ht & Hl' & ->).
      cbn [fst snd] in Ht.
      destruct (column_slice x i) as [idx|]; [|discriminate].
      cbn [mbind option_bind] in Ht |- *. rewrite Ht.
      cbn [mbind option_bind]. apply IH. exists l'.
      split; [now rewrite <- app_assoc | exact Hl'].
Qed.

(** Looking one column of indices up in a table: each row of the result
    is the row of the table at the index the batch row holds. *)
Lemma embedding_column_Some (e : Embedding) (j : nat) (x : list (list Z)) :
  forall t : list (list Q),
    column_slice x j ≫= embedding_lookup e = Some t <->
    Forall2 (fun row r => exists v, row !! j = Some v
                                    /\ 0 <= v < num_embeddings e
                                    /\ weight e !! Z.to_nat v = Some r)
            x t.
Proof.
  unfold column_slice, embedding_lookup.
  induction x as [|row x IH]; intros t.
  - simpl. split.
    + intros [= <-]. constructor.
    + intros H. apply Forall2_nil_inv_l in H as ->. reflexivity.
  - cbn [mapM]. split.
    + intros H.
      destruct (row !! j) as [v|] eqn:Ev; [|discriminate].
      cbn [mbind option_bind] in H.
      destruct (mapM (fun row => row !! j) x) as [idx|] eqn:Eidx;
        [|discriminate].
      cbn [mbind option_bind mret option_ret mapM] in H.
      destruct (decide (0 <= v < num_embeddings e)) as [Hv|]; [|discriminate].
      destruct (weight e !! Z.to_nat v) as [r|] eqn:Er; [|discriminate].
      cbn [mbind option_bind] in H.
      match type of H with
      | (?m ≫= _) = Some _ => destruct m as [rs|] eqn:Ers; [|discriminate]
      end.
      cbn [mbind option_bind mret option_ret] in H. injection H as <-.
      constructor; [eauto|]. apply IH. cbn [mbind option_bind]. exact Ers.
    + intros H. apply Forall2_cons_inv_l in H
        as (r & rs & (v & Ev & Hv & Er) & Hrs & ->).
      apply IH in Hrs. rewrite Ev. cbn [mbind option_bind].
      destruct (mapM (fun row => row !! j) x) as [idx|]; [|discriminate].
      cbn [mbind option_bind mret option_ret mapM] in Hrs |- *.
      rewrite decide_True by exact Hv. rewrite Er.
      cbn [mbind option_bind]. rewrite Hrs. reflexivity.
Qed.

Lemma torch_cat1_spec (tensors : list (list (list Q))) (n : nat) :
  tensors <> [] -> Forall (fun t => length t = n) tensors ->
  torch_cat1 tensors
  = Some (map (fun b => concat (omap (fun t => t !! b) tensors)) (seq 0 n)).
Proof.
  intros Hne Hall. destruct tensors as [|t ts]; [contradiction|].
  apply Forall_cons in Hall as [Ht Hts]. unfold torch_cat1. rewrite Ht.
  assert (H : forallb (fun t' => Nat.eqb (length t') n) ts = true).
  { apply forallb_forall. intros t' Hin. apply Nat.eqb_eq.
    rewrite Forall_forall in Hts. apply Hts, list_elem_of_In, Hin. }
  rewrite H. reflexivity.
Qed.

Lemma Forall2_zip_seq {A B} (P : nat * A -> B -> Prop) (i : nat)
    (l : list A) (k : list B) :
  Forall2 P (zip (seq i (length l)) l) k <->
  length l = length k
  /\ (forall j e r, l !! j = Some e -> k !! j = Some r -> P ((i + j)%nat, e) r).
Proof.
  assert (Hlen : length (zip (seq i (length l)) l) = length l).
  { rewrite length_zip_with, length_seq. lia. }
  rewrite Forall2_same_length_lookup, Hlen. split.
  - intros [Hl H]. split; [exact Hl|]. intros j e r He Hr.
    apply H with (i := j); [|exact Hr].
    apply lookup_zip_with_Some. exists (i + j)%nat, e.
    split; [reflexivity|]. split; [|exact He].
    apply lookup_seq_lt. eapply lookup_lt_Some, He.
  - intros [Hl H]. split; [exact Hl|]. intros j [i' e] r Hs Hr.
    apply lookup_zip_with_Some in Hs as (a & b & Heq & Ha & Hb).
    injection Heq as -> ->. apply lookup_seq in Ha as [-> _].
    exact (H j _ r Hb Hr).
Qed.

(** Row [b] of every looked-up tensor, side by side. *)
Lemma lookup_rows_transpose (P : nat * Embedding -> list Z -> list Q -> Prop)
    (zt : list (nat * Embedding)) (l : list (list (list Q)))
    (x : list (list Z)) (b : nat) (row : list Z) :
  Forall2 (fun s t => Forall2 (P s) x t) zt l ->
  x !! b = Some row ->
  Forall2 (fun s r => P s row r) zt (omap (fun t => t !! b) l).
Proof.
  intros H Hrow. induction H as [|s t zt l Hst _ IH]; [constructor|].
  destruct (Forall2_lookup_l _ _ _ _ _ Hst Hrow) as (r & Hr & HP).
  cbn [omap list_omap]. rewrite Hr. constructor; assumption.
Qed.

Lemma picks_omap (row : list Z) (zt : list (nat * Embedding))
    (picks : list (list Q)) :
  Forall2 (fun s r => exists v, row !! s.1 = Some v
                                /\ 0 <= v < num_embeddings s.2
                                /\ weight s.2 !! Z.to_nat v = Some r)
          zt picks ->
  omap (fun s => v ← row !! s.1; weight s.2 !! Z.to_nat v) zt = picks.
Proof.
  induction 1 as [|s r zt picks (v & Hv & _ & Hr) _ IH]; [reflexivity|].
  cbn [omap list_omap]. rewrite Hv. cbn [mbind option_bind].
  rewrite Hr, IH. reflexivity.
Qed.

(** What the lookup stage of [forward] returns. *)
Lemma forward_embeddings_Some (m : Model) (x : list (list Z))
    (y : list (list Q)) :
  forward_embeddings m x = Some y ->
  all_embeddings m <> []
  /\ length y = length x
  /\ (forall b row,
        x !! b = Some row ->
        exists picks,
          Forall2 (fun s r => exists v, row !! s.1 = Some v
                                        /\ 0 <= v < num_embeddings s.2
                                        /\ weight s.2 !! Z.to_nat v = Some r)
                  (enumerate (all_embeddings m)) picks
          /\ y !! b = Some (concat picks)).
Proof.
  unfold forward_embeddings. intros H.
  destruct (forward_loop x 0 (all_embeddings m) []) as [l|] eqn:El;
    [|discriminate].
  cbn [mbind option_bind] in H.
  apply forward_loop_Some in El as (l' & -> & Hl). simpl in H.
  fold (enumerate (all_embeddings m)) in Hl.
  assert (Hl2 : Forall2 (fun s t =>
            Forall2 (fun row r => exists v, row !! s.1 = Some v
                                   /\ 0 <= v < num_embeddings s.2
                                   /\ weight s.2 !! Z.to_nat v = Some r)
                    x t) (enumerate (all_embeddings m)) l').
  { eapply Forall2_impl; [exact Hl|]. intros s t Hst.
    apply embedding_column_Some. exact Hst. }
  assert (Hne : l' <> []) by (intros ->; discriminate).
  assert (Hlen : Forall (fun t => length t = length x) l').
  { apply Forall_forall. intros t Ht.
    apply list_elem_of_lookup in Ht as [j Hj].
    destruct (Forall2_lookup_r _ _ _ _ _ Hl2 Hj) as (s & _ & Hs).
    symmetry. eapply Forall2_length, Hs. }
  rewrite (torch_cat1_spec l' (length x) Hne Hlen) in H. injection H as <-.
  split.
  { intros Htab. apply Hne. apply Forall2_length in Hl.
    unfold enumerate in Hl. rewrite Htab in Hl. simpl in Hl.
    destruct l'; [reflexivity | discriminate]. }
  split; [now rewrite length_map, length_seq|].
  intros b row Hrow. exists (omap (fun t => t !! b) l'). split.
  - exact (lookup_rows_transpose _ _ _ _ _ _ Hl2 Hrow).
  - rewrite list_lookup_fmap, lookup_seq_lt
      by (eapply lookup_lt_Some, Hrow). reflexivity.
Qed.

(** When the lookup stage of [forward] gets through. *)
Lemma forward_embeddings_is_Some (m : Model) (x : list (list Z)) :
  all_embeddings m <> [] ->
  (forall row j e,
      row ∈ x -> all_embeddings m !! j = Some e ->
      exists v r, row !! j = Some v /\ 0 <= v < num_embeddings e
                  /\ weight e !! Z.to_nat v = Some r) ->
  is_Some (forward_embeddings m x).
Proof.
  intros Hne Hall. unfold forward_embeddings.
  assert (Hl : exists l,
    Forall2 (fun s t => column_slice x s.1 ≫= embedding_lookup s.2 = Some t)
            (zip (seq 0 (length (all_embeddings m))) (all_embeddings m)) l).
  { apply Forall_exists_Forall2_l, Forall_forall. intros [j e0] Hs.
    apply list_elem_of_lookup in Hs as [j' Hs].
    apply lookup_zip_with_Some in Hs as (a & e & Heq & Ha & Hb).
    injection Heq as Hj He0. subst j e0. apply lookup_seq in Ha as [-> _].
    cbn [fst snd]. rewrite Nat.add_0_l.
    assert (Ht : exists t,
      Forall2 (fun row r => exists v, row !! j' = Some v
                             /\ 0 <= v < num_embeddings e
                             /\ weight e !! Z.to_nat v = Some r) x t).
    { apply Forall_exists_Forall2_l, Forall_forall. intros row Hrow.
      destruct (Hall row j' e Hrow Hb) as (v & r & Hv); eauto. }
    destruct Ht as [t Ht]. exists t. apply embedding_column_Some, Ht. }
  destruct Hl as [l Hl].
  assert (El : forward_loop x 0 (all_embeddings m) [] = Some l).
  { apply forward_loop_Some. exists l. split; [reflexivity | exact Hl]. }
  rewrite El. cbn [mbind option_bind].
  assert (Hl_ne : l <> []).
  { intros ->. apply Forall2_length in Hl.
    rewrite length_zip_with, length_seq in Hl.
    destruct (all_embeddings m); [contradiction | discriminate]. }
  rewrite (torch_cat1_spec l (length x) Hl_ne); [eauto|].
  apply Forall_forall. intros t Ht.
  apply list_elem_of_lookup in Ht as [j Hj].
  destruct (Forall2_lookup_r _ _ _ _ _ Hl Hj) as (s & _ & Hs).
  apply embedding_column_Some in Hs.
  symmetry. eapply Forall2_length, Hs.
Qed.

Lemma concat_picks_width (tables : list Embedding) (picks : list (list Q)) :
  Forall2 (fun e r => Z.of_nat (length r) = embedding_dimension e)
          tables picks ->
  Z.of_nat (length (concat picks))
  = foldr Z.add 0 (map embedding_dimension tables).
Proof.
  induction 1 as [|e r tables picks Hr _ IH]; [reflexivity|].
  simpl. rewrite length_app, Nat2Z.inj_add, Hr, IH. reflexivity.
Qed.

Lemma embedding_widths_sum (embedding_size : list (Z * Z))
    (tables : list Embedding) :
  Forall2 (fun s e => embedding_dimension e = s.2) embedding_size tables ->
  foldr Z.add 0 (map embedding_dimension tables)
  = foldr Z.add 0 (map snd embedding_size).
Proof.
  induction 1 as [|s e es tables He _ IH]; [reflexivity|].
  simpl. rewrite He, IH. reflexivity.
Qed.

(** Row by row: what each table contributes. *)
Lemma forward_embeddings_rows (m : Model) (x : list (list Z))
    (y : list (list Q)) :
  forward_embeddings m x = Some y ->
  all_embeddings m <> [] /\ length y = length x
  /\ forall b row, x !! b = Some row ->
       exists picks,
         (forall j e, all_embeddings m !! j = Some e ->
            exists v r, row !! j = Some v /\ 0 <= v < num_embeddings e
                        /\ weight e !! Z.to_nat v = Some r
                        /\ picks !! j = Some r)
         /\ length picks = length (all_embeddings m)
         /\ omap (fun s => v ← row !! s.1; weight s.2 !! Z.to_nat v)
                 (enumerate (all_embeddings m)) = picks
         /\ y !! b = Some (concat picks).
Proof.
  intros Hy.
  destruct (forward_embeddings_Some m x y Hy) as (Hne & Hlen & Hpick).
  split; [exact Hne|]. split; [exact Hlen|].
  intros b row Hrow. destruct (Hpick b row Hrow) as (picks & HP & Hb).
  exists picks. rewrite (picks_omap row _ picks HP).
  unfold enumerate in HP. apply Forall2_zip_seq in HP as [Hl HP].
  split; [|split; [now symmetry | split; [reflexivity | exact Hb]]].
  intros j e He.
  destruct (lookup_lt_is_Some_2 picks j) as [r Hr].
  { rewrite <- Hl. eapply lookup_lt_Some, He. }
  destruct (HP j e r He Hr) as (v & Hv & Hrange & Hw).
  exists v, r. tauto.
Qed.

(** The lookups of a built network get through exactly on indices within
    the tables. *)
Lemma forward_embeddings_in_range (w : nat -> nat -> nat -> Q)
    (embedding_size : list (Z * Z)) (num_numerical_cols output_size : Z)
    (hidden : list Z) (p : Q) (m : Model) (x : list (list Z)) :
  Model_init w embedding_size num_numerical_cols output_size hidden p
  = Some m ->
  is_Some (forward_embeddings m x)
  <-> embedding_size <> []
      /\ (forall row j ni nf,
            row ∈ x -> embedding_size !! j = Some (ni, nf) ->
            exists v, row !! j = Some v /\ 0 <= v < ni).
Proof.
  intros Hm.
  pose proof (Model_init_embeddings _ _ _ _ _ _ _ Hm) as Htab.
  split.
  - intros [y Hy].
    destruct (forward_embeddings_rows m x y Hy) as (Hne & _ & Hpick). split.
    + intros ->. apply Forall2_nil_inv_l in Htab. contradiction.
    + intros row j ni nf Hrow Hj.
      apply list_elem_of_lookup in Hrow as [b Hb].
      destruct (Hpick b row Hb) as (picks & HP & _).
      destruct (Forall2_lookup_l _ _ _ _ _ Htab Hj) as (e & He & Hs).
      destruct (HP j e He) as (v & r & Hv & Hrange & _).
      exists v. simpl in Hs.
      destruct Hs as (_ & _ & Hni & _). rewrite <- Hni. tauto.
  - intros [Hne Hall]. apply forward_embeddings_is_Some.
    + intros Hnil. rewrite Hnil in Htab.
      apply Forall2_nil_inv_r in Htab. contradiction.
    + intros row j e Hrow He.
      destruct (Forall2_lookup_r _ _ _ _ _ Htab He)
        as ([ni nf] & Hs & _ & _ & Hni & _ & Hlen & _).
      simpl in Hni, Hlen.
      destruct (Hall row j ni nf Hrow Hs) as (v & Hv & Hrange).
      destruct (lookup_lt_is_Some_2 (weight e) (Z.to_nat v)) as [r Hr];
        [lia|].
      exists v, r. rewrite Hni. tauto.
Qed.

(** X10. The lookup stage of [forward] (the loop over the embedding
    tables and [torch.cat]) on a network built by [Model.__init__] and a
    batch of one row or more: it gets through exactly when there is at
    least one table and every row holds, for every table, an index from 0
    up to the table's number of rows (excluded).  Row b of the result is
    then the rows of the tables at the indices of row b of the batch,
    side by side, and its width is the sum of the embedding widths. *)
Theorem forward_embeddings_lookup (w : nat -> nat -> nat -> Q)
    (embedding_size : list (Z * Z)) (num_numerical_cols output_size : Z)
    (hidden : list Z) (p : Q) (m : Model) (x : list (list Z)) :
  Model_init w embedding_size num_numerical_cols output_size hidden p
  = Some m ->
  x <> [] ->
  (is_Some (forward_embeddings m x)
   <-> embedding_size <> []
       /\ (forall row j ni nf,
             row ∈ x -> embedding_size !! j = Some (ni, nf) ->
             exists v, row !! j = Some v /\ 0 <= v < ni))
  /\ (forall y : list (list Q),
        forward_embeddings m x = Some y ->
        length y = length x
        /\ Forall (fun r => Z.of_nat (length r)
                            = foldr Z.add 0 (map snd embedding_size)) y
        /\ (forall b row,
              x !! b = Some row ->
              y !! b
              = Some (concat
                        (omap (fun s => v ← row !! s.1;
                                        weight s.2 !! Z.to_nat v)
                              (enumerate (all_embeddings m)))))).
Proof.
  intros Hm _.
  pose proof (Model_init_embeddings _ _ _ _ _ _ _ Hm) as Htab.
  split; [exact (forward_embeddings_in_range _ _ _ _ _ _ _ x Hm)|].
  intros y Hy.
  destruct (forward_embeddings_rows m x y Hy) as (_ & Hlen & Hpick).
  split; [exact Hlen|]. split.
  - apply Forall_forall. intros r Hr.
    apply list_elem_of_lookup in Hr as [b Hb].
    destruct (lookup_lt_is_Some_2 x b) as [row Hrow].
    { rewrite <- Hlen. eapply lookup_lt_Some, Hb. }
    destruct (Hpick b row Hrow) as (picks & HP & Hl & _ & Hyb).
    rewrite Hb in Hyb. injection Hyb as ->.
    rewrite <- (embedding_widths_sum embedding_size (all_embeddings m)).
    + apply concat_picks_width, Forall2_same_length_lookup.
      split; [now symmetry|]. intros j e r He Hr.
      destruct (HP j e He) as (v & r' & _ & _ & Hw & Hr').
      rewrite Hr in Hr'. injection Hr' as <-.
      destruct (Forall2_lookup_r _ _ _ _ _ Htab He)
        as (s & _ & _ & Hnf & _ & Hdim & _ & Hshape).
      rewrite Forall_forall in Hshape.
      rewrite (Hshape r (list_elem_of_lookup_2 _ _ _ Hw)), Hdim. lia.
    + eapply Forall2_impl; [exact Htab|].
      intros s e (_ & _ & _ & Hdim & _). exact Hdim.
  - intros b row Hrow.
    destruct (Hpick b row Hrow) as (picks & _ & _ & -> & Hyb). exact Hyb.
Qed.

Lemma forward_embeddings_lookup_witness :
  let w := fun i r c : nat => inject_Z (Z.of_nat (100 * i + 10 * r + c)) in
  let x := [[2; 0]; [0; 1]] in
  exists m,
    Model_init w [(3, 2); (2, 1)] 1 3 [200; 100; 50] (4 # 10) = Some m
    /\ x <> []
    /\ forward_embeddings m x = Some [[20; 21; 100]; [0; 1; 110]]%Q
    /\ forall y, forward_embeddings m x = Some y ->
                 length y = 2%nat
                 /\ Forall (fun r => Z.of_nat (length r) = 3) y.
Proof.
  intros w x. eexists. split; [vm_compute; reflexivity|].
  split; [discriminate|]. split; [vm_compute; reflexivity|].
  intros y Hy.
  destruct (proj2 (forward_embeddings_lookup w [(3, 2); (2, 1)] 1 3
                     [200; 100; 50] (4 # 10) _ x eq_refl
                     ltac:(discriminate)) y Hy) as (Hl & Hw & _).
  split; [exact Hl | exact Hw].
Defined.

(** ** The constructor and the first forward pass *)

Lemma init_inv (shuffle : list nat -> list nat) (df : DataFrame)
    (self : ModelTrainer) :
  init shuffle df = Some self ->
  exists (res_col : column) (self1 : ModelTrainer),
    df_get df "Result" = Some res_col
    /\ define_learn_data (new_trainer df (column_values res_col)) = Some self1
    /\ emb_matrix self = emb_matrix self1
    /\ numeric_matrix self = numeric_matrix self1
    /\ categorical_embedding_sizes self = categorical_embedding_sizes self1.
Proof.
  unfold init. intros H.
  destruct (df_get df "Result") as [res_col|]; [|discriminate].
  cbn [fmap option_fmap option_map mbind option_bind] in H.
  destruct (define_learn_data _) as [self1|] eqn:E1; [|discriminate].
  cbn [mbind option_bind] in H. unfold split_data, split_data_assign in H.
  repeat match type of H with
         | (?m ≫= _) = Some _ =>
             let E := fresh "E" in
             destruct m eqn:E; [|discriminate];
             cbn [mbind option_bind] in H
         end.
  injection H as <-. exists res_col, self1.
  split; [reflexivity|]. split; [exact E1|].
  split; [reflexivity|]. split; reflexivity.
Qed.

(** The sizes [define_learn_data] leaves for the embedding tables. *)
Lemma define_learn_data_sizes (self self' : ModelTrainer) :
  define_learn_data self = Some self' ->
  exists sizes : list (Z * Z),
    categorical_embedding_sizes self' = Some sizes
    /\ length sizes = length CATEGORIES
    /\ Forall (fun s => 0 <= s.1 /\ 0 <= s.2) sizes
    /\ (forall j name col,
          CATEGORIES !! j = Some name ->
          df_get (DATA_MATRIX self) name = Some col ->
          sizes !! j
          = Some (cardinality col, embedding_dim (cardinality col))).
Proof.
  intros H.
  destruct (define_learn_data_inv self self' H)
    as (emb_cols & emb0 & emb & numeric & sizes
        & E1 & E2 & E3 & E4 & E5 & He & Hn & Hr & Hs).
  eexists. split; [exact Hs|].
  pose proof (length_mapM _ _ _ E5) as Hlen.
  apply mapM_Some_1 in E5.
  split; [|split].
  - rewrite length_map. now symmetry.
  - apply Forall_fmap, Forall_forall. intros sz Hsz.
    apply list_elem_of_lookup in Hsz as [j Hj].
    destruct (Forall2_lookup_r _ _ _ _ _ E5 Hj) as (name & _ & Hget).
    destruct (df_get (DATA_MATRIX self') name) as [c|]; [|discriminate].
    cbn [mbind option_bind] in Hget.
    destruct (cat_categories c) as [cats|]; [|discriminate].
    cbn [mbind option_bind] in Hget. injection Hget as <-.
    unfold compose, embedding_dim. cbn [fst snd]. split; [lia|].
    apply Z.min_glb; [lia|]. apply Z.div_pos; lia.
  - intros j name col Hj Hcol.
    destruct (Forall2_lookup_l _ _ _ _ _ E5 Hj) as (sz & Hsz & Hget).
    rewrite (convert_categories_get _ _ _ name CATEGORIES_NoDup E4) in Hget.
    rewrite bool_decide_eq_true_2 in Hget
      by (eapply list_elem_of_lookup_2; eassumption).
    rewrite Hcol in Hget. simpl in Hget.
    rewrite list_lookup_fmap, Hsz. simpl. unfold cardinality.
    destruct (cat_categories (astype_category col)) as [cats|];
      [|discriminate].
    simpl in Hget. injection Hget as <-. reflexivity.
Qed.

(** Entry (i, j) of the categorical matrix is the integer cast of the
    value row i holds in field j. *)
Lemma emb_matrix_entry (self self' : ModelTrainer) (emb : list (list Z))
    (j i : nat) (name : string) (col : column) (c : cell) :
  define_learn_data self = Some self' ->
  emb_matrix self' = Some emb ->
  CATEGORIES !! j = Some name ->
  df_get (DATA_MATRIX self) name = Some col ->
  column_values col !! i = Some c ->
  exists (row : list Z) (z : Z),
    emb !! i = Some row /\ row !! j = Some z /\ cell_int64 c = Some z.
Proof.
  intros H Hemb Hj Hcol Hc.
  destruct (define_learn_data_inv self self' H)
    as (emb_cols & emb0 & emb' & numeric & sizes
        & E1 & E2 & E3 & E4 & E5 & He & Hn & Hr & Hs).
  rewrite Hemb in He. injection He as <-.
  apply mapM_Some_1 in E1.
  destruct (Forall2_lookup_l _ _ _ _ _ E1 Hj) as (vals & Hvals & Hget).
  rewrite Hcol in Hget. simpl in Hget. injection Hget as <-.
  destruct (np_stack1_lookup _ _ _ _ _ _ E2 Hvals Hc)
    as (row0 & Hrow0 & Hx).
  apply mapM_Some_1 in E3.
  destruct (Forall2_lookup_l _ _ _ _ _ E3 Hrow0) as (row & Hrow & Hcast).
  apply mapM_Some_1 in Hcast.
  destruct (Forall2_lookup_l _ _ _ _ _ Hcast Hx) as (z & Hz & Hcz).
  exists row, z. tauto.
Qed.

(** X11. The constructor on a well-formed table of two rows or more
    builds a network of 13 embedding tables, the table of a field having
    as many rows as the field has distinct values.  The categorical
    training tensor it is run on holds the values of the fields as they
    are in the table (cast to integers), not their category codes: so
    the lookups of the first forward pass get through exactly when every
    value of every categorical field in the training rows is an integer
    from 0 up to the number of distinct values of its field
    (excluded). *)
Theorem constructor_forward_in_range (w : nat -> nat -> nat -> Q)
    (shuffle : list nat -> list nat) (df : DataFrame) (res_col : column) :
  wf_frame df ->
  df_get df "Result" = Some res_col ->
  Forall is_num (column_values res_col) ->
  (forall key col,
      str_in key INVALID = false -> str_in key CATEGORIES = false ->
      df_get df key = Some col -> Forall is_num (column_values col)) ->
  (2 <= shape0 df)%nat ->
  let k := Z.to_nat (Qfloor ((8 # 10) * inject_Z (Z.of_nat (shape0 df)))) in
  exists (self : ModelTrainer) (model : Model) (ct : list (list Z)),
    ModelTrainer_init w shuffle df = Some (self, model)
    /\ cat_train self = Some ct
    /\ length ct = k
    /\ length (all_embeddings model) = 13%nat
    /\ (is_Some (forward_embeddings model ct)
        <-> forall i j name col c,
              (i < k)%nat ->
              CATEGORIES !! j = Some name ->
              df_get df name = Some col ->
              column_values col !! i = Some c ->
              exists z, cell_int64 c = Some z /\ 0 <= z < cardinality col).
Proof.
  intros Hwf Hres Hres_num Hnum_cells Hn k.
  destruct (init_split shuffle df res_col Hwf Hres Hres_num Hnum_cells Hn)
    as (self & emb & numf & res & Hinit & Hemb & Hlen & Hnumf & _ & Hct & _).
  fold k in Hct.
  destruct (init_inv shuffle df self Hinit)
    as (res_col' & self1 & Hres' & Hdef & Hemb1 & Hnum1 & Hsz1).
  rewrite Hres in Hres'. injection Hres' as <-.
  destruct (define_learn_data_sizes _ _ Hdef)
    as (sizes & Hsizes & Hslen & Hsnn & Hslook).
  cbn [DATA_MATRIX new_trainer] in Hslook.
  assert (Hemb' : emb_matrix self1 = Some emb) by (now rewrite <- Hemb1).
  destruct (numeric_matrix self) as [num|] eqn:Enum; [|discriminate].
  assert (Hk : (k <= shape0 df)%nat).
  { assert (Hkz : k = Z.to_nat (8 * Z.of_nat (shape0 df) / 10)).
    { unfold k, Qfloor, Qmult, inject_Z. reflexivity. }
    rewrite Hkz.
    pose proof (Z.div_mod (8 * Z.of_nat (shape0 df)) 10 ltac:(lia)).
    pose proof (Z.mod_pos_bound (8 * Z.of_nat (shape0 df)) 10 ltac:(lia)).
    lia. }
  assert (Hmodel : is_Some (Model_init w sizes (shape1 num) 3 [200; 100; 50]
                                       (4 # 10))).
  { apply (Model_init_spec w sizes (shape1 num) 3 [200; 100; 50] (4 # 10)).
    split; [discriminate|]. split; [exact Hsnn|].
    split; [unfold shape1; destruct num; lia|]. split; [lia|].
    split; [repeat constructor; lia|]. split; discriminate. }
  destruct Hmodel as [model Hmodel].
  exists self, model, (take k emb). split.
  { unfold ModelTrainer_init. rewrite Hinit. cbn [mbind option_bind].
    rewrite Hsz1, Hsizes. cbn [mbind option_bind].
    rewrite Enum. cbn [mbind option_bind].
    rewrite Hmodel. reflexivity. }
  split; [exact Hct|].
  split; [rewrite length_take; lia|].
  split.
  { pose proof (Model_init_embeddings _ _ _ _ _ _ _ Hmodel) as Htab.
    rewrite <- (Forall2_length _ _ _ Htab). exact Hslen. }
  rewrite (forward_embeddings_in_range _ _ _ _ _ _ _ (take k emb) Hmodel).
  split.
  - intros [_ Hall] i j name col c Hi Hj Hcol Hc.
    destruct (emb_matrix_entry _ self1 emb j i name col c Hdef Hemb' Hj
                Hcol Hc) as (row & z & Hrow & Hz & Hcz).
    exists z. split; [exact Hcz|].
    destruct (Hall row j (cardinality col) (embedding_dim (cardinality col)))
      as (v & Hv & Hrange).
    + apply list_elem_of_lookup. exists i.
      rewrite lookup_take, decide_True by exact Hi. exact Hrow.
    + exact (Hslook j name col Hj Hcol).
    + rewrite Hz in Hv. injection Hv as <-. exact Hrange.
  - intros Hall. split.
    { intros ->. discriminate Hslen. }
    intros row j ni nf Hrow Hj.
    apply list_elem_of_lookup in Hrow as [i Hi].
    rewrite lookup_take in Hi.
    destruct (decide (i < k)%nat) as [Hik|]; [|discriminate].
    destruct (lookup_lt_is_Some_2 CATEGORIES j) as [name Hname].
    { rewrite <- Hslen. eapply lookup_lt_Some, Hj. }
    pose proof (wf_categories df Hwf) as Hcats.
    destruct (Forall_lookup_1 _ _ _ _ Hcats Hname) as (col & Hcol & _).
    destruct (lookup_lt_is_Some_2 (column_values col) i) as [c Hc].
    { pose proof (wf_lengths df Hwf) as Hlens.
      rewrite Forall_forall in Hlens.
      pose proof (Hlens (name, col) (dict_get_elem_of _ _ _ Hcol)) as Hcl.
      cbn [snd] in Hcl. unfold shape0 in Hk. lia. }
    destruct (Hall i j name col c Hik Hname Hcol Hc) as (z & Hcz & Hrange).
    destruct (emb_matrix_entry _ self1 emb j i name col c Hdef Hemb' Hname
                Hcol Hc) as (row' & z' & Hrow' & Hz' & Hcz').
    rewrite Hi in Hrow'. injection Hrow' as <-.
    rewrite Hcz in Hcz'. injection Hcz' as <-.
    rewrite (Hslook j name col Hname Hcol) in Hj. injection Hj as <- <-.
    exists z. split; [exact Hz' | exact Hrange].
Qed.

Lemma constructor_forward_in_range_witness :
  let df := example_frame [7; 3; 7; 9; 3] [1; 2; 3; 4; 5] [0; 1; 2; 1; 0] in
  let w := fun _ _ _ : nat => 0%Q in
  wf_frame df
  /\ (2 <= shape0 df)%nat
  /\ exists self model ct,
       ModelTrainer_init w (@rev nat) df = Some (self, model)
       /\ cat_train self = Some ct
       /\ length ct = 4%nat
       /\ forward_embeddings model ct = None.
Proof.
  intros df w.
  assert (Hn : (2 <= shape0 df)%nat) by (vm_compute; lia).
  split; [exact example_frame_wf|]. split; [exact Hn|].
  destruct (constructor_forward_in_range w (@rev nat) df
              (Values [Num 0; Num 1; Num 2; Num 1; Num 0])
              example_frame_wf eq_refl
              ltac:(repeat constructor) example_frame_numeric Hn)
    as (self & model & ct & Hinit & Hct & Hlen & _ & Hiff).
  exists self, model, ct.
  split; [exact Hinit|]. split; [exact Hct|]. split; [exact Hlen|].
  destruct (forward_embeddings model ct) as [y|] eqn:E; [|reflexivity].
  exfalso.
  destruct (proj1 Hiff (ex_intro _ y eq_refl) 0%nat 0%nat "League"%string
              (Values [Num 7; Num 3; Num 7; Num 9; Num 3]) (Num 7)
              ltac:(vm_compute; lia) eq_refl eq_refl eq_refl)
    as (z & Hz & Hrange).
  vm_compute in Hz. injection Hz as <-. vm_compute in Hrange.
  destruct Hrange as [_ Hlt]. discriminate Hlt.
Defined.

(** ** The training loop *)

Section TrainSchedule.
Context {state loss : Type}.
Variable forward_loss : state -> option (loss * state).
Variable optimizer_step : loss -> state -> option state.

(** A run in which no epoch raises: [s i] is the state at the start of
    epoch i + 1, [l i] the loss of that epoch. *)
Variable s s' : nat -> state.
Variable l : nat -> loss.

Lemma train_loop_run (m : nat) :
  forall (a : nat) (single_loss : option loss) (agg : list loss)
         (out : list (output loss)),
    (forall i, (a <= i < a + m)%nat ->
               forward_loss (s i) = Some (l i, s' i)
               /\ optimizer_step (l i) (s' i) = Some (s (S i))) ->
    train_loop forward_loss optimizer_step (map Z.of_nat (seq a m)) (s a)
               single_loss agg out
    = (out ++ map (fun i => Printed (Z.of_nat i) (l (i - 1)) 8)
                  (filter (fun i => Z.of_nat i mod 25 = 1) (seq (S a) m)),
       Some (s (a + m)%nat,
             match m with
             | O => single_loss
             | S _ => Some (l (a + m - 1)%nat)
             end,
             agg ++ map l (seq a m))).
Proof.
  induction m as [|m IH]; intros a single_loss agg out Hrun.
  - simpl. rewrite !app_nil_r, Nat.add_0_r. reflexivity.
  - destruct (Hrun a ltac:(lia)) as [Hf Ho].
    cbn [seq map train_loop]. rewrite Hf, Ho.
    rewrite IH by (intros i Hi; apply Hrun; lia).
    replace (Z.of_nat a + 1) with (Z.of_nat (S a)) by lia.
    f_equal.
    + rewrite filter_cons.
      destruct (decide (Z.of_nat (S a) mod 25 = 1)) as [Hp|Hp].
      * apply Z.eqb_eq in Hp as Hb. rewrite Hb.
        rewrite <- app_assoc. cbn [map app].
        replace (S a - 1)%nat with a by lia. reflexivity.
      * apply Z.eqb_neq in Hp as Hb. rewrite Hb. reflexivity.
    + f_equal. f_equal; [f_equal; [f_equal; lia|]|].
      * destruct m; f_equal; f_equal; lia.
      * rewrite <- app_assoc. reflexivity.
Qed.

End TrainSchedule.

(** X12. [train_model] with no epoch to run ([epochs] zero or negative)
    raises after the loop, having printed nothing: [single_loss] is
    still the [dict()] it was initialised with, which has no [item]. *)
Theorem train_model_no_epochs {state loss : Type}
    (forward_loss : state -> option (loss * state))
    (optimizer_step : loss -> state -> option state)
    (epochs : Z) (st : state) :
  epochs <= 0 ->
  train_model forward_loss optimizer_step epochs st = ([], None).
Proof.
  intros He. unfold train_model, py_range.
  replace (Z.to_nat epochs) with 0%nat by lia. reflexivity.
Qed.

Lemma train_model_no_epochs_witness :
  0 <= 0
  /\ train_model (fun st : nat => Some (st, st))
                 (fun (_ : nat) st => Some (S st)) 0 7%nat = ([], None).
Proof.
  split; [lia|].
  apply (train_model_no_epochs (fun st : nat => Some (st, st))
           (fun (_ : nat) st => Some (S st)) 0 7%nat).
  lia.
Defined.

(** X13. A run of [train_model] over one epoch or more in which neither
    the forward pass nor the optimiser raises: it prints the loss with 8
    decimals in the epochs 1, 26, 51, ... (those that leave 1 modulo 25)
    and then once more the loss of the last epoch, with 10 decimals and
    the number of epochs; it records one loss per epoch, in order, and
    steps the optimiser once per epoch. *)
Theorem train_model_schedule {state loss : Type}
    (forward_loss : state -> option (loss * state))
    (optimizer_step : loss -> state -> option state)
    (s s' : nat -> state) (l : nat -> loss) (epochs : Z) :
  1 <= epochs ->
  (forall i, (i < Z.to_nat epochs)%nat ->
             forward_loss (s i) = Some (l i, s' i)
             /\ optimizer_step (l i) (s' i) = Some (s (S i))) ->
  train_model forward_loss optimizer_step epochs (s 0%nat)
  = (map (fun i => Printed (Z.of_nat i) (l (i - 1)%nat) 8)
         (filter (fun i => Z.of_nat i mod 25 = 1)
                 (seq 1 (Z.to_nat epochs)))
     ++ [Printed epochs (l (Z.to_nat epochs - 1)%nat) 10],
     Some (s (Z.to_nat epochs), map l (seq 0 (Z.to_nat epochs)))).
Proof.
  intros He Hrun. unfold train_model, py_range.
  rewrite (train_loop_run forward_loss optimizer_step s s' l
             (Z.to_nat epochs) 0%nat None [] [])
    by (intros i Hi; apply Hrun; lia).
  destruct (Z.to_nat epochs) as [|n] eqn:En; [lia|].
  cbn [app]. rewrite Nat.add_0_l. reflexivity.
Qed.

Lemma train_model_schedule_witness :
  1 <= 30
  /\ train_model (fun st : nat => Some (st, st))
                 (fun (_ : nat) st => Some (S st)) 30 0%nat
     = ([Printed 1 0%nat 8; Printed 26 25%nat 8; Printed 30 29%nat 10],
        Some (30%nat, seq 0 30)).
Proof.
  split; [lia|].
  exact (train_model_schedule (fun st : nat => Some (st, st))
           (fun (_ : nat) st => Some (S st))
           (fun i => i) (fun i => i) (fun i => i) 30
           ltac:(lia) ltac:(intros i _; split; reflexivity)).
Defined.

(** ** The vectors of the vocabulary *)

Lemma dict_get_map {V W} (f : V -> W) (d : dict V) (k : string) :
  dict_get (map (fun kv => (kv.1, f kv.2)) d) k = f <$> dict_get d k.
Proof.
  induction d as [|[k0 v0] d IH]; [reflexivity|].
  simpl. destruct (String.eqb k0 k); [reflexivity | exact IH].
Qed.

Lemma dict_keys_map {V W} (f : V -> W) (d : dict V) :
  dict_keys (map (fun kv => (kv.1, f kv.2)) d) = dict_keys d.
Proof. unfold dict_keys. rewrite map_map. reflexivity. Qed.

(** X14. Without a model [get_all_vectors] and [normalize_all_vectors]
    raise (there is no [wv] on [None]), where [get_player_vector] returns
    0.  With one, [get_all_vectors] returns a dictionary with the keys of
    the vocabulary, in its order, in which every token has the vector the
    model gives it. *)
Theorem get_all_vectors_lookup (self : PlayerEmbedding) :
  (MODEL self = None ->
   get_all_vectors self = None /\ normalize_all_vectors self = None)
  /\ (forall m : Word2Vec,
        MODEL self = Some m -> NoDup (dict_keys (wv m)) ->
        exists all_vectors : dict pyval,
          get_all_vectors self = Some all_vectors
          /\ dict_keys all_vectors = dict_keys (wv m)
          /\ (forall name : string,
                dict_get all_vectors name = PyVec <$> get_vector m name)
          /\ (forall name : string,
                name ∈ dict_keys (wv m) ->
                exists v, get_player_vector self name = Some v
                          /\ dict_get all_vectors name = Some v)).
Proof.
  split.
  - intros Hm. unfold normalize_all_vectors, get_all_vectors.
    rewrite Hm. split; reflexivity.
  - intros m Hm Hnd. eexists.
    split; [exact (get_all_vectors_spec self m Hm Hnd)|].
    split; [apply dict_keys_map|]. split.
    + intros name. apply dict_get_map.
    + intros name Hname. unfold get_player_vector. rewrite Hm.
      rewrite dict_get_map. unfold get_vector.
      destruct (dict_get_is_Some (wv m) name Hname) as [v ->].
      exists (PyVec v). split; reflexivity.
Qed.

Lemma get_all_vectors_lookup_witness :
  let m := mkWord2Vec [("Messi"%string, [1; -2]%Q);
                       ("Xavi"%string, [3; 1 # 2]%Q)] 2 in
  let self := w2v_load fresh m in
  MODEL self = Some m
  /\ NoDup (dict_keys (wv m))
  /\ exists all_vectors,
       get_all_vectors self = Some all_vectors
       /\ dict_keys all_vectors = ["Messi"; "Xavi"]%string
       /\ dict_get all_vectors "Xavi" = Some (PyVec [3; 1 # 2]%Q).
Proof.
  intros m self.
  assert (Hnd : NoDup (dict_keys (wv m))).
  { apply (bool_decide_unpack (NoDup (dict_keys (wv m)))). exact I. }
  split; [reflexivity|]. split; [exact Hnd|].
  destruct (proj2 (get_all_vectors_lookup self) m eq_refl Hnd)
    as (all_vectors & Hall & Hkeys & Hget & _).
  exists all_vectors. split; [exact Hall|]. split; [exact Hkeys|].
  rewrite Hget. reflexivity.
Defined.

(** The run of [normalize_all_vectors] on a model: the two bounds and
    the dictionary returned. *)
Lemma normalize_all_vectors_run (self : PlayerEmbedding) (m : Word2Vec) :
  MODEL self = Some m ->
  NoDup (dict_keys (wv m)) ->
  Forall (fun kv => kv.2 <> []) (wv m) ->
  exists hi lo : Q,
    normalize_all_vectors self
    = Some ({| MODEL := MODEL self;
               NORMALIZED_VECTORS :=
                 Some (map (fun kv => (kv.1, rescale lo hi (PyVec kv.2)))
                           (wv m));
               VEC_SIZE := VEC_SIZE self |},
            map (fun kv => (kv.1, rescale lo hi (PyVec kv.2))) (wv m))
    /\ (lo <= 0 <= hi)%Q
    /\ (forall kv x, kv ∈ wv m -> x ∈ kv.2 -> (lo <= x <= hi)%Q)
    /\ ((forall kv x, kv ∈ wv m -> x ∈ kv.2 -> (0 <= x)%Q) -> lo = 0%Q)
    /\ ((forall kv x, kv ∈ wv m -> x ∈ kv.2 -> (x <= 0)%Q) -> hi = 0%Q).
Proof.
  intros Hm Hnd Hne.
  assert (Hne' : Forall (fun v => v <> []) (map snd (wv m))).
  { apply Forall_fmap. exact Hne. }
  destruct (max_min_loop_spec (map snd (wv m)) 0 0 Hne')
    as (hi & lo & Hloop & Hlo & Hhi & Hall & _ & _ & Hlo0 & Hhi0).
  assert (Hback : forall v, v ∈ map snd (wv m) ->
                            exists kv, kv ∈ wv m /\ v = kv.2).
  { intros v Hv. apply list_elem_of_fmap in Hv as (kv & -> & Hkv). eauto. }
  exists hi, lo. split; [|split; [|split; [|split]]].
  - unfold normalize_all_vectors.
    rewrite (get_all_vectors_spec self m Hm Hnd). simpl.
    unfold dict_values. rewrite map_map. simpl.
    rewrite <- (map_map snd PyVec), Hloop. simpl.
    rewrite !map_map. reflexivity.
  - split; assumption.
  - intros kv x Hkv Hx. apply (Hall kv.2 x); [|exact Hx].
    apply list_elem_of_fmap. eauto.
  - intros Hpos. apply Hlo0. intros v x Hv Hx.
    destruct (Hback v Hv) as (kv & Hkv & ->). exact (Hpos kv x Hkv Hx).
  - intros Hneg. apply Hhi0. intros v x Hv Hx.
    destruct (Hback v Hv) as (kv & Hkv & ->). exact (Hneg kv x Hkv Hx).
Qed.

Lemma rescale_denominator (lo hi x : Q) :
  (lo <= 0 <= hi)%Q -> (lo <= x <= hi)%Q -> ~ x == 0 ->
  ~ hi + Qabs lo == 0.
Proof.
  intros [Hlo Hhi] [Hx1 Hx2] Hx0 Hden.
  destruct (Qabs_cases lo) as [[H0 Ha]|[H0 Ha]]; rewrite Ha in Hden.
  - apply Hx0. apply Qle_antisym; lra.
  - apply Hx0. apply Qle_antisym; lra.
Qed.

(** X15. [normalize_all_vectors] on a model whose vectors are not empty
    returns, and stores in [NORMALIZED_VECTORS], a dictionary with the
    keys of the vocabulary.  Unless every number of every vector is
    zero, each vector is replaced by one of the same length whose
    entries are all finite and between 0 and 1; if they are all zero,
    every entry becomes nan. *)
Theorem normalize_all_vectors_range (self : PlayerEmbedding) (m : Word2Vec) :
  MODEL self = Some m ->
  NoDup (dict_keys (wv m)) ->
  Forall (fun kv => kv.2 <> []) (wv m) ->
  exists (self' : PlayerEmbedding) (out : dict npval),
    normalize_all_vectors self = Some (self', out)
    /\ NORMALIZED_VECTORS self' = Some out
    /\ MODEL self' = MODEL self
    /\ dict_keys out = dict_keys (wv m)
    /\ ((exists kv x, kv ∈ wv m /\ x ∈ kv.2 /\ ~ x == 0) ->
        forall name v,
          dict_get (wv m) name = Some v ->
          exists ys : list Q,
            dict_get out name = Some (NpArray (map Fin ys))
            /\ length ys = length v
            /\ Forall (fun y => (0 <= y <= 1)%Q) ys)
    /\ ((forall kv x, kv ∈ wv m -> x ∈ kv.2 -> x == 0) ->
        forall name v,
          dict_get (wv m) name = Some v ->
          dict_get out name = Some (NpArray (map (fun _ => NaN) v))).
Proof.
  intros Hm Hnd Hne.
  destruct (normalize_all_vectors_run self m Hm Hnd Hne)
    as (hi & lo & Hrun & Hlohi & Hall & Hlo0 & Hhi0).
  eexists _, _. split; [exact Hrun|]. cbn [NORMALIZED_VECTORS MODEL].
  split; [reflexivity|]. split; [reflexivity|].
  split; [exact (dict_keys_map (fun v => rescale lo hi (PyVec v)) (wv m))|].
  split.
  - intros (kv0 & x0 & Hkv0 & Hx0 & Hnz) name v Hv.
    pose proof (rescale_denominator lo hi x0 Hlohi (Hall kv0 x0 Hkv0 Hx0) Hnz)
      as Hden.
    exists (map (fun x => (x + Qabs lo) / (hi + Qabs lo))%Q v).
    rewrite (dict_get_map (fun v => rescale lo hi (PyVec v))), Hv.
    split; [|split].
    + simpl. f_equal. f_equal. rewrite map_map. apply map_ext. intros x.
      apply np_div_nonzero, Hden.
    + apply length_map.
    + apply Forall_fmap, Forall_forall. intros x Hx. unfold compose.
      destruct (Hall (name, v) x (dict_get_elem_of _ _ _ Hv) Hx) as [H1 H2].
      exact (proj1 (rescale_range lo hi x H1 H2 Hden)).
  - intros Hzero name v Hv.
    assert (Hlo : lo = 0%Q).
    { apply Hlo0. intros kv x Hkv Hx. rewrite (Hzero kv x Hkv Hx). lra. }
    assert (Hhi : hi = 0%Q).
    { apply Hhi0. intros kv x Hkv Hx. rewrite (Hzero kv x Hkv Hx). lra. }
    subst lo hi.
    rewrite (dict_get_map (fun v => rescale 0 0 (PyVec v))), Hv.
    simpl. f_equal. f_equal. apply map_ext_in. intros x Hx.
    apply np_div_zero_zero; [|reflexivity].
    rewrite (Hzero (name, v) x (dict_get_elem_of _ _ _ Hv)
               (proj2 (list_elem_of_In _ _) Hx)).
    reflexivity.
Qed.

Lemma normalize_all_vectors_range_witness :
  let m := mkWord2Vec [("Messi"%string, [1; -2]%Q);
                       ("Xavi"%string, [3; 1 # 2]%Q)] 2 in
  let self := w2v_load fresh m in
  MODEL self = Some m
  /\ NoDup (dict_keys (wv m))
  /\ Forall (fun kv => kv.2 <> []) (wv m)
  /\ exists self' out,
       normalize_all_vectors self = Some (self', out)
       /\ exists ys, dict_get out "Messi" = Some (NpArray (map Fin ys))
                     /\ Forall (fun y => (0 <= y <= 1)%Q) ys.
Proof.
  intros m self.
  assert (Hnd : NoDup (dict_keys (wv m))).
  { apply (bool_decide_unpack (NoDup (dict_keys (wv m)))). exact I. }
  assert (Hne : Forall (fun kv : string * list Q => kv.2 <> []) (wv m)).
  { repeat constructor; discriminate. }
  split; [reflexivity|]. split; [exact Hnd|]. split; [exact Hne|].
  destruct (normalize_all_vectors_range self m eq_refl Hnd Hne)
    as (self' & out & Hres & _ & _ & _ & Hrange & _).
  exists self', out. split; [exact Hres|].
  assert (Hnz : exists (kv : string * list Q) (x : Q),
             kv ∈ wv m /\ x ∈ kv.2 /\ ~ x == 0).
  { exists ("Messi"%string, [1; -2]%Q), 1%Q.
    split; [apply list_elem_of_here|]. split; [apply list_elem_of_here|].
    discriminate. }
  destruct (Hrange Hnz "Messi"%string [1; -2]%Q eq_refl)
    as (ys & Hys & _ & Hall).
  exists ys. split; [exact Hys | exact Hall].
Defined.

(** ** Normalising one vector *)

(** The divisor of [normalize_vector] is positive unless it is zero. *)
Lemma normalize_divisor_pos (v : list Q) (lo hi : Q) :
  vec_min v = Some lo -> vec_max v = Some hi ->
  ~ hi + Qabs lo == 0 -> (0 < hi + Qabs lo)%Q.
Proof.
  intros Hlo Hhi Hden.
  destruct (vec_min_spec v lo Hlo) as [Hin _].
  destruct (vec_max_spec v hi Hhi) as [_ Hmax].
  pose proof (Hmax lo Hin) as Hle.
  assert (H0 : (0 <= hi + Qabs lo)%Q).
  { destruct (Qabs_cases lo) as [[H0 Ha]|[H0 Ha]]; rewrite Ha; lra. }
  apply Qle_lteq in H0 as [H0|H0]; [exact H0|].
  exfalso. apply Hden. symmetry. exact H0.
Qed.

Lemma Qdiv_le_iff (a b d : Q) :
  (0 < d)%Q -> (a / d <= b / d)%Q <-> (a <= b)%Q.
Proof.
  intros Hd. unfold Qdiv. apply Qmult_le_r. now apply Qinv_lt_0_compat.
Qed.

(** X16. [normalize_vector] raises exactly on the empty vector.  When
    the divisor max + |min| is not zero the result has the length of the
    input and keeps its order and its ties: of two entries, the one that
    was smaller is mapped to the smaller number, and equal entries to
    equal numbers. *)
Theorem normalize_vector_order (v : list Q) :
  (normalize_vector v = None <-> v = [])
  /\ (forall lo hi : Q,
        vec_min v = Some lo -> vec_max v = Some hi ->
        ~ hi + Qabs lo == 0 ->
        exists ys : list Q,
          normalize_vector v = Some (map Fin ys)
          /\ length ys = length v
          /\ (forall i j x x' y y',
                v !! i = Some x -> v !! j = Some x' ->
                ys !! i = Some y -> ys !! j = Some y' ->
                ((x <= x')%Q <-> (y <= y')%Q)
                /\ (x == x' <-> y == y'))).
Proof.
  split.
  - unfold normalize_vector. split.
    + destruct v as [|x v]; [reflexivity | discriminate].
    + intros ->. reflexivity.
  - intros lo hi Hlo Hhi Hden.
    pose proof (normalize_divisor_pos v lo hi Hlo Hhi Hden) as Hpos.
    exists (map (fun x => (x + Qabs lo) / (hi + Qabs lo))%Q v).
    split; [|split].
    + unfold normalize_vector. rewrite Hlo, Hhi. cbn [mbind option_bind].
      f_equal. rewrite map_map. apply map_ext. intros x.
      apply np_div_nonzero, Hden.
    + apply length_map.
    + intros i j x x' y y' Hx Hx' Hy Hy'.
      rewrite list_lookup_fmap, Hx in Hy. injection Hy as <-.
      rewrite list_lookup_fmap, Hx' in Hy'. injection Hy' as <-.
      assert (Hle : forall a b : Q,
                 ((a + Qabs lo) / (hi + Qabs lo)
                  <= (b + Qabs lo) / (hi + Qabs lo))%Q <-> (a <= b)%Q).
      { intros a b. rewrite (Qdiv_le_iff _ _ _ Hpos).
        split; intros H; lra. }
      split; [symmetry; apply Hle|]. split.
      * intros Heq. apply Qle_antisym; apply Hle; lra.
      * intros Heq. apply Qle_antisym; apply Hle; rewrite Heq; lra.
Qed.

Lemma normalize_vector_order_witness :
  vec_min [-1; 3; 1]%Q = Some (-1)%Q
  /\ vec_max [-1; 3; 1]%Q = Some 3%Q
  /\ ~ (3 + Qabs (-1) == 0)%Q
  /\ exists ys, normalize_vector [-1; 3; 1]%Q = Some (map Fin ys)
                /\ length ys = 3%nat.
Proof.
  assert (Hden : ~ (3 + Qabs (-1) == 0)%Q) by discriminate.
  split; [reflexivity|]. split; [reflexivity|]. split; [exact Hden|].
  destruct (proj2 (normalize_vector_order [-1; 3; 1]%Q) (-1)%Q 3%Q
              eq_refl eq_refl Hden) as (ys & Hys & Hlen & _).
  exists ys. split; [exact Hys | exact Hlen].
Defined.

Lemma rescale_unit (y a h : Q) :
  a == 0 -> h == 1 -> y == (y + a) / (h + a).
Proof.
  intros Ha Hh. rewrite Ha, Hh. field.
Qed.

(** X17. Normalising twice: when the smallest entry of a vector is zero
    or negative (and the divisor is not zero), the normalised vector has
    minimum 0 and maximum 1, and [normalize_vector] leaves it as it is,
    entry for entry. *)
Theorem normalize_vector_idempotent (v : list Q) (lo hi : Q) :
  vec_min v = Some lo -> vec_max v = Some hi ->
  (lo <= 0)%Q -> ~ hi + Qabs lo == 0 ->
  exists (ys zs : list Q) (lo' hi' : Q),
    normalize_vector v = Some (map Fin ys)
    /\ vec_min ys = Some lo' /\ lo' == 0
    /\ vec_max ys = Some hi' /\ hi' == 1
    /\ normalize_vector ys = Some (map Fin zs)
    /\ Forall2 Qeq ys zs.
Proof.
  intros Hlo Hhi Hneg Hden.
  set (f := fun x => ((x + Qabs lo) / (hi + Qabs lo))%Q).
  destruct (vec_min_spec v lo Hlo) as [Hlo_in Hmin].
  destruct (vec_max_spec v hi Hhi) as [Hhi_in Hmax].
  assert (Hf : forall x, x ∈ v ->
             (0 <= f x <= 1)%Q /\ (x == hi -> f x == 1)
             /\ (x == lo -> f x == 0)).
  { intros x Hx.
    destruct (rescale_range lo hi x (Hmin x Hx) (Hmax x Hx) Hden)
      as (H1 & H2 & H3 & _).
    split; [exact H1|]. split; [exact H2|]. intros Hxl. exact (H3 Hxl Hneg). }
  assert (Hne : map f v <> []).
  { destruct v; [discriminate Hlo | discriminate]. }
  destruct (vec_min_max_is_Some (map f v) Hne) as (lo' & hi' & Hlo' & Hhi').
  destruct (vec_min_spec _ lo' Hlo') as [Hlo'_in Hmin'].
  destruct (vec_max_spec _ hi' Hhi') as [Hhi'_in Hmax'].
  assert (Hlo0 : lo' == 0).
  { apply list_elem_of_fmap in Hlo'_in as (x & -> & Hx).
    apply Qle_antisym; [|exact (proj1 (proj1 (Hf x Hx)))].
    rewrite <- (proj2 (proj2 (Hf lo Hlo_in)) ltac:(reflexivity)).
    apply Hmin', list_elem_of_fmap. eauto. }
  assert (Hhi1 : hi' == 1).
  { apply list_elem_of_fmap in Hhi'_in as (x & -> & Hx).
    apply Qle_antisym; [exact (proj2 (proj1 (Hf x Hx)))|].
    rewrite <- (proj1 (proj2 (Hf hi Hhi_in)) ltac:(reflexivity)).
    apply Hmax', list_elem_of_fmap. eauto. }
  assert (Ha0 : Qabs lo' == 0) by (rewrite Hlo0; reflexivity).
  assert (Hden' : ~ hi' + Qabs lo' == 0).
  { rewrite Hhi1, Ha0. discriminate. }
  exists (map f v),
         (map (fun y => (y + Qabs lo') / (hi' + Qabs lo'))%Q (map f v)),
         lo', hi'.
  split; [|split; [exact Hlo'|split; [exact Hlo0|split; [exact Hhi'|
          split; [exact Hhi1|split]]]]].
  - unfold normalize_vector. rewrite Hlo, Hhi. cbn [mbind option_bind].
    f_equal. rewrite map_map. apply map_ext. intros x.
    apply np_div_nonzero, Hden.
  - unfold normalize_vector. rewrite Hlo', Hhi'. cbn [mbind option_bind].
    f_equal. rewrite (map_map _ Fin). apply map_ext. intros y.
    apply np_div_nonzero, Hden'.
  - apply Forall2_fmap_r, Forall_Forall2_diag, Forall_forall.
    intros y _. exact (rescale_unit y (Qabs lo') hi' Ha0 Hhi1).
Qed.

Lemma normalize_vector_idempotent_witness :
  vec_min [-1; 3; 1]%Q = Some (-1)%Q
  /\ vec_max [-1; 3; 1]%Q = Some 3%Q
  /\ (-1 <= 0)%Q
  /\ ~ (3 + Qabs (-1) == 0)%Q
  /\ exists ys zs, normalize_vector [-1; 3; 1]%Q = Some (map Fin ys)
                   /\ normalize_vector ys = Some (map Fin zs)
                   /\ Forall2 Qeq ys zs.
Proof.
  assert (Hneg : (-1 <= 0)%Q) by discriminate.
  assert (Hden : ~ (3 + Qabs (-1) == 0)%Q) by discriminate.
  split; [reflexivity|]. split; [reflexivity|].
  split; [exact Hneg|]. split; [exact Hden|].
  destruct (normalize_vector_idempotent [-1; 3; 1]%Q (-1)%Q 3%Q
              eq_refl eq_refl Hneg Hden)
    as (ys & zs & lo' & hi' & Hys & _ & _ & _ & _ & Hzs & Heq).
  exists ys, zs. split; [exact Hys|]. split; [exact Hzs | exact Heq].
Defined.

(** ** Colours *)

Lemma bytes_compose (n : Z) :
  0 <= n < 16777216 ->
  n / 65536 * 65536 + (n / 256) mod 256 * 256 + n mod 256 = n
  /\ 0 <= n / 65536 <= 255
  /\ 0 <= (n / 256) mod 256 <= 255
  /\ 0 <= n mod 256 <= 255.
Proof.
  intros Hn.
  pose proof (Z.div_mod n 256 ltac:(lia)) as H1.
  pose proof (Z.div_mod (n / 256) 256 ltac:(lia)) as H2.
  pose proof (Z.mod_pos_bound n 256 ltac:(lia)) as H3.
  pose proof (Z.mod_pos_bound (n / 256) 256 ltac:(lia)) as H4.
  assert (H5 : n / 256 / 256 = n / 65536).
  { rewrite Z.div_div by lia. reflexivity. }
  assert (H6 : 0 <= n / 65536 <= 255).
  { split; [apply Z.div_pos; lia|].
    assert (n / 65536 < 256) by (apply Z.div_lt_upper_bound; lia). lia. }
  rewrite H5 in H2. lia.
Qed.

(** X18. The colour [convert_to_rgb] writes for an element of [0, 1]
    that has no earlier element with the same scaled value is the
    24-bit integer floor(x * 16777215) cut into its three bytes: red is
    the most significant, and red * 65536 + green * 256 + blue gives the
    integer back. *)
Theorem convert_to_rgb_decode (vec : list Q) :
  Forall (fun x => (0 <= x <= 1)%Q) vec ->
  exists out : list (list Z),
    convert_to_rgb vec = Some out
    /\ forall (i : nat) (x : Q),
         vec !! i = Some x ->
         (forall j y, (j < i)%nat -> vec !! j = Some y ->
                      scaled y <> scaled x) ->
         exists red green blue : Z,
           out !! i = Some [red; green; blue]
           /\ 0 <= red <= 255 /\ 0 <= green <= 255 /\ 0 <= blue <= 255
           /\ red * 65536 + green * 256 + blue = Qfloor (x * 16777215).
Proof.
  intros Hvec.
  destruct (convert_to_rgb_rows vec Hvec) as (out & Hout & _ & _ & Hrows).
  exists out. split; [exact Hout|].
  intros i x Hx Hfirst.
  assert (H01 : (0 <= x <= 1)%Q).
  { eapply (proj1 (Forall_lookup _ _) Hvec); eassumption. }
  destruct (scaled_range x H01) as [Hfloor Hrange].
  destruct (bytes_compose (scaled x) Hrange) as (Hsum & Hr & Hg & Hb).
  exists (scaled x / 65536), ((scaled x / 256) mod 256), (scaled x mod 256).
  split.
  - rewrite (proj1 (Hrows i x Hx) Hfirst). apply rgb_encoding_bytes, H01.
  - rewrite <- Hfloor. tauto.
Qed.

Lemma convert_to_rgb_decode_witness :
  Forall (fun x => (0 <= x <= 1)%Q) [1 # 2; 1]%Q
  /\ exists out, convert_to_rgb [1 # 2; 1]%Q = Some out
       /\ exists red green blue,
            out !! 0%nat = Some [red; green; blue]
            /\ red * 65536 + green * 256 + blue = 8388607.
Proof.
  assert (Hvec : Forall (fun x => (0 <= x <= 1)%Q) [1 # 2; 1]%Q).
  { repeat constructor; discriminate. }
  split; [exact Hvec|].
  destruct (convert_to_rgb_decode [1 # 2; 1]%Q Hvec) as (out & Hout & Hdec).
  exists out. split; [exact Hout|].
  destruct (Hdec 0%nat (1 # 2)%Q eq_refl ltac:(intros j y Hj; lia))
    as (red & green & blue & Hrow & _ & _ & _ & Hsum).
  exists red, green, blue. split; [exact Hrow | exact Hsum].
Defined.

(** ** Elements below zero *)

Lemma py_int_nonneg_iff (q : Q) : 0 <= py_int q <-> (-1 < q)%Q.
Proof.
  destruct q as [n d]. unfold py_int, Qlt. cbn [Qnum Qden].
  destruct (Z_lt_le_dec n 0) as [Hn|Hn].
  - assert (Hq : n ÷ Z.pos d = - (- n / Z.pos d)).
    { rewrite <- (Z.opp_involutive n) at 1. rewrite Z.quot_opp_l by lia.
      rewrite Z.quot_div_nonneg by lia. reflexivity. }
    rewrite Hq. split.
    + intros H. assert (H0 : - n / Z.pos d = 0).
      { pose proof (Z.div_pos (- n) (Z.pos d) ltac:(lia) ltac:(lia)). lia. }
      apply Z.div_small_iff in H0; lia.
    + intros H. rewrite Z.div_small by lia. lia.
  - split; [lia|]. intros _. apply Z.quot_pos; lia.
Qed.

Lemma scaled_upper (x : Q) : (x <= 1)%Q -> scaled x < 16777216.
Proof.
  intros Hx. unfold scaled.
  destruct (Qlt_le_dec (x * 16777215) 0) as [Hneg|Hpos].
  - assert (H : py_int (x * 16777215) <= 0); [|lia].
    destruct (x * 16777215)%Q as [n d]. unfold py_int, Qlt in *.
    cbn [Qnum Qden] in *.
    rewrite <- (Z.opp_involutive n), Z.quot_opp_l by lia.
    assert (0 <= - n ÷ Z.pos d) by (apply Z.quot_pos; lia). lia.
  - rewrite (py_int_nonneg _ Hpos).
    assert (H1 : (x * 16777215 <= inject_Z 16777215)%Q).
    { change (inject_Z 16777215) with 16777215%Q. lra. }
    apply Qfloor_resp_le in H1. rewrite Qfloor_Z in H1. lia.
Qed.

Lemma hex_value_x (l : pystr) (acc : N) :
  "x"%char ∈ l -> hex_value l acc = None.
Proof.
  revert acc. induction l as [|c l IH]; intros acc Hx.
  - apply elem_of_nil in Hx. contradiction.
  - simpl. apply elem_of_cons in Hx as [<-|Hx]; [reflexivity|].
    destruct (ascii_to_digit c); [simpl; apply IH, Hx | reflexivity].
Qed.

Lemma int16_x (l : pystr) :
  "x"%char ∈ l -> int16 ("0"%char :: "x"%char :: l) = None.
Proof.
  intros Hx. unfold int16. destruct l as [|c l']; [reflexivity|].
  rewrite (hex_value_x (c :: l') 0%N Hx). reflexivity.
Qed.

(** Digits with the radix mark among them have no colour. *)
Lemma rgb_of_digits_x (dim : pystr) :
  "x"%char ∈ dim -> rgb_of_digits dim = None.
Proof.
  intros Hx. unfold rgb_of_digits.
  set (padded := if decide (length dim < 6)%nat
                 then replicate (6 - length dim) "0"%char ++ dim
                 else dim).
  assert (Hp : "x"%char ∈ padded).
  { unfold padded. destruct (decide (length dim < 6)%nat); [|exact Hx].
    apply elem_of_app. now right. }
  rewrite <- (take_drop 2 padded) in Hp. apply elem_of_app in Hp as [Hp|Hp].
  { rewrite (int16_x _ Hp). reflexivity. }
  destruct (int16 ("0"%char :: "x"%char :: take 2 padded)); [|reflexivity].
  cbn [mbind option_bind].
  rewrite <- (take_drop 2 (drop 2 padded)) in Hp.
  apply elem_of_app in Hp as [Hp|Hp].
  { rewrite (int16_x _ Hp). reflexivity. }
  destruct (int16 ("0"%char :: "x"%char :: take 2 (drop 2 padded)));
    [|reflexivity].
  cbn [mbind option_bind].
  rewrite drop_drop in Hp. change (2 + 2)%nat with 4%nat in Hp.
  rewrite (int16_x _ Hp). reflexivity.
Qed.

(** Python renders a negative integer with the sign in front: the radix
    mark is left after the first two characters are cut off. *)
Lemma hex_negative (n : Z) : n < 0 -> "x"%char ∈ drop 2 (hex n).
Proof.
  intros Hn. destruct n as [|p|p]; [lia | lia |].
  unfold hex, HexString.of_Z, HexString.of_pos.
  cbn [list_ascii_of_string drop]. apply list_elem_of_here.
Qed.

(** The loop raises as soon as one of the elements left has no colour. *)
Lemma rgb_loop_None (list_vec todo : list pystr) :
  forall (new_list_vec : list pystr) (rgb_vec : list (list Z)),
    Exists (fun d => rgb_of_digits d = None) todo ->
    rgb_loop list_vec todo new_list_vec rgb_vec = None.
Proof.
  induction todo as [|dim todo IH]; intros new_list_vec rgb_vec Hex.
  - apply Exists_nil in Hex. contradiction.
  - cbn [rgb_loop].
    set (padded := if decide (length dim < 6)%nat
                   then replicate (6 - length dim) "0"%char ++ dim
                   else dim).
    assert (Hlast :
      last (if decide (length dim < 6)%nat
            then new_list_vec ++ [replicate (6 - length dim) "0"%char ++ dim]
            else new_list_vec ++ [dim]) = Some padded).
    { unfold padded. destruct (decide (length dim < 6)%nat);
        apply last_snoc. }
    rewrite Hlast. cbn [mbind option_bind].
    assert (Hdim : rgb_of_digits dim
                   = (red ← int16 ("0"%char :: "x"%char :: take 2 padded);
                      green ← int16 ("0"%char :: "x"%char
                                     :: take 2 (drop 2 padded));
                      blue ← int16 ("0"%char :: "x"%char :: drop 4 padded);
                      Some [red; green; blue])) by reflexivity.
    destruct (int16 ("0"%char :: "x"%char :: take 2 padded)) as [red|];
      [|reflexivity].
    cbn [mbind option_bind] in Hdim |- *.
    destruct (int16 ("0"%char :: "x"%char :: take 2 (drop 2 padded)))
      as [green|]; [|reflexivity].
    cbn [mbind option_bind] in Hdim |- *.
    destruct (int16 ("0"%char :: "x"%char :: drop 4 padded)) as [blue|];
      [|reflexivity].
    cbn [mbind option_bind] in Hdim |- *.
    apply Exists_cons in Hex as [Hex|Hex]; [congruence|].
    repeat match goal with
           | |- (?m ≫= _) = None =>
               destruct m; [|reflexivity]; cbn [mbind option_bind]
           end.
    apply IH, Hex.
Qed.

(** X19. On a vector with no entry above 1, [convert_to_rgb] returns
    exactly when every entry is above -1/16777215, that is when no entry
    is scaled to a negative integer ([int] cuts the entries between
    that bound and 0 to 0).  A negative integer is printed by [hex] with
    its sign, the radix mark stays among the digits, and [int(..., 16)]
    raises on it. *)
Theorem convert_to_rgb_negative (vec : list Q) :
  Forall (fun x => (x <= 1)%Q) vec ->
  (is_Some (convert_to_rgb vec)
   <-> Forall (fun x => (-1 < x * 16777215)%Q) vec)
  /\ (forall x, x ∈ vec -> scaled x < 0 -> convert_to_rgb vec = None).
Proof.
  intros Hle.
  set (list_vec := map (fun x => drop 2 (hex (scaled x))) vec).
  assert (Hconv : convert_to_rgb vec
                  = rgb_loop list_vec list_vec []
                             (replicate (length vec) [0; 0; 0])).
  { unfold convert_to_rgb. rewrite !map_map. reflexivity. }
  assert (Hneg : forall x, x ∈ vec -> scaled x < 0 ->
                           convert_to_rgb vec = None).
  { intros x Hx Hs. rewrite Hconv. apply rgb_loop_None, Exists_exists.
    exists (drop 2 (hex (scaled x))). split.
    - unfold list_vec. apply list_elem_of_fmap. eauto.
    - apply rgb_of_digits_x, hex_negative, Hs. }
  split; [split|exact Hneg].
  - intros Hsome. apply Forall_forall. intros x Hx.
    apply py_int_nonneg_iff. change (0 <= scaled x).
    destruct (Z_lt_le_dec (scaled x) 0) as [Hs|Hs]; [|exact Hs].
    rewrite (Hneg x Hx Hs) in Hsome. destruct Hsome as [? H]. discriminate.
  - intros Hall. rewrite Hconv.
    destruct (rgb_loop_rows list_vec list_vec []
                (replicate (length vec) [0; 0; 0]))
      as (out & Hout & _).
    + apply Forall_replicate. reflexivity.
    + unfold list_vec. now rewrite length_replicate, length_map.
    + apply Forall_forall. intros d Hd. split; [exact Hd|].
      unfold list_vec in Hd. apply list_elem_of_fmap in Hd as (x & -> & Hx).
      rewrite Forall_forall in Hall, Hle.
      rewrite rgb_of_digits_hex; [eauto|]. split.
      * apply py_int_nonneg_iff, Hall, Hx.
      * apply scaled_upper, Hle, Hx.
    + rewrite Hout. eauto.
Qed.

Lemma convert_to_rgb_negative_witness :
  Forall (fun x => (x <= 1)%Q) [1 # 2; -1 # 100]%Q
  /\ (-1 # 100)%Q ∈ [1 # 2; -1 # 100]%Q
  /\ scaled (-1 # 100) < 0
  /\ convert_to_rgb [1 # 2; -1 # 100]%Q = None.
Proof.
  assert (Hle : Forall (fun x => (x <= 1)%Q) [1 # 2; -1 # 100]%Q).
  { repeat constructor; discriminate. }
  assert (Hin : (-1 # 100)%Q ∈ [1 # 2; -1 # 100]%Q).
  { apply list_elem_of_further, list_elem_of_here. }
  assert (Hs : scaled (-1 # 100) < 0) by reflexivity.
  split; [exact Hle|]. split; [exact Hin|]. split; [exact Hs|].
  exact (proj2 (convert_to_rgb_negative [1 # 2; -1 # 100]%Q Hle)
           (-1 # 100)%Q Hin Hs).
Defined.
